(** * TaskWeb: the today-task tracker and the workflow persistence endpoint

    A shallow embedding of [today_tasks.py] and [workflow_server.py].

    Python values are embedded as follows.
    - [int] is [Z]; [bool] is [bool]; [None] in an [Optional] is [None].
    - [str] is a list of Unicode code points ([Z]); [bytes] is [list byte].
    - A task dictionary, whose keys are fixed by [cmd_add], is a record.
    - A JSON document is the inductive type [json]; an object keeps its
      members in insertion order, as a Python [dict] does.
    - The single file each program reads and writes is [option bytes]:
      [None] while the file does not exist.
    - An exception that escapes a function is a [Raise] result.

    The library functions the programs call ([str.strip], [str.upper],
    [datetime.strptime], [sorted], the [utf-8] codec, [json.loads],
    [json.dumps]) are embedded from their CPython behaviour. *)

From Stdlib Require Import Strings.String Strings.Ascii Strings.Byte.
From Stdlib Require Import ZArith List Bool Lia Permutation Sorted.
Import ListNotations.
Local Open Scope Z_scope.
Set Warnings "-register-all,-notation-for-abbreviation".

(* ================================================================== *)
(** * Text *)
(* ================================================================== *)

Module Text.

(** A Python [str]: its code points, each in [0, 0x10FFFF]. *)
Definition str : Type := list Z.

Definition chr (a : ascii) : Z := Z.of_N (N_of_ascii a).

(** A literal of the source, written as a Rocq string of ASCII characters. *)
Definition lit (s : string) : str := map chr (list_ascii_of_string s).

Definition in_range (lo hi c : Z) : bool := (lo <=? c) && (c <=? hi).

Definition is_digit (c : Z) : bool := in_range 48 57 c.

(** [str.isspace] on one code point: the Unicode white space that
    [str.strip()] removes. *)
Definition is_space (c : Z) : bool :=
  in_range 9 13 c || in_range 28 32 c || (c =? 133) || (c =? 160)
  || (c =? 5760) || in_range 8192 8202 c || (c =? 8232) || (c =? 8233)
  || (c =? 8239) || (c =? 8287) || (c =? 12288).

Fixpoint lstrip (s : str) : str :=
  match s with
  | c :: r => if is_space c then lstrip r else s
  | [] => []
  end.

Definition rstrip (s : str) : str := rev (lstrip (rev s)).

(** [s.strip()] *)
Definition strip (s : str) : str := rstrip (lstrip s).

(** [s.upper()] on one code point.  Only the ASCII letters are mapped: the
    result is used for matching against patterns made of ASCII characters,
    and no code point outside ASCII upper-cases into them. *)
Definition upper_char (c : Z) : Z := if in_range 97 122 c then c - 32 else c.

Definition upper (s : str) : str := map upper_char s.

Definition lower_char (c : Z) : Z := if in_range 65 90 c then c + 32 else c.

Definition lower (s : str) : str := map lower_char s.

(** [a == b] and [a < b] on [str]: code point by code point. *)
Fixpoint str_eqb (a b : str) : bool :=
  match a, b with
  | [], [] => true
  | x :: a', y :: b' => (x =? y) && str_eqb a' b'
  | _, _ => false
  end.

Fixpoint str_ltb (a b : str) : bool :=
  match a, b with
  | _, [] => false
  | [], _ :: _ => true
  | x :: a', y :: b' => (x <? y) || ((x =? y) && str_ltb a' b')
  end.

(** [sep.join(parts)] *)
Fixpoint join (sep : str) (parts : list str) : str :=
  match parts with
  | [] => []
  | [p] => p
  | p :: ps => p ++ sep ++ join sep ps
  end.

(** The decimal digits of a positive number, most significant first.
    The fuel bounds the number of digits. *)
Fixpoint digits_of (fuel : nat) (n : Z) (acc : str) : str :=
  match fuel with
  | O => acc
  | S f =>
      if n <? 10 then (48 + n) :: acc
      else digits_of f (n / 10) ((48 + n mod 10) :: acc)
  end.

(** [repr(n)] of an [int], which is also [str(n)] and what an f-string
    and [json.dumps] print. *)
Definition repr_int (n : Z) : str :=
  if n <? 0
  then 45 :: digits_of (S (Z.to_nat (Z.log2 (- n)))) (- n) []
  else digits_of (S (Z.to_nat (Z.log2 n))) n [].

End Text.
Import Text.
Arguments lit s%_string.

(* ================================================================== *)
(** * Exceptions *)
(* ================================================================== *)

(** The exceptions that can leave the functions embedded below. *)
Inductive exn : Type :=
| UnicodeDecodeError   (* bytes that are not UTF-8 *)
| UnicodeEncodeError   (* text that has no UTF-8 form *)
| AttributeError       (* a method looked up on a value that has none *)
| OutsideTaskType.     (* the store holds a document that is not a list of
                          task dictionaries as [cmd_add] builds them: the
                          embedding leaves what happens next unspecified *)

Inductive result (A : Type) : Type :=
| Ok (a : A)
| Raise (e : exn).
Arguments Ok {A} a.
Arguments Raise {A} e.

(* ================================================================== *)
(** * today_tasks.py: due times *)
(* ================================================================== *)

(** ** [datetime.strptime] for the three formats of [parse_due_key]

    [_strptime] turns a format into a regular expression, matches it at
    the start of the text with [re.match] (ordered alternatives,
    backtracking), and raises [ValueError] when nothing matches or when the
    match stops before the end of the text.  A matcher below returns every
    way its pattern can match a prefix, in the order the regular expression
    engine tries them, so the head of the list is the match [re.match]
    finds.  The patterns are of type [str] and are compiled without
    [re.ASCII]: [\d] takes every decimal digit of Unicode, and [int] reads
    each of them as its value, while a class such as [[0-5]] takes the
    ASCII digits it names. *)
Module Strptime.

Definition matcher (A : Type) : Type := str -> list (A * str).

(** The decimal digits of Unicode 14.0, the version of CPython 3.11
    (category [Nd]): they come in runs of ten, from the digit zero to the
    digit nine; these are the code points of the zeros. *)
Definition decimal_zeros : list Z :=
  [48; 1632; 1776; 1984; 2406; 2534; 2662; 2790; 2918; 3046; 3174; 3302;
   3430; 3558; 3664; 3792; 3872; 4160; 4240; 6112; 6160; 6470; 6608; 6784;
   6800; 6992; 7088; 7232; 7248; 42528; 43216; 43264; 43472; 43504; 43600;
   44016; 65296; 66720; 68912; 69734; 69872; 69942; 70096; 70384; 70736;
   70864; 71248; 71360; 71472; 71904; 72016; 72784; 73040; 73120; 92768;
   92864; 93008; 120782; 120792; 120802; 120812; 120822; 123200; 123632;
   125264; 130032].

(** The zero of the run of the digit [c]. *)
Definition decimal_zero (c : Z) : option Z :=
  find (fun z => in_range z (z + 9) c) decimal_zeros.

(** [\d] *)
Definition is_decimal (c : Z) : bool :=
  match decimal_zero c with
  | Some _ => true
  | None => false
  end.

(** The value [int] gives a digit. *)
Definition digit_val (c : Z) : Z :=
  match decimal_zero c with
  | Some z => c - z
  | None => 0
  end.

(** Two characters [a b] with [pa a] and [pb b], read as a two-digit number. *)
Definition two (pa pb : Z -> bool) : matcher Z := fun s =>
  match s with
  | a :: b :: r =>
      if pa a && pb b then [(10 * digit_val a + digit_val b, r)] else []
  | _ => []
  end.

(** One character [a] with [pa a], read as a digit. *)
Definition one (pa : Z -> bool) : matcher Z := fun s =>
  match s with
  | a :: r => if pa a then [(digit_val a, r)] else []
  | _ => []
  end.

Definition alt {A} (ms : list (matcher A)) : matcher A := fun s =>
  flat_map (fun m => m s) ms.

Definition seq {A B} (m1 : matcher A) (m2 : matcher B) : matcher (A * B) :=
  fun s =>
    flat_map (fun ar => map (fun br => ((fst ar, fst br), snd br)) (m2 (snd ar)))
             (m1 s).

Definition char (c : Z) : matcher unit := fun s =>
  match s with
  | a :: r => if a =? c then [(tt, r)] else []
  | _ => []
  end.

(** [%H]: [(?P<H>2[0-3]|[0-1]\d|\d)] *)
Definition re_H : matcher Z :=
  alt [ two (Z.eqb 50) (in_range 48 51);
        two (in_range 48 49) is_decimal;
        one is_decimal ].

(** [%M]: [(?P<M>[0-5]\d|\d)] *)
Definition re_M : matcher Z :=
  alt [ two (in_range 48 53) is_decimal; one is_decimal ].

(** [%I]: [(?P<I>1[0-2]|0[1-9]|[1-9])] *)
Definition re_I : matcher Z :=
  alt [ two (Z.eqb 49) (in_range 48 50);
        two (Z.eqb 48) (in_range 49 57);
        one (in_range 49 57) ].

(** [%p] in the C locale: [(?P<p>am|pm)], compiled with [re.IGNORECASE].
    The value is [true] for pm. *)
Definition re_p : matcher bool := fun s =>
  match s with
  | a :: m :: r =>
      if (upper_char m =? 77) && (upper_char a =? 65) then [(false, r)]
      else if (upper_char m =? 77) && (upper_char a =? 80) then [(true, r)]
      else []
  | _ => []
  end.

(** [re.match] followed by the test that the match reaches the end of the
    text: [None] is [ValueError]. *)
Definition full_match {A} (m : matcher A) (s : str) : option A :=
  match m s with
  | (a, []) :: _ => Some a
  | _ => None
  end.

(** The hour of a 12-hour clock reading: 12am is 0, 12pm is 12. *)
Definition hour12 (i : Z) (pm : bool) : Z :=
  if pm then (if i =? 12 then 12 else i + 12)
  else (if i =? 12 then 0 else i).

(** [datetime.strptime(s, "%H:%M")] as [(dt.hour, dt.minute)] *)
Definition strptime_HM (s : str) : option (Z * Z) :=
  match full_match (seq (seq re_H (char 58)) re_M) s with
  | Some ((h, _), m) => Some (h, m)
  | None => None
  end.

(** [datetime.strptime(s, "%I:%M%p")] *)
Definition strptime_IMp (s : str) : option (Z * Z) :=
  match full_match (seq (seq (seq re_I (char 58)) re_M) re_p) s with
  | Some (((i, _), m), pm) => Some (hour12 i pm, m)
  | None => None
  end.

(** [datetime.strptime(s, "%I%p")] *)
Definition strptime_Ip (s : str) : option (Z * Z) :=
  match full_match (seq re_I re_p) s with
  | Some (i, pm) => Some (hour12 i pm, 0)
  | None => None
  end.

End Strptime.

(** The loop of [parse_due_key] over its formats: the first format that
    parses gives the key. *)
Fixpoint first_format (fmts : list (str -> option (Z * Z))) (due : str)
  : option Z :=
  match fmts with
  | [] => None
  | fmt :: rest =>
      match fmt (upper due) with
      | Some (hour, minute) => Some (hour * 60 + minute)
      | None => first_format rest due
      end
  end.

Definition due_formats : list (str -> option (Z * Z)) :=
  [Strptime.strptime_HM; Strptime.strptime_IMp; Strptime.strptime_Ip].

(** [parse_due_key(due)]: [not due] holds for [None] and for the empty
    string. *)
Definition parse_due_key (due : option str) : Z * str :=
  match due with
  | None => (999999, [])
  | Some [] => (999999, [])
  | Some d =>
      let d := strip d in
      match first_format due_formats d with
      | Some rank => (rank, d)
      | None => (999998, d)
      end
  end.

(* ================================================================== *)
(** * today_tasks.py: tasks in memory *)
(* ================================================================== *)

(** The dictionary [cmd_add] builds, with its keys in insertion order. *)
Record task : Type := mkTask {
  id : Z;
  text : str;
  due : option str;
  done : bool;
  created_at : str
}.

(** [max(xs, default=d)] *)
Definition max_default (xs : list Z) (d : Z) : Z :=
  match xs with
  | [] => d
  | x :: r => fold_left Z.max r x
  end.

Definition next_id (tasks : list task) : Z :=
  max_default (map id tasks) 0 + 1.

(** ** [sorted(xs, key=f)]

    [sorted] computes each key once and sorts stably, comparing keys with
    [<] only.  Stable insertion gives the list every stable sort returns. *)
Section Sorted.
Context {A K : Type} (ltb : K -> K -> bool) (key : A -> K).

Fixpoint insert (x : A) (l : list A) : list A :=
  match l with
  | [] => [x]
  | y :: l' => if ltb (key y) (key x) then y :: insert x l' else x :: l
  end.

Definition sorted (l : list A) : list A := fold_right insert [] l.

(** [key_le x y]: the key of [y] is not below the key of [x]. *)
Definition key_le (x y : A) : Prop := ltb (key y) (key x) = false.

(** [same_key k x]: [k] and the key of [x] are not below one another. *)
Definition same_key (k : K) (x : A) : bool :=
  negb (ltb k (key x)) && negb (ltb (key x) k).
End Sorted.

(** [a] occurs before [b] in [l]. *)
Definition before {A} (a b : A) (l : list A) : Prop :=
  exists l1 l2 l3, l = l1 ++ a :: l2 ++ b :: l3.

(** The key of the display order: the tuple
    [(t["done"],) + parse_due_key(t.get("due"))]. *)
Definition sort_key_t : Type := (bool * (Z * str))%type.

Definition sort_key (t : task) : sort_key_t := (done t, parse_due_key (due t)).

(** [a < b] on tuples [(bool, int, str)]: the first position where the two
    differ decides; [False < True]. *)
Definition tuple_ltb (a b : sort_key_t) : bool :=
  let '(d1, (r1, s1)) := a in
  let '(d2, (r2, s2)) := b in
  if negb (Bool.eqb d1 d2) then negb d1 && d2
  else if negb (r1 =? r2) then r1 <? r2
  else str_ltb s1 s2.

Definition sort_tasks (tasks : list task) : list task :=
  sorted tuple_ltb sort_key tasks.

(** The two parts of the key that come from the due time: the rank, and
    the due text without the white space around it ([] for no due time). *)
Definition rank (t : task) : Z := fst (parse_due_key (due t)).
Definition due_text (t : task) : str := snd (parse_due_key (due t)).

(* ================================================================== *)
(** * The utf-8 codec and text files *)
(* ================================================================== *)

Module Utf8.

Definition bytes : Type := list byte.

Definition b2z (b : byte) : Z := Z.of_N (Byte.to_N b).

Definition z2b (z : Z) : byte :=
  match Byte.of_N (Z.to_N z) with
  | Some b => b
  | None => x00
  end.

(** The bytes of one code point; [None] is [UnicodeEncodeError]
    (a surrogate, or a number that is no code point). *)
Definition encode_char (c : Z) : option bytes :=
  if c <? 0 then None
  else if c <? 128 then Some [z2b c]
  else if c <? 2048 then Some [z2b (192 + c / 64); z2b (128 + c mod 64)]
  else if in_range 55296 57343 c then None
  else if c <? 65536 then
    Some [z2b (224 + c / 4096); z2b (128 + (c / 64) mod 64);
          z2b (128 + c mod 64)]
  else if c <? 1114112 then
    Some [z2b (240 + c / 262144); z2b (128 + (c / 4096) mod 64);
          z2b (128 + (c / 64) mod 64); z2b (128 + c mod 64)]
  else None.

(** [s.encode("utf-8")] *)
Fixpoint encode (s : str) : option bytes :=
  match s with
  | [] => Some []
  | c :: r =>
      match encode_char c, encode r with
      | Some b, Some br => Some (b ++ br)
      | _, _ => None
      end
  end.

(** A continuation byte [10xxxxxx] and its six bits. *)
Definition is_cont (b : byte) : bool := in_range 128 191 (b2z b).
Definition cont (b : byte) : Z := b2z b - 128.

(** [b.decode("utf-8")] with strict errors; [None] is
    [UnicodeDecodeError].  Overlong forms, surrogates and values above
    0x10FFFF are refused through the range of the second byte. *)
Fixpoint decode (b : bytes) : option str :=
  match b with
  | [] => Some []
  | b0 :: r =>
      let x := b2z b0 in
      if x <? 128 then option_map (cons x) (decode r)
      else if in_range 194 223 x then
        match r with
        | b1 :: r1 =>
            if is_cont b1
            then option_map (cons ((x - 192) * 64 + cont b1)) (decode r1)
            else None
        | _ => None
        end
      else if in_range 224 239 x then
        match r with
        | b1 :: b2 :: r2 =>
            if in_range (if x =? 224 then 160 else 128)
                        (if x =? 237 then 159 else 191) (b2z b1)
               && is_cont b2
            then option_map
                   (cons ((x - 224) * 4096 + cont b1 * 64 + cont b2))
                   (decode r2)
            else None
        | _ => None
        end
      else if in_range 240 244 x then
        match r with
        | b1 :: b2 :: b3 :: r3 =>
            if in_range (if x =? 240 then 144 else 128)
                        (if x =? 244 then 143 else 191) (b2z b1)
               && is_cont b2 && is_cont b3
            then option_map
                   (cons ((x - 240) * 262144 + cont b1 * 4096
                          + cont b2 * 64 + cont b3))
                   (decode r3)
            else None
        | _ => None
        end
      else None
  end.

(** Reading a text file opened with [newline=None]: a carriage return,
    alone or followed by a line feed, is read as one line feed. *)
Fixpoint universal_newlines (s : str) : str :=
  match s with
  | [] => []
  | c :: r =>
      if c =? 13 then
        match r with
        | d :: r' => if d =? 10 then 10 :: universal_newlines r'
                     else 10 :: universal_newlines r
        | [] => [10]
        end
      else c :: universal_newlines r
  end.

(** [f.read()] on a file opened with [open(path, "r", encoding="utf-8")] *)
Definition read_text (b : bytes) : option str :=
  option_map universal_newlines (decode b).

(** What [f.write(s)] puts into a file opened with
    [open(path, "w", encoding="utf-8")] on a system whose line separator
    is the line feed. *)
Definition write_text (s : str) : option bytes := encode s.

End Utf8.
Import Utf8.

(* ================================================================== *)
(** * JSON documents, [json.dumps] and [json.loads] *)
(* ================================================================== *)

Module Json.

(** What [json.loads] returns.  A number written with a fraction or an
    exponent, and [NaN], [Infinity], [-Infinity], are Python floats: the
    embedding names a float by its literal and does not round it. *)
Inductive json : Type :=
| JNull
| JBool (b : bool)
| JInt (n : Z)
| JFloat (literal : str)
| JStr (s : str)
| JArr (items : list json)
| JObj (members : list (str * json)).

(** ** Dictionaries in insertion order *)

(** [d[k] = v]: an existing key keeps its place. *)
Fixpoint dict_set {V} (d : list (str * V)) (k : str) (v : V)
  : list (str * V) :=
  match d with
  | [] => [(k, v)]
  | (k', v') :: d' =>
      if str_eqb k' k then (k', v) :: d' else (k', v') :: dict_set d' k v
  end.

(** [dict(pairs)] *)
Definition dict_of_pairs {V} (pairs : list (str * V)) : list (str * V) :=
  fold_left (fun d kv => dict_set d (fst kv) (snd kv)) pairs [].

(** [d.get(k)] *)
Fixpoint dict_get {V} (d : list (str * V)) (k : str) : option V :=
  match d with
  | [] => None
  | (k', v) :: d' => if str_eqb k' k then Some v else dict_get d' k
  end.

(** ** The encoder, with [ensure_ascii=True] *)

Definition hex_digit (n : Z) : Z := if n <? 10 then 48 + n else 87 + n.

(** ['{0:04x}'.format(n)] *)
Definition hex4 (n : Z) : str :=
  [hex_digit (n / 4096); hex_digit ((n / 256) mod 16);
   hex_digit ((n / 16) mod 16); hex_digit (n mod 16)].

(** One character of [py_encode_basestring_ascii]. *)
Definition escape_char (c : Z) : str :=
  if c =? 34 then [92; 34]
  else if c =? 92 then [92; 92]
  else if c =? 10 then [92; 110]
  else if c =? 13 then [92; 114]
  else if c =? 9 then [92; 116]
  else if c =? 8 then [92; 98]
  else if c =? 12 then [92; 102]
  else if in_range 32 126 c then [c]
  else if c <? 65536 then 92 :: 117 :: hex4 c
  else
    92 :: 117 :: hex4 (55296 + (c - 65536) / 1024)
    ++ 92 :: 117 :: hex4 (56320 + (c - 65536) mod 1024).

Definition encode_string (s : str) : str :=
  34 :: flat_map escape_char s ++ [34].

(** [json.dumps(v)]: one line, separators [", "] and [": "]. *)
Fixpoint dumps (v : json) : str :=
  match v with
  | JNull => lit "null"
  | JBool true => lit "true"
  | JBool false => lit "false"
  | JInt n => repr_int n
  | JFloat l => l
  | JStr s => encode_string s
  | JArr items => 91 :: join (lit ", ") (map dumps items) ++ [93]
  | JObj members =>
      123 :: join (lit ", ")
               (map (fun '(k, x) => encode_string k ++ lit ": " ++ dumps x)
                    members)
      ++ [125]
  end.

(** ['\n' + indent * level] for [indent=2] *)
Definition newline_indent (level : nat) : str :=
  10 :: repeat 32 (2 * level).

(** [json.dumps(v, indent=2)] at nesting depth [level]: separators [","]
    and [": "], one item per line. *)
Fixpoint dumps_indent (level : nat) (v : json) : str :=
  match v with
  | JNull => lit "null"
  | JBool true => lit "true"
  | JBool false => lit "false"
  | JInt n => repr_int n
  | JFloat l => l
  | JStr s => encode_string s
  | JArr [] => lit "[]"
  | JArr items =>
      91 :: newline_indent (S level)
      ++ join (44 :: newline_indent (S level))
              (map (dumps_indent (S level)) items)
      ++ newline_indent level ++ [93]
  | JObj [] => lit "{}"
  | JObj members =>
      123 :: newline_indent (S level)
      ++ join (44 :: newline_indent (S level))
              (map (fun '(k, x) =>
                      encode_string k ++ lit ": " ++ dumps_indent (S level) x)
                   members)
      ++ newline_indent level ++ [125]
  end.

(** The two layouts of the encoder are one printer, given what it writes
    after an opening bracket, after a comma and before a closing bracket
    at each depth. *)
Section Layout.
Variables opening separator closing : nat -> str.

Definition member_text (k : str) (x : str) : str :=
  encode_string k ++ lit ": " ++ x.

Fixpoint print (level : nat) (v : json) : str :=
  match v with
  | JNull => lit "null"
  | JBool true => lit "true"
  | JBool false => lit "false"
  | JInt n => repr_int n
  | JFloat l => l
  | JStr s => encode_string s
  | JArr [] => lit "[]"
  | JArr items =>
      91 :: opening level
      ++ join (44 :: separator level) (map (print (S level)) items)
      ++ closing level ++ [93]
  | JObj [] => lit "{}"
  | JObj members =>
      123 :: opening level
      ++ join (44 :: separator level)
              (map (fun '(k, x) => member_text k (print (S level) x)) members)
      ++ closing level ++ [125]
  end.
End Layout.

(** Induction on a document, with the property known of every item of an
    array and every value of an object. *)
Section JsonInduction.
Variable P : json -> Prop.
Hypothesis Hnull : P JNull.
Hypothesis Hbool : forall b, P (JBool b).
Hypothesis Hint : forall n, P (JInt n).
Hypothesis Hfloat : forall l, P (JFloat l).
Hypothesis Hstr : forall s, P (JStr s).
Hypothesis Harr : forall items, Forall P items -> P (JArr items).
Hypothesis Hobj :
  forall members, Forall (fun kv => P (snd kv)) members -> P (JObj members).

Fixpoint json_induction (v : json) : P v :=
  match v with
  | JNull => Hnull
  | JBool b => Hbool b
  | JInt n => Hint n
  | JFloat l => Hfloat l
  | JStr s => Hstr s
  | JArr items =>
      Harr items
        ((fix go (l : list json) : Forall P l :=
            match l with
            | [] => Forall_nil P
            | x :: r => Forall_cons x (json_induction x) (go r)
            end) items)
  | JObj members =>
      Hobj members
        ((fix go (l : list (str * json))
            : Forall (fun kv => P (snd kv)) l :=
            match l with
            | [] => Forall_nil _
            | kv :: r =>
                Forall_cons kv
                  (match kv as kv' return P (snd kv') with
                   | (_, x) => json_induction x
                   end)
                  (go r)
            end) members)
  end.
End JsonInduction.

(** ** The decoder *)

(** The result of a scanner that recurses on a budget: [Invalid] is
    [JSONDecodeError], [Fuel] an exhausted budget. *)
Inductive outcome (A : Type) : Type :=
| Done (a : A)
| Invalid
| Fuel.
Arguments Done {A} a.
Arguments Invalid {A}.
Arguments Fuel {A}.

Definition is_ws (c : Z) : bool :=
  (c =? 32) || (c =? 9) || (c =? 10) || (c =? 13).

Fixpoint skip_ws (s : str) : str :=
  match s with
  | c :: r => if is_ws c then skip_ws r else s
  | [] => []
  end.

(** [s[0:len(p)] == p], with what follows the prefix. *)
Fixpoint starts_with (p s : str) : option str :=
  match p, s with
  | [], _ => Some s
  | a :: p', b :: s' => if a =? b then starts_with p' s' else None
  | _ :: _, [] => None
  end.

Definition hex_val (c : Z) : option Z :=
  if in_range 48 57 c then Some (c - 48)
  else if in_range 97 102 c then Some (c - 87)
  else if in_range 65 70 c then Some (c - 55)
  else None.

(** Four hexadecimal digits after [\u]. *)
Definition decode_hex4 (a b c d : Z) : option Z :=
  match hex_val a, hex_val b, hex_val c, hex_val d with
  | Some x, Some y, Some z, Some w => Some (((x * 16 + y) * 16 + z) * 16 + w)
  | _, _, _, _ => None
  end.

Definition unescape (e : Z) : option Z :=
  if e =? 34 then Some 34
  else if e =? 92 then Some 92
  else if e =? 47 then Some 47
  else if e =? 98 then Some 8
  else if e =? 102 then Some 12
  else if e =? 110 then Some 10
  else if e =? 114 then Some 13
  else if e =? 116 then Some 9
  else None.

Definition is_high (c : Z) : bool := in_range 55296 56319 c.
Definition is_low (c : Z) : bool := in_range 56320 57343 c.

(** What one round of the loop of [scanstring] finds: the closing quote,
    one character of the text (written as it is or as an escape), or an
    error. *)
Inductive chunk : Type :=
| Close (rest : str)
| Char (c : Z) (rest : str)
| Bad.

(** One round of [scanstring] with [strict=True].  After [\u] and four
    hexadecimal digits that give a high surrogate, a following [\u] escape
    is read too: when it gives a low surrogate the two are joined, and
    otherwise it is left for the next round. *)
Definition scan_char (s : str) : chunk :=
  match s with
  | [] => Bad
  | c :: r =>
      if c =? 34 then Close r
      else if c =? 92 then
        match r with
        | [] => Bad
        | e :: r1 =>
            if e =? 117 then
              match r1 with
              | h1 :: h2 :: h3 :: h4 :: r2 =>
                  match decode_hex4 h1 h2 h3 h4 with
                  | None => Bad
                  | Some uni =>
                      if is_high uni then
                        match r2 with
                        | b :: u :: r3 =>
                            if (b =? 92) && (u =? 117) then
                              match r3 with
                              | l1 :: l2 :: l3 :: l4 :: r4 =>
                                  match decode_hex4 l1 l2 l3 l4 with
                                  | None => Bad
                                  | Some uni2 =>
                                      if is_low uni2
                                      then Char (65536 + (uni - 55296) * 1024
                                                 + (uni2 - 56320)) r4
                                      else Char uni r2
                                  end
                              | _ => Bad
                              end
                            else Char uni r2
                        | _ => Char uni r2
                        end
                      else Char uni r2
                  end
              | _ => Bad
              end
            else
              match unescape e with
              | Some ch => Char ch r1
              | None => Bad
              end
        end
      else if c <? 32 then Bad
      else Char c r
  end.

(** The loop of [scanstring], at most [fuel] rounds. *)
Fixpoint scan_chars (fuel : nat) (s : str) : option (str * str) :=
  match fuel with
  | O => None
  | S n =>
      match scan_char s with
      | Close r => Some ([], r)
      | Char c r =>
          match scan_chars n r with
          | Some (x, rest) => Some (c :: x, rest)
          | None => None
          end
      | Bad => None
      end
  end.

(** [scanstring(s, end, strict=True)], from the character after the
    opening quote: the decoded text and what follows the closing quote.
    [None] is [JSONDecodeError]. Each round consumes a character, so the
    loop ends within as many rounds as there are characters. *)
Definition scanstring (s : str) : option (str * str) :=
  scan_chars (length s) s.

Fixpoint take_digits (s : str) : str * str :=
  match s with
  | c :: r =>
      if is_digit c
      then let '(d, r') := take_digits r in (c :: d, r')
      else ([], s)
  | [] => ([], [])
  end.

(** [int(digits)] *)
Definition int_of_digits (ds : str) : Z :=
  fold_left (fun acc c => 10 * acc + (c - 48)) ds 0.

(** The integer part: [0], or a digit from 1 to 9 and then any digits. *)
Definition scan_int_part (s : str) : option (str * str) :=
  match s with
  | c :: r =>
      if c =? 48 then Some ([48], r)
      else if in_range 49 57 c
      then let '(d, r') := take_digits r in Some (c :: d, r')
      else None
  | [] => None
  end.

(** The optional fraction: a point and one digit or more. *)
Definition scan_frac (s : str) : str * str :=
  match s with
  | c :: r =>
      if c =? 46 then
        match take_digits r with
        | ([], _) => ([], s)
        | (d, r') => (46 :: d, r')
        end
      else ([], s)
  | [] => ([], s)
  end.

(** The optional exponent: [e] or [E], an optional sign, one digit or
    more. *)
Definition scan_exp (s : str) : str * str :=
  match s with
  | c :: r =>
      if (c =? 101) || (c =? 69) then
        let '(sign, r0) :=
          match r with
          | g :: r' => if (g =? 45) || (g =? 43) then ([g], r') else ([], r)
          | [] => ([], r)
          end in
        match take_digits r0 with
        | ([], _) => ([], s)
        | (d, r') => (c :: sign ++ d, r')
        end
      else ([], s)
  | [] => ([], s)
  end.

(** [NUMBER_RE.match] and the conversion of what it matched. *)
Definition scan_number (s : str) : option (json * str) :=
  let '(neg, s1) :=
    match s with
    | c :: r => if c =? 45 then (true, r) else (false, s)
    | [] => (false, s)
    end in
  match scan_int_part s1 with
  | None => None
  | Some (ip, r1) =>
      let '(fr, r2) := scan_frac r1 in
      let '(ex, r3) := scan_exp r2 in
      match fr, ex with
      | [], [] =>
          Some (JInt (if neg then - int_of_digits ip else int_of_digits ip),
                r3)
      | _, _ =>
          Some (JFloat ((if neg then [45] else []) ++ ip ++ fr ++ ex), r3)
      end
  end.

(** The constants and numbers of [scan_once]. *)
Definition scan_atom (s : str) : option (json * str) :=
  match starts_with (lit "null") s with
  | Some r => Some (JNull, r)
  | None =>
  match starts_with (lit "true") s with
  | Some r => Some (JBool true, r)
  | None =>
  match starts_with (lit "false") s with
  | Some r => Some (JBool false, r)
  | None =>
  match scan_number s with
  | Some x => Some x
  | None =>
  match starts_with (lit "NaN") s with
  | Some r => Some (JFloat (lit "NaN"), r)
  | None =>
  match starts_with (lit "Infinity") s with
  | Some r => Some (JFloat (lit "Infinity"), r)
  | None =>
  match starts_with (lit "-Infinity") s with
  | Some r => Some (JFloat (lit "-Infinity"), r)
  | None => None
  end end end end end end end.

(** One call of [scan_once]: a string, an object, an array or an atom.
    [items] and [members] scan what follows the opening bracket of a
    non-empty array and the opening quote of the first key of an object. *)
Definition scan_value
  (items : str -> outcome (list json * str))
  (members : str -> outcome (list (str * json) * str))
  (s : str) : outcome (json * str) :=
  match s with
  | [] => Invalid
  | c :: r =>
      if c =? 34 then
        match scanstring r with
        | Some (x, r') => Done (JStr x, r')
        | None => Invalid
        end
      else if c =? 123 then
        match skip_ws r with
        | q :: r1 =>
            if q =? 125 then Done (JObj [], r1)
            else if q =? 34 then
              match members r1 with
              | Done (ms, r2) => Done (JObj (dict_of_pairs ms), r2)
              | Invalid => Invalid
              | Fuel => Fuel
              end
            else Invalid
        | [] => Invalid
        end
      else if c =? 91 then
        match skip_ws r with
        | q :: r1 =>
            if q =? 93 then Done (JArr [], r1)
            else
              match items (q :: r1) with
              | Done (vs, r2) => Done (JArr vs, r2)
              | Invalid => Invalid
              | Fuel => Fuel
              end
        | [] => Invalid
        end
      else
        match scan_atom s with
        | Some x => Done x
        | None => Invalid
        end
  end.

(** One round of the loop of [JSONArray]: a value, then the closing
    bracket or a comma and the rest of the items. *)
Definition scan_items
  (value : str -> outcome (json * str))
  (more : str -> outcome (list json * str))
  (s : str) : outcome (list json * str) :=
  match value s with
  | Done (v, r) =>
      match skip_ws r with
      | c :: r1 =>
          if c =? 93 then Done ([v], r1)
          else if c =? 44 then
            match more (skip_ws r1) with
            | Done (vs, r2) => Done (v :: vs, r2)
            | Invalid => Invalid
            | Fuel => Fuel
            end
          else Invalid
      | [] => Invalid
      end
  | Invalid => Invalid
  | Fuel => Fuel
  end.

(** One round of the loop of [JSONObject], from the character after the
    opening quote of a key: the key, a colon, a value, then the closing
    brace or a comma and the opening quote of the next key. *)
Definition scan_members
  (value : str -> outcome (json * str))
  (more : str -> outcome (list (str * json) * str))
  (s : str) : outcome (list (str * json) * str) :=
  match scanstring s with
  | None => Invalid
  | Some (k, r) =>
      match skip_ws r with
      | c :: r1 =>
          if c =? 58 then
            match value (skip_ws r1) with
            | Done (v, r2) =>
                match skip_ws r2 with
                | c2 :: r3 =>
                    if c2 =? 125 then Done ([(k, v)], r3)
                    else if c2 =? 44 then
                      match skip_ws r3 with
                      | q :: r4 =>
                          if q =? 34 then
                            match more r4 with
                            | Done (ms, r5) => Done ((k, v) :: ms, r5)
                            | Invalid => Invalid
                            | Fuel => Fuel
                            end
                          else Invalid
                      | [] => Invalid
                      end
                    else Invalid
                | [] => Invalid
                end
            | Invalid => Invalid
            | Fuel => Fuel
            end
          else Invalid
      | [] => Invalid
      end
  end.

(** [scan_once] and the two loops, each call on a budget one smaller. *)
Fixpoint scan_once (fuel : nat) (s : str) : outcome (json * str) :=
  match fuel with
  | O => Fuel
  | S n => scan_value (parse_items n) (parse_members n) s
  end

with parse_items (fuel : nat) (s : str) : outcome (list json * str) :=
  match fuel with
  | O => Fuel
  | S n => scan_items (scan_once n) (parse_items n) s
  end

with parse_members (fuel : nat) (s : str)
  : outcome (list (str * json) * str) :=
  match fuel with
  | O => Fuel
  | S n => scan_members (scan_once n) (parse_members n) s
  end.

(** The budget [decode] gives the scanner: more than twice the length of
    the text, which the scanner never exhausts. *)
Definition fuel_for (s : str) : nat := S (2 * length s).

(** [JSONDecoder.decode]: one value between optional white space. *)
Definition decode (s : str) : outcome json :=
  let s0 := skip_ws s in
  match scan_once (fuel_for s0) s0 with
  | Done (v, r) =>
      match skip_ws r with
      | [] => Done v
      | _ :: _ => Invalid
      end
  | Invalid => Invalid
  | Fuel => Fuel
  end.

(** [json.loads(s)] for a [str]; [None] is [JSONDecodeError]. *)
Definition loads (s : str) : option json :=
  match decode s with
  | Done v => Some v
  | _ => None
  end.

(** ** Documents that [json.loads] returns

    The code points of a text are in range, and no high surrogate is
    followed by a low surrogate ([scanstring] joins such a pair). *)
Fixpoint str_ok (s : str) : bool :=
  match s with
  | [] => true
  | c :: r =>
      in_range 0 1114111 c
      && negb (is_high c && match r with d :: _ => is_low d | [] => false end)
      && str_ok r
  end.

(** What follows a number does not continue it. *)
Definition ends_number (rest : str) : bool :=
  match rest with
  | [] => true
  | c :: _ => negb (is_digit c || (c =? 46) || (c =? 101) || (c =? 69))
  end.

(** What follows a run of digits is not a digit. *)
Definition not_digit_next (t : str) : bool :=
  match t with
  | [] => true
  | c :: _ => negb (is_digit c)
  end.

(** The characters [json.dumps] writes: printable ASCII and the line
    feed. *)
Definition printable (c : Z) : bool := (c =? 10) || in_range 32 126 c.

(** The literal of a float is one the scanner reads back as it is. *)
Definition float_ok (l : str) : Prop :=
  forallb printable l = true
  /\ forall rest, ends_number rest = true ->
                 scan_atom (l ++ rest) = Some (JFloat l, rest).

Inductive json_ok : json -> Prop :=
| ok_null : json_ok JNull
| ok_bool b : json_ok (JBool b)
| ok_int n : json_ok (JInt n)
| ok_float l : float_ok l -> json_ok (JFloat l)
| ok_str s : str_ok s = true -> json_ok (JStr s)
| ok_arr items : Forall json_ok items -> json_ok (JArr items)
| ok_obj members :
    NoDup (map fst members) ->
    Forall (fun kv => str_ok (fst kv) = true /\ json_ok (snd kv)) members ->
    json_ok (JObj members).

(** A text as the utf-8 codec decodes it: code points in range, no
    surrogate. *)
Definition scalar (c : Z) : bool :=
  in_range 0 1114111 c && negb (in_range 55296 57343 c).

(** [g] agrees with [f] wherever [f] has enough budget. *)
Definition refines {A} (f g : str -> outcome A) : Prop :=
  forall s o, f s = o -> o <> Fuel -> g s = o.

(** [f] consumes at least one character. *)
Definition shrinks {A} (f : str -> outcome (A * str)) : Prop :=
  forall s v r, f s = Done (v, r) -> (length r < length s)%nat.

(** [v], printed in a layout at any depth and followed by anything that
    does not continue a number, is scanned back as [v], with enough
    budget. *)
Definition reads_back (opening separator closing : nat -> str) (v : json)
  : Prop :=
  forall level rest,
    ends_number rest = true ->
    exists n0, forall n, (n0 <= n)%nat ->
      scan_once n (print opening separator closing level v ++ rest)
      = Done (v, rest).

(** On text without surrogates, what [f] finds satisfies [Q] and what
    follows it is text without surrogates. *)
Definition sound {A} (Q : A -> Prop) (f : str -> outcome (A * str)) : Prop :=
  forall s a r,
    forallb scalar s = true -> f s = Done (a, r) ->
    Q a /\ forallb scalar r = true.

Definition member_ok (kv : str * json) : Prop :=
  str_ok (fst kv) = true /\ json_ok (snd kv).

(** What follows a [\u] escape of a high surrogate is not the escape of
    a low surrogate. *)
Definition not_low_escape (t : str) : Prop :=
  match t with
  | b :: u :: r3 =>
      (b =? 92) && (u =? 117) = true ->
      exists l1 l2 l3 l4 r4 uni2,
        r3 = l1 :: l2 :: l3 :: l4 :: r4
        /\ decode_hex4 l1 l2 l3 l4 = Some uni2
        /\ is_low uni2 = false
  | _ => True
  end.

End Json.
Import Json.

(* ================================================================== *)
(** * today_tasks.py: the store file and the commands *)
(* ================================================================== *)

(** The store file [STORE_FILE]: [None] while it does not exist. *)
Definition file : Type := option bytes.

Definition load_tasks (f : file) : result json :=
  match f with
  | None => Ok (JArr [])
  | Some b =>
      match read_text b with
      | None => Raise UnicodeDecodeError
      | Some s =>
          match loads s with
          | Some v => Ok v
          | None => Ok (JArr [])
          end
      end
  end.

(** [save_tasks(tasks)]: the new content of the file.  Opening the file
    for writing empties it, so a failed write would leave it empty;
    [write_dumps_indent] shows that the write never fails. *)
Definition save_tasks (tasks : json) : result unit * file :=
  match write_text (dumps_indent 0 tasks) with
  | Some b => (Ok tt, Some b)
  | None => (Raise UnicodeEncodeError, Some [])
  end.

(** ** Task dictionaries as JSON *)

Definition json_of_due (d : option str) : json :=
  match d with
  | Some s => JStr s
  | None => JNull
  end.

Definition json_of_task (t : task) : json :=
  JObj [ (lit "id", JInt (id t));
         (lit "text", JStr (text t));
         (lit "due", json_of_due (due t));
         (lit "done", JBool (done t));
         (lit "created_at", JStr (created_at t)) ].

Definition json_of_tasks (tasks : list task) : json :=
  JArr (map json_of_task tasks).

Definition due_of_json (v : json) : option (option str) :=
  match v with
  | JNull => Some None
  | JStr s => Some (Some s)
  | _ => None
  end.

Definition task_of_json (v : json) : option task :=
  match v with
  | JObj [ (k1, JInt i); (k2, JStr x); (k3, d); (k4, JBool b);
           (k5, JStr c) ] =>
      if str_eqb k1 (lit "id") && str_eqb k2 (lit "text")
         && str_eqb k3 (lit "due") && str_eqb k4 (lit "done")
         && str_eqb k5 (lit "created_at")
      then option_map (fun d' => mkTask i x d' b c) (due_of_json d)
      else None
  | _ => None
  end.

Fixpoint all_tasks (items : list json) : option (list task) :=
  match items with
  | [] => Some []
  | v :: r =>
      match task_of_json v, all_tasks r with
      | Some t, Some ts => Some (t :: ts)
      | _, _ => None
      end
  end.

Definition tasks_of_json (v : json) : option (list task) :=
  match v with
  | JArr items => all_tasks items
  | _ => None
  end.

(** The texts of a task are Unicode texts as [json.loads] returns them. *)
Definition task_ok (t : task) : bool :=
  str_ok (text t)
  && match due t with Some d => str_ok d | None => true end
  && str_ok (created_at t).

(** [load_tasks()] seen at its annotated type [List[Dict[str, Any]]] of
    task dictionaries. *)
Definition load_store (f : file) : result (list task) :=
  match load_tasks f with
  | Raise e => Raise e
  | Ok v =>
      match tasks_of_json v with
      | Some tasks => Ok tasks
      | None => Raise OutsideTaskType
      end
  end.

(** The store file as [save_tasks] writes it for a collection. *)
Definition stored (tasks : list task) : file :=
  Some (map z2b (dumps_indent 0 (json_of_tasks tasks))).

(** ** The commands

    A command prints lines, or an exception leaves it. *)
Inductive ran : Type :=
| Printed (lines : list str)
| Raised (e : exn).

(** [save_tasks(tasks)] followed by the lines a command prints after it. *)
Definition save_then (tasks : list task) (lines : list str) : ran * file :=
  match save_tasks (json_of_tasks tasks) with
  | (Ok _, f') => (Printed lines, f')
  | (Raise e, f') => (Raised e, f')
  end.

(** [args.due.strip() if args.due else None] *)
Definition due_arg (d : option str) : option str :=
  match d with
  | None => None
  | Some [] => None
  | Some s => Some (strip s)
  end.

(** [cmd_add]; [now] is [datetime.now().isoformat(timespec="seconds")]. *)
Definition cmd_add (arg_text : str) (arg_due : option str) (now : str)
  (f : file) : ran * file :=
  match load_store f with
  | Raise e => (Raised e, f)
  | Ok tasks =>
      let t := {| id := next_id tasks;
                  text := strip arg_text;
                  due := due_arg arg_due;
                  done := false;
                  created_at := now |} in
      save_then (tasks ++ [t])
        [lit "Added #" ++ repr_int (id t) ++ lit ": " ++ text t]
  end.

(** A store of two tasks, as [cmd_add] writes it, and its tasks. *)
Definition two_tasks : file :=
  snd (cmd_add (lit "mail") None (lit "2026-01-01T10:00:01")
         (snd (cmd_add (lit "call") (Some (lit "9:00"))
                 (lit "2026-01-01T10:00:00") None))).

Definition call_and_mail : list task :=
  [ mkTask 1 (lit "call") (Some (lit "9:00")) false
      (lit "2026-01-01T10:00:00");
    mkTask 2 (lit "mail") None false (lit "2026-01-01T10:00:01") ].

(** [t.get("due")] is true when the due string is there and not empty. *)
Definition due_suffix (d : option str) : str :=
  match d with
  | None => []
  | Some [] => []
  | Some s => lit " (due " ++ s ++ lit ")"
  end.

Definition format_task_line (t : task) : str :=
  lit "[" ++ (if done t then lit "x" else lit " ") ++ lit "] #"
  ++ repr_int (id t) ++ lit " " ++ text t ++ due_suffix (due t).

Definition cmd_list (f : file) : ran * file :=
  match load_store f with
  | Raise e => (Raised e, f)
  | Ok [] => (Printed [lit "No tasks yet."], f)
  | Ok tasks => (Printed (map format_task_line (sort_tasks tasks)), f)
  end.

Definition set_done (t : task) (value : bool) : task :=
  {| id := id t; text := text t; due := due t; done := value;
     created_at := created_at t |}.

(** The loop of [cmd_done] and [cmd_undone]: the first task with the id
    gets the flag; the result is the updated list and that task. *)
Fixpoint mark (tasks : list task) (i : Z) (value : bool)
  : option (list task * task) :=
  match tasks with
  | [] => None
  | t :: r =>
      if id t =? i then Some (set_done t value :: r, set_done t value)
      else
        match mark r i value with
        | Some (r', u) => Some (t :: r', u)
        | None => None
        end
  end.

Definition not_found (i : Z) : str :=
  lit "Task #" ++ repr_int i ++ lit " not found.".

Definition cmd_mark (value : bool) (label : str) (arg_id : Z) (f : file)
  : ran * file :=
  match load_store f with
  | Raise e => (Raised e, f)
  | Ok tasks =>
      match mark tasks arg_id value with
      | Some (tasks', t) =>
          save_then tasks' [label ++ repr_int (id t) ++ lit " " ++ text t]
      | None => (Printed [not_found arg_id], f)
      end
  end.

Definition cmd_done : Z -> file -> ran * file :=
  cmd_mark true (lit "Marked done: #").

Definition cmd_undone : Z -> file -> ran * file :=
  cmd_mark false (lit "Marked not done: #").

Definition cmd_remove (arg_id : Z) (f : file) : ran * file :=
  match load_store f with
  | Raise e => (Raised e, f)
  | Ok tasks =>
      let filtered := filter (fun t => negb (id t =? arg_id)) tasks in
      if (length filtered =? length tasks)%nat
      then (Printed [not_found arg_id], f)
      else save_then filtered
             [lit "Removed task #" ++ repr_int arg_id ++ lit "."]
  end.

(* ================================================================== *)
(** * today_tasks.py: the terminal UI ([cmd_ui]) *)
(* ================================================================== *)

(** ** [TaskEditScreen]

    [on_button_pressed] on the button pressed and the values of the two
    inputs: the screen stays open, or is dismissed with a result. *)
Inductive button : Type := SaveButton | CancelButton.

Inductive pressed : Type :=
| Stay
| Dismiss (value : option (str * option str)).

Definition on_button_pressed (b : button) (text_value due_value : str)
  : pressed :=
  match b with
  | SaveButton =>
      let text := strip text_value in
      let due := strip due_value in
      match text with
      | [] => Stay
      | _ => Dismiss (Some (text, match due with [] => None | _ => Some due end))
      end
  | CancelButton => Dismiss None
  end.

(** The values the edit screen opens with for a task:
    [text=task["text"], due=task.get("due") or ""]. *)
Definition edit_values (t : task) : str * str :=
  (text t, match due t with Some d => d | None => [] end).

(** ** [TasksApp]

    An item of the list view: the line it shows and the [task_id] set on
    it. *)
Record item : Type := mkItem { label : str; task_id : Z }.

(** The state the actions work on: [self.tasks], the store file, the items
    that [refresh_list] appended to the list view, and the index it gave
    the list view ([None] when it set none). *)
Record ui : Type := mkUi {
  ui_tasks : list task;
  ui_file : file;
  ui_items : list item;
  ui_index : option nat
}.

(** The position of the first item with the [task_id]: the loop of
    [refresh_list] over [enumerate(self.list_view.children)]. *)
Fixpoint first_index (i : Z) (its : list item) : option nat :=
  match its with
  | [] => None
  | it :: r =>
      if task_id it =? i then Some O else option_map S (first_index i r)
  end.

(** [refresh_list(selected_id)].  The call [self.list_view.clear()] is not
    awaited, and it is the library that says when the items it removes
    stop being children of the list view: [pending] are the old items that
    still are children when the loop over [self.list_view.children] runs
    (none of them when the removal is immediate, all of them when it waits
    for the event loop).  The items appended come after them.  The result
    is the items appended and the index set. *)
Definition refresh_list (pending : list item) (tasks : list task)
  (selected_id : option Z) : list item * option nat :=
  let its :=
    map (fun t => mkItem (format_task_line t) (id t)) (sort_tasks tasks) in
  (its, match selected_id with
        | Some i => first_index i (pending ++ its)
        | None => None
        end).

(** [get_selected_task]: [highlighted] is the [task_id] of
    [list_view.highlighted_child], [None] when there is no such child; the
    result is the first task of [self.tasks] with this id. *)
Definition get_selected_task (highlighted : option Z) (tasks : list task)
  : option task :=
  match highlighted with
  | None => None
  | Some i => find (fun t => id t =? i) tasks
  end.

(** An assignment to a key of the dictionary [get_selected_task] returned:
    this dictionary is the first one of [self.tasks] with its id, and the
    list holds it. *)
Fixpoint update_first (i : Z) (g : task -> task) (tasks : list task)
  : list task :=
  match tasks with
  | [] => []
  | t :: r => if id t =? i then g t :: r else t :: update_first i g r
  end.

(** What the user does, one event for each action that reaches the tasks:
    the key bindings of [TasksApp] with the item highlighted at that time
    and, for the two actions that open the screen, what the screen was
    dismissed with. *)
Inductive ui_event : Type :=
| Toggle (highlighted : option Z)
| Delete (highlighted : option Z)
| Add (dismissed : option (str * option str)) (now : str)
| Edit (highlighted : option Z) (dismissed : option (str * option str)).

Definition set_text_due (text : str) (due : option str) (t : task) : task :=
  {| id := id t; text := text; due := due; done := done t;
     created_at := created_at t |}.

Section ListView.
(** The part of the library in [refresh_list]: of the items the list view
    shows, those that are still its children after the call of [clear]
    that is not awaited. *)
Variable lingering : list item -> list item.

(** [save_tasks(self.tasks)] followed by [refresh_list(selected_id)], on
    the new value of [self.tasks]. *)
Definition save_and_refresh (tasks : list task) (selected_id : option Z)
  (st : ui) : result unit * ui :=
  match save_tasks (json_of_tasks tasks) with
  | (Ok _, f') =>
      (Ok tt,
       mkUi tasks f'
         (fst (refresh_list (lingering (ui_items st)) tasks selected_id))
         (snd (refresh_list (lingering (ui_items st)) tasks selected_id)))
  | (Raise e, f') => (Raise e, mkUi tasks f' (ui_items st) (ui_index st))
  end.

(** [on_mount]: the list view is new and has no item. *)
Definition on_mount (f : file) : result ui :=
  match load_store f with
  | Raise e => Raise e
  | Ok tasks =>
      Ok (mkUi tasks f (fst (refresh_list (lingering []) tasks None))
            (snd (refresh_list (lingering []) tasks None)))
  end.

Definition action_toggle_task (highlighted : option Z) (st : ui)
  : result unit * ui :=
  match get_selected_task highlighted (ui_tasks st) with
  | None => (Ok tt, st)
  | Some t =>
      save_and_refresh
        (update_first (id t) (fun u => set_done u (negb (done u)))
           (ui_tasks st))
        (Some (id t)) st
  end.

Definition action_delete_task (highlighted : option Z) (st : ui)
  : result unit * ui :=
  match get_selected_task highlighted (ui_tasks st) with
  | None => (Ok tt, st)
  | Some t =>
      save_and_refresh
        (filter (fun u => negb (id u =? id t)) (ui_tasks st)) None st
  end.

(** [action_add_task]: the callback, on what the screen was dismissed
    with. *)
Definition action_add_task (dismissed : option (str * option str))
  (now : str) (st : ui) : result unit * ui :=
  match dismissed with
  | None => (Ok tt, st)
  | Some (text, due) =>
      let t := mkTask (next_id (ui_tasks st)) text due false now in
      save_and_refresh (ui_tasks st ++ [t]) (Some (id t)) st
  end.

(** [action_edit_task] with its callback, run on the state the action
    found. *)
Definition action_edit_task (highlighted : option Z)
  (dismissed : option (str * option str)) (st : ui) : result unit * ui :=
  match get_selected_task highlighted (ui_tasks st) with
  | None => (Ok tt, st)
  | Some t =>
      match dismissed with
      | None => (Ok tt, st)
      | Some (text, due) =>
          save_and_refresh
            (update_first (id t) (set_text_due text due) (ui_tasks st))
            (Some (id t)) st
      end
  end.

(** ** A session of the UI *)

Definition ui_step (e : ui_event) (st : ui) : result unit * ui :=
  match e with
  | Toggle h => action_toggle_task h st
  | Delete h => action_delete_task h st
  | Add d now => action_add_task d now st
  | Edit h d => action_edit_task h d st
  end.

(** The events in order; an exception that leaves an action ends the
    session. *)
Fixpoint ui_run (es : list ui_event) (st : ui) : result unit * ui :=
  match es with
  | [] => (Ok tt, st)
  | e :: r =>
      match ui_step e st with
      | (Ok _, st') => ui_run r st'
      | (Raise x, st') => (Raise x, st')
      end
  end.

End ListView.

(** The texts of an event are Unicode texts without surrogates. *)
Definition dismissed_ok (d : option (str * option str)) : Prop :=
  match d with
  | None => True
  | Some (text, due) =>
      forallb scalar text = true
      /\ match due with
         | Some s => forallb scalar s = true
         | None => True
         end
  end.

Definition ui_event_ok (e : ui_event) : Prop :=
  match e with
  | Toggle _ | Delete _ => True
  | Add d now => dismissed_ok d /\ forallb scalar now = true
  | Edit _ d => dismissed_ok d
  end.

(* ================================================================== *)
(** * workflow_server.py *)
(* ================================================================== *)

(** What a handler writes to the connection: a response it builds itself,
    or the error page of [send_error(code, message)]. *)
Inductive response : Type :=
| Reply (status : Z) (headers : list (str * str)) (body : bytes)
| ErrorPage (status : Z) (message : str).

(** A handler answers, or an exception leaves it and nothing is sent. *)
Inductive handled : Type :=
| Sent (r : response)
| Crashed (e : exn).

Definition _send_json (payload : json) : handled :=
  match encode (dumps payload) with
  | Some data =>
      Sent (Reply 200
              [ (lit "Content-Type", lit "application/json; charset=utf-8");
                (lit "Content-Length", repr_int (Z.of_nat (length data))) ]
              data)
  | None => Crashed UnicodeEncodeError
  end.

(** [_handle_get] on the content of [DATA_FILE]. *)
Definition _handle_get (f : file) : handled :=
  match f with
  | None => Sent (ErrorPage 404 (lit "No workflow.json yet"))
  | Some b =>
      match read_text b with
      | None => Crashed UnicodeDecodeError
      | Some s =>
          match loads s with
          | None => Sent (ErrorPage 500 (lit "Failed to read workflow.json"))
          | Some payload => _send_json payload
          end
      end
  end.

(** [payload.get(key, [])] *)
Definition get_or_empty (d : list (str * json)) (key : str) : json :=
  match dict_get d key with
  | Some v => v
  | None => JArr []
  end.

(** [isinstance(v, list)] *)
Definition is_list (v : json) : bool :=
  match v with
  | JArr _ => true
  | _ => false
  end.

(** [_handle_post] on the [Content-Length] bytes of the request body and
    the content of [DATA_FILE]. *)
Definition _handle_post (raw : bytes) (f : file) : handled * file :=
  match Utf8.decode raw with
  | None => (Crashed UnicodeDecodeError, f)
  | Some s =>
      match loads s with
      | None => (Sent (ErrorPage 400 (lit "Invalid JSON")), f)
      | Some (JObj d) =>
          let tasks := get_or_empty d (lit "tasks") in
          let edges := get_or_empty d (lit "edges") in
          if negb (is_list tasks) || negb (is_list edges)
          then (Sent (ErrorPage 400 (lit "Invalid payload")), f)
          else
            match write_text
                    (dumps_indent 0
                       (JObj [(lit "tasks", tasks); (lit "edges", edges)]))
            with
            | Some b => (Sent (Reply 204 [] []), Some b)
            | None => (Crashed UnicodeEncodeError, Some [])
            end
      | Some _ => (Crashed AttributeError, f)
      end
  end.

(** The document [{tasks, edges}] the handler writes. *)
Definition workflow (tasks edges : list json) : json :=
  JObj [(lit "tasks", JArr tasks); (lit "edges", JArr edges)].

(** The body of a request with the tasks [[1]] and no edges, and one with a
    third key. *)
Definition quoted (s : str) : str := [34] ++ s ++ [34].

Definition post_body : bytes :=
  map z2b (lit "{" ++ quoted (lit "tasks") ++ lit ":[1],"
           ++ quoted (lit "edges") ++ lit ":[]}").

Definition post_body_with_view : bytes :=
  map z2b (lit "{" ++ quoted (lit "view") ++ lit ":" ++ quoted (lit "grid")
           ++ lit "," ++ quoted (lit "tasks") ++ lit ":[1],"
           ++ quoted (lit "edges") ++ lit ":[]}").

(** ** Due times as they are typed

    The ways of writing the minute [m] of the hour [h] of the day that the
    three formats read: [9:05] and [09:05], [9:05am], and [9am] for the
    full hour. *)
Definition two_digits (n : Z) : str := [48 + n / 10; 48 + n mod 10].

Definition clock24 (h m : Z) : str := repr_int h ++ lit ":" ++ two_digits m.

Definition clock24_padded (h m : Z) : str :=
  two_digits h ++ lit ":" ++ two_digits m.

Definition half (h : Z) : str := if h <? 12 then lit "am" else lit "pm".

Definition hour_of_12 (h : Z) : Z := if h mod 12 =? 0 then 12 else h mod 12.

Definition clock12 (h m : Z) : str :=
  repr_int (hour_of_12 h) ++ lit ":" ++ two_digits m ++ half h.

Definition clock12_hour (h : Z) : str := repr_int (hour_of_12 h) ++ half h.

(** A matcher [consumes] characters that pass [ok] when each of its matches
    leaves a rest of the text and every character before the rest passes
    [ok]. *)
Definition consumes {A} (ok : Z -> bool) (m : Strptime.matcher A) : Prop :=
  forall s x r, In (x, r) (m s) -> exists p, s = p ++ r /\ forallb ok p = true.

Definition not_space (c : Z) : bool := negb (is_space c).

(* ================================================================== *)
(** * today_tasks.py: the interactive prompt ([cmd_shell]) *)
(* ================================================================== *)

(** ** [shlex.split(line)]

    The lexer of [shlex] as [split] sets it up: [posix=True],
    [whitespace_split=True], no comment characters, no punctuation
    characters.  [read_token] reads one character at a time; the state is
    that of the lexer ([' '], ['a'], a quote character, or the escape
    character with the state to come back to), [quoted] and [token] are
    those of the token being read.  A token is given out at a [break]; the
    end of the text in a quote or after a backslash raises [ValueError]
    with the message kept here. *)
Module Shlex.

Inductive state : Type :=
| InSpace
| InWord
| InQuote (q : Z)
| InEscape (escapedstate : state).

Inductive split_result : Type :=
| Tokens (argv : list str)
| ValueError (message : str).

(** [self.whitespace]: space, tab, carriage return, line feed. *)
Definition is_ws (c : Z) : bool :=
  (c =? 32) || (c =? 9) || (c =? 13) || (c =? 10).

(** [self.quotes]: the single and the double quote. *)
Definition is_quote (c : Z) : bool := (c =? 39) || (c =? 34).

(** [self.escape]: the backslash. *)
Definition is_escape (c : Z) : bool := c =? 92.

(** [self.escapedquotes]: the double quote. *)
Definition is_escapedquote (c : Z) : bool := c =? 34.

Definition nonempty (s : str) : bool :=
  match s with
  | [] => false
  | _ => true
  end.

(** A token given out, before the tokens that follow. *)
Definition emit (token : str) (rest : split_result) : split_result :=
  match rest with
  | Tokens argv => Tokens (token :: argv)
  | ValueError m => ValueError m
  end.

(** The character that an escape adds to the token: inside double quotes
    the backslash stays unless it is before a backslash or the quote. *)
Definition escaped (back : state) (token : str) (c : Z) : str :=
  match back with
  | InQuote q =>
      if negb (is_escape c) && negb (c =? q) then token ++ [92; c]
      else token ++ [c]
  | _ => token ++ [c]
  end.

Fixpoint lex (st : state) (quoted : bool) (token : str) (s : str)
  : split_result :=
  match s with
  | [] =>
      match st with
      | InSpace | InWord =>
          if negb quoted && negb (nonempty token) then Tokens []
          else Tokens [token]
      | InQuote _ => ValueError (lit "No closing quotation")
      | InEscape _ => ValueError (lit "No escaped character")
      end
  | c :: r =>
      match st with
      | InSpace =>
          if is_ws c then
            if nonempty token || quoted then emit token (lex InSpace false [] r)
            else lex InSpace quoted token r
          else if is_escape c then lex (InEscape InWord) quoted token r
          else if is_quote c then lex (InQuote c) quoted token r
          else lex InWord quoted [c] r
      | InQuote q =>
          if c =? q then lex InWord true token r
          else if is_escape c && is_escapedquote q
               then lex (InEscape (InQuote q)) true token r
          else lex (InQuote q) true (token ++ [c]) r
      | InEscape back => lex back quoted (escaped back token c) r
      | InWord =>
          if is_ws c then
            if nonempty token || quoted then emit token (lex InSpace false [] r)
            else lex InSpace quoted token r
          else if is_quote c then lex (InQuote c) quoted token r
          else if is_escape c then lex (InEscape InWord) quoted token r
          else lex InWord quoted (token ++ [c]) r
      end
  end.

Definition split (s : str) : split_result := lex InSpace false [] s.

End Shlex.

(** A word as it is typed without quoting: not empty, and no white space,
    quote or backslash in it. *)
Definition plain_char (c : Z) : bool :=
  negb (Shlex.is_ws c || Shlex.is_quote c || Shlex.is_escape c).

Definition plain_word (w : str) : bool :=
  Shlex.nonempty w && forallb plain_char w.

(** ** The loop of [cmd_shell] *)

(** What [shell_parser.parse_args(argv)] does: it raises [SystemExit],
    after writing [printed] to the standard output (the help text, for
    [-h]), or returns a namespace, of which the loop calls [func]. *)
Inductive parsed : Type :=
| SystemExit (printed : list str)
| Namespace (func : file -> ran * file).

(** What goes to the standard output: a line of [print], or the prompt of
    [input]. *)
Inductive out : Type :=
| Line (s : str)
| Prompt (s : str).

(** How [cmd_shell] ends: it returns, or an exception of a command leaves
    it. *)
Inductive ended : Type :=
| Returned
| Left (e : exn).

Definition banner : str :=
  lit "Interactive mode. Type " ++ quoted (lit "help")
  ++ lit " for commands, " ++ quoted (lit "quit") ++ lit " to exit.".

Definition help_lines : list str :=
  [ lit "Commands:";
    lit "  add " ++ quoted (lit "task text") ++ lit " [--due 14:30|2:30PM]";
    lit "  list";
    lit "  done ID";
    lit "  undone ID";
    lit "  remove ID";
    lit "  quit" ].

Definition prompt : out := Prompt (lit "tasks> ").

(** [line in ("quit", "exit")] *)
Definition is_quit (line : str) : bool :=
  str_eqb line (lit "quit") || str_eqb line (lit "exit").

Section Shell.
(** The parser that [build_shell_parser] builds. *)
Variable parse_args : list str -> parsed.

(** The output of the rest of the session after the output of a line. *)
Definition and_then (o : list out) (rest : list out * ended * file)
  : list out * ended * file :=
  let '(o', e, f) := rest in (o ++ o', e, f).

(** The loop on the lines that [input] returns one after the other; after
    the last one [input] raises [EOFError]. *)
Fixpoint shell_loop (lines : list str) (f : file)
  : list out * ended * file :=
  match lines with
  | [] => ([prompt; Line []], Returned, f)
  | l :: rest =>
      let line := strip l in
      if negb (Shlex.nonempty line) then and_then [prompt] (shell_loop rest f)
      else if is_quit line then ([prompt], Returned, f)
      else if str_eqb line (lit "help")
      then and_then (prompt :: map Line help_lines) (shell_loop rest f)
      else
        match Shlex.split line with
        | Shlex.ValueError m =>
            and_then [prompt; Line (lit "Parse error: " ++ m)]
              (shell_loop rest f)
        | Shlex.Tokens argv =>
            match parse_args argv with
            | SystemExit printed =>
                and_then (prompt :: map Line printed) (shell_loop rest f)
            | Namespace func =>
                match func f with
                | (Printed ls, f') =>
                    and_then (prompt :: map Line ls) (shell_loop rest f')
                | (Raised e, f') => ([prompt], Left e, f')
                end
            end
        end
  end.

Definition cmd_shell (lines : list str) (f : file)
  : list out * ended * file :=
  and_then [Line banner] (shell_loop lines f).

(** A line that runs no command and does not end the session: blank,
    [help], one that [shlex] does not split or the parser does not take. *)
Definition inert (l : str) : bool :=
  let line := strip l in
  negb (Shlex.nonempty line)
  || str_eqb line (lit "help")
  || (negb (is_quit line)
      && match Shlex.split line with
         | Shlex.ValueError _ => true
         | Shlex.Tokens argv =>
             match parse_args argv with
             | SystemExit _ => true
             | Namespace _ => false
             end
         end).

End Shell.

(** How the session ends and the store file it leaves. *)
Definition outcome_of (r : list out * ended * file) : ended * file :=
  (snd (fst r), snd r).

(** A parser that knows [list] only, for the examples. *)
Definition parse_list_only (argv : list str) : parsed :=
  match argv with
  | [c] => if str_eqb c (lit "list") then Namespace cmd_list
           else SystemExit []
  | _ => SystemExit []
  end.

(* ================================================================== *)
(** * Properties *)
(* ================================================================== *)

#[local] Arguments Z.add !x !y : simpl nomatch.
#[local] Arguments Z.sub !m !n : simpl nomatch.
#[local] Arguments Z.mul !x !y : simpl nomatch.
#[local] Arguments Z.opp !x : simpl nomatch.
#[local] Arguments Z.div !a !b : simpl nomatch.
#[local] Arguments Z.modulo !a !b : simpl nomatch.
#[local] Arguments Z.eqb !x !y : simpl nomatch.
#[local] Arguments Z.leb !x !y : simpl nomatch.
#[local] Arguments Z.ltb !x !y : simpl nomatch.

(** Boolean tests of the embedding as arithmetic facts. *)
Ltac bools :=
  repeat match goal with
  | H : andb _ _ = true |- _ => apply andb_true_iff in H; destruct H
  | H : orb _ _ = false |- _ => apply orb_false_iff in H; destruct H
  | H : negb _ = true |- _ => apply negb_true_iff in H
  | H : negb _ = false |- _ => apply negb_false_iff in H
  | H : (_ <=? _) = true |- _ => apply Z.leb_le in H
  | H : (_ <=? _) = false |- _ => apply Z.leb_gt in H
  | H : (_ <? _) = true |- _ => apply Z.ltb_lt in H
  | H : (_ <? _) = false |- _ => apply Z.ltb_ge in H
  | H : (_ =? _) = true |- _ => apply Z.eqb_eq in H
  | H : (_ =? _) = false |- _ => apply Z.eqb_neq in H
  end.

(** ** Due times *)

Section DueTimes.
Import Strptime.

Lemma in_seq {A B} (m1 : matcher A) (m2 : matcher B) s a b r :
  In ((a, b), r) (seq m1 m2 s) ->
  exists r1, In (a, r1) (m1 s) /\ In (b, r) (m2 r1).
Proof.
  unfold seq. intros H. apply in_flat_map in H.
  destruct H as [[a' r1] [H1 H2]]. apply in_map_iff in H2.
  destruct H2 as [[b' r'] [E H2]]. simpl in E. inversion E; subst.
  exists r1. split; assumption.
Qed.

Lemma full_match_in {A} (m : matcher A) s a :
  full_match m s = Some a -> In (a, []) (m s).
Proof.
  unfold full_match. destruct (m s) as [|[a' r] l]; [discriminate|].
  destruct r; [|discriminate]. intros E. inversion E. left. reflexivity.
Qed.

Lemma two_range pa pb lo hi s x r :
  (forall a b, pa a = true -> pb b = true ->
               lo <= 10 * digit_val a + digit_val b <= hi) ->
  In (x, r) (two pa pb s) -> lo <= x <= hi.
Proof.
  intros Hr. unfold two. destruct s as [|a [|b s]]; simpl; try contradiction.
  destruct (pa a) eqn:Ea; simpl; [|contradiction].
  destruct (pb b) eqn:Eb; simpl; [|contradiction].
  intros [E|[]]. inversion E; subst. auto.
Qed.

Lemma one_range pa lo hi s x r :
  (forall a, pa a = true -> lo <= digit_val a <= hi) ->
  In (x, r) (one pa s) -> lo <= x <= hi.
Proof.
  intros Hr. unfold one. destruct s as [|a s]; simpl; try contradiction.
  destruct (pa a) eqn:Ea; simpl; [|contradiction].
  intros [E|[]]. inversion E; subst. auto.
Qed.

Lemma digit_val_ascii c : 48 <= c <= 57 -> digit_val c = c - 48.
Proof.
  intros H. unfold digit_val, decimal_zero, decimal_zeros. cbn [find].
  assert (E : in_range 48 (48 + 9) c = true) by (unfold in_range; lia).
  rewrite E. reflexivity.
Qed.

Lemma decimal_zero_some c z :
  decimal_zero c = Some z -> In z decimal_zeros /\ z <= c <= z + 9.
Proof.
  unfold decimal_zero. intros H. apply find_some in H.
  destruct H as [I R]. split; [exact I|]. unfold in_range in R. lia.
Qed.

Lemma digit_val_range c : is_decimal c = true -> 0 <= digit_val c <= 9.
Proof.
  unfold is_decimal, digit_val.
  destruct (decimal_zero c) as [z|] eqn:E; [|discriminate].
  intros _. apply decimal_zero_some in E. lia.
Qed.

Ltac ranges :=
  intros; unfold in_range in *; bools;
  repeat match goal with
  | H : is_decimal _ = true |- _ => apply digit_val_range in H
  end;
  repeat match goal with
  | |- context [digit_val ?c] => rewrite (digit_val_ascii c) by lia
  end;
  lia.

Lemma re_H_range s x r : In (x, r) (re_H s) -> 0 <= x <= 23.
Proof.
  unfold re_H, alt. simpl. rewrite !in_app_iff.
  intros [H|[H|[H|[]]]].
  - apply (two_range _ _ 20 23) in H; [lia|ranges].
  - apply (two_range _ _ 0 19) in H; [lia|ranges].
  - apply (one_range _ 0 9) in H; [lia|ranges].
Qed.

Lemma re_M_range s x r : In (x, r) (re_M s) -> 0 <= x <= 59.
Proof.
  unfold re_M, alt. simpl. rewrite !in_app_iff.
  intros [H|[H|[]]].
  - apply (two_range _ _ 0 59) in H; [lia|ranges].
  - apply (one_range _ 0 9) in H; [lia|ranges].
Qed.

Lemma re_I_range s x r : In (x, r) (re_I s) -> 1 <= x <= 12.
Proof.
  unfold re_I, alt. simpl. rewrite !in_app_iff.
  intros [H|[H|[H|[]]]].
  - apply (two_range _ _ 10 12) in H; [lia|ranges].
  - apply (two_range _ _ 1 9) in H; [lia|ranges].
  - apply (one_range _ 1 9) in H; [lia|ranges].
Qed.

Lemma hour12_range i pm : 1 <= i <= 12 -> 0 <= hour12 i pm <= 23.
Proof.
  intros H. unfold hour12.
  destruct pm; destruct (i =? 12) eqn:E; bools; lia.
Qed.

Lemma strptime_HM_range s h m :
  strptime_HM s = Some (h, m) -> 0 <= h <= 23 /\ 0 <= m <= 59.
Proof.
  unfold strptime_HM.
  destruct (full_match _ s) as [[[h' u] m']|] eqn:E; [|discriminate].
  intros X; inversion X; subst. apply full_match_in in E.
  apply in_seq in E. destruct E as [r1 [E1 E2]].
  apply in_seq in E1. destruct E1 as [r2 [E1 _]].
  apply re_H_range in E1. apply re_M_range in E2. auto.
Qed.

Lemma strptime_IMp_range s h m :
  strptime_IMp s = Some (h, m) -> 0 <= h <= 23 /\ 0 <= m <= 59.
Proof.
  unfold strptime_IMp.
  destruct (full_match _ s) as [[[[i u] m'] pm]|] eqn:E; [|discriminate].
  intros X; inversion X; subst. apply full_match_in in E.
  apply in_seq in E. destruct E as [r1 [E1 _]].
  apply in_seq in E1. destruct E1 as [r2 [E1 E2]].
  apply in_seq in E1. destruct E1 as [r3 [E1 _]].
  apply re_I_range in E1. apply re_M_range in E2.
  split; [apply hour12_range|]; assumption.
Qed.

Lemma strptime_Ip_range s h m :
  strptime_Ip s = Some (h, m) -> 0 <= h <= 23 /\ 0 <= m <= 59.
Proof.
  unfold strptime_Ip.
  destruct (full_match _ s) as [[i pm]|] eqn:E; [|discriminate].
  intros X; inversion X; subst. apply full_match_in in E.
  apply in_seq in E. destruct E as [r1 [E1 _]].
  apply re_I_range in E1. split; [apply hour12_range; assumption|lia].
Qed.

Lemma first_format_range d rank :
  first_format due_formats d = Some rank -> 0 <= rank <= 1439.
Proof.
  unfold due_formats. simpl.
  destruct (strptime_HM (upper d)) as [[h m]|] eqn:E1.
  { intros X; inversion X. apply strptime_HM_range in E1. lia. }
  destruct (strptime_IMp (upper d)) as [[h m]|] eqn:E2.
  { intros X; inversion X. apply strptime_IMp_range in E2. lia. }
  destruct (strptime_Ip (upper d)) as [[h m]|] eqn:E3.
  { intros X; inversion X. apply strptime_Ip_range in E3. lia. }
  discriminate.
Qed.
End DueTimes.

(** The rank of a due time is a minute of the day, or one of the two
    marks: 999998 for a text no format reads, 999999 for no due time. *)
Lemma parse_due_key_rank (d : option str) :
  0 <= fst (parse_due_key d) <= 1439
  \/ fst (parse_due_key d) = 999998
  \/ fst (parse_due_key d) = 999999.
Proof.
  destruct d as [[|c d]|]; [simpl; auto| |simpl; auto].
  unfold parse_due_key.
  destruct (first_format due_formats (strip (c :: d))) eqn:E; cbn [fst]; auto.
  left. eapply first_format_range; eassumption.
Qed.

Lemma lstrip_map (f : Z -> Z) (s : str) :
  (forall c, is_space (f c) = is_space c) ->
  lstrip (map f s) = map f (lstrip s).
Proof.
  intros Hf. induction s as [|c s IH]; simpl; [reflexivity|].
  rewrite Hf. destruct (is_space c); [assumption|reflexivity].
Qed.

Lemma strip_map (f : Z -> Z) (s : str) :
  (forall c, is_space (f c) = is_space c) ->
  strip (map f s) = map f (strip s).
Proof.
  intros Hf. unfold strip, rstrip.
  rewrite lstrip_map by assumption.
  rewrite <- map_rev, lstrip_map by assumption.
  rewrite map_rev. reflexivity.
Qed.

Lemma is_space_lower c : is_space (lower_char c) = is_space c.
Proof.
  unfold lower_char. destruct (in_range 65 90 c) eqn:E; [|reflexivity].
  unfold is_space, in_range in *. bools.
  repeat match goal with
  | |- context [?a <=? ?b] => destruct (Z.leb_spec a b); try lia
  | |- context [?a =? ?b] => destruct (Z.eqb_spec a b); try lia
  end; reflexivity.
Qed.

Lemma upper_lower s : upper (lower s) = upper s.
Proof.
  unfold upper, lower. rewrite map_map. apply map_ext. intros c.
  unfold upper_char, lower_char, in_range.
  destruct (Z.leb_spec 65 c), (Z.leb_spec c 90); cbn [andb];
    repeat match goal with
    | |- context [?a <=? ?b] => destruct (Z.leb_spec a b)
    end; cbn [andb]; lia.
Qed.

Lemma parse_due_key_cons c d :
  parse_due_key (Some (c :: d)) =
    (match first_format due_formats (strip (c :: d)) with
     | Some rank => rank
     | None => 999998
     end, strip (c :: d)).
Proof.
  unfold parse_due_key.
  destruct (first_format due_formats (strip (c :: d))); reflexivity.
Qed.

Lemma first_format_lower s :
  first_format due_formats (lower s) = first_format due_formats s.
Proof. unfold due_formats. simpl. rewrite upper_lower. reflexivity. Qed.

(** Reading a due time does not depend on the case of its letters. *)
Lemma parse_due_key_lower (d : str) :
  fst (parse_due_key (Some (lower d))) = fst (parse_due_key (Some d)).
Proof.
  destruct d as [|c d]; [reflexivity|].
  change (lower (c :: d)) with (lower_char c :: lower d).
  rewrite !parse_due_key_cons. cbn [fst].
  change (lower_char c :: lower d) with (map lower_char (c :: d)).
  rewrite strip_map by apply is_space_lower.
  fold (lower (strip (c :: d))). rewrite first_format_lower. reflexivity.
Qed.

(** C2. [parse_due_key] tries the formats [%H:%M], [%I:%M%p] and [%I%p]
    in this order on the upper-cased, trimmed text and ranks the due time
    by the minute of the day of the first format that reads it; the rank
    is a minute of the day (0 to 1439) and does not depend on the case of
    the letters.  "14:30" and "2:30PM" get 870, "2PM" gets 840, an absent
    or empty due time gets 999999, "whenever" gets 999998. *)
Theorem parse_due_key_formats :
  parse_due_key (Some (lit "14:30")) = (870, lit "14:30")
  /\ parse_due_key (Some (lit "2:30PM")) = (870, lit "2:30PM")
  /\ parse_due_key (Some (lit "2PM")) = (840, lit "2PM")
  /\ parse_due_key (Some (lit "2:30pm")) = (870, lit "2:30pm")
  /\ parse_due_key None = (999999, [])
  /\ parse_due_key (Some (lit "")) = (999999, [])
  /\ parse_due_key (Some (lit "whenever")) = (999998, lit "whenever")
  /\ (forall c d,
        let s := strip (c :: d) in
        parse_due_key (Some (c :: d)) =
          match Strptime.strptime_HM (upper s) with
          | Some (h, m) => (h * 60 + m, s)
          | None =>
          match Strptime.strptime_IMp (upper s) with
          | Some (h, m) => (h * 60 + m, s)
          | None =>
          match Strptime.strptime_Ip (upper s) with
          | Some (h, m) => (h * 60 + m, s)
          | None => (999998, s)
          end end end)
  /\ (forall d rank s,
        parse_due_key d = (rank, s) ->
        rank <> 999998 -> rank <> 999999 -> 0 <= rank <= 1439)
  /\ (forall d,
        fst (parse_due_key (Some (lower d))) = fst (parse_due_key (Some d))).
Proof.
  do 7 (split; [vm_compute; reflexivity|]).
  split; [|split].
  - intros c d s. rewrite parse_due_key_cons. fold s.
    unfold due_formats. cbn [first_format].
    destruct (Strptime.strptime_HM (upper s)) as [[h m]|]; [reflexivity|].
    destruct (Strptime.strptime_IMp (upper s)) as [[h m]|]; [reflexivity|].
    destruct (Strptime.strptime_Ip (upper s)) as [[h m]|]; reflexivity.
  - intros d rank s H N1 N2.
    pose proof (parse_due_key_rank d) as R. rewrite H in R.
    cbn [fst] in R. lia.
  - apply parse_due_key_lower.
Qed.

(** ** Order on texts and on sort keys *)

(** Case analysis on every integer comparison in sight. *)
Ltac zcases :=
  repeat match goal with
  | |- context [?a <? ?b] => destruct (Z.ltb_spec a b)
  | |- context [?a =? ?b] => destruct (Z.eqb_spec a b)
  | |- context [?a <=? ?b] => destruct (Z.leb_spec a b)
  | H : context [?a <? ?b] |- _ => destruct (Z.ltb_spec a b)
  | H : context [?a =? ?b] |- _ => destruct (Z.eqb_spec a b)
  | H : context [?a <=? ?b] |- _ => destruct (Z.leb_spec a b)
  end; cbn [andb orb negb] in *.

Lemma str_ltb_asym a : forall b, str_ltb a b = true -> str_ltb b a = false.
Proof.
  induction a as [|x a IH]; intros [|y b]; simpl; try congruence.
  intros H. zcases; try lia; try discriminate; auto.
Qed.

Lemma str_leb_trans a : forall b c,
  str_ltb b a = false -> str_ltb c b = false -> str_ltb c a = false.
Proof.
  induction a as [|x a IH]; intros [|y b] [|z c]; simpl; try congruence.
  intros H1 H2. zcases; try lia; try discriminate; eauto.
Qed.

Lemma str_ltb_total a : forall b,
  str_ltb a b = false -> str_ltb b a = false -> a = b.
Proof.
  induction a as [|x a IH]; intros [|y b]; simpl; try congruence.
  intros H1 H2. zcases; try lia; try discriminate.
  subst. f_equal. auto.
Qed.

Lemma str_ltb_irrefl a : str_ltb a a = false.
Proof.
  induction a as [|x a IH]; simpl; [reflexivity|].
  zcases; try lia. assumption.
Qed.

Lemma tuple_ltb_asym a b : tuple_ltb a b = true -> tuple_ltb b a = false.
Proof.
  destruct a as [d1 [r1 s1]], b as [d2 [r2 s2]]. unfold tuple_ltb.
  destruct d1, d2; cbn [Bool.eqb negb andb]; try congruence;
    zcases; try lia; try congruence; apply str_ltb_asym.
Qed.

Lemma tuple_leb_trans a b c :
  tuple_ltb b a = false -> tuple_ltb c b = false -> tuple_ltb c a = false.
Proof.
  destruct a as [d1 [r1 s1]], b as [d2 [r2 s2]], c as [d3 [r3 s3]].
  unfold tuple_ltb.
  destruct d1, d2, d3; cbn [Bool.eqb negb andb]; try congruence;
    zcases; try lia; try congruence; apply str_leb_trans.
Qed.

Lemma tuple_ltb_total a b :
  tuple_ltb a b = false -> tuple_ltb b a = false -> a = b.
Proof.
  destruct a as [d1 [r1 s1]], b as [d2 [r2 s2]]. unfold tuple_ltb.
  destruct d1, d2; cbn [Bool.eqb negb andb]; try congruence;
    zcases; try lia; try congruence; intros H1 H2; subst;
    f_equal; f_equal; apply str_ltb_total; assumption.
Qed.

Lemma tuple_ltb_irrefl a : tuple_ltb a a = false.
Proof.
  destruct a as [d [r s]]. unfold tuple_ltb.
  rewrite Bool.eqb_reflx, Z.eqb_refl. simpl. apply str_ltb_irrefl.
Qed.

(** ** [sorted] is a stable sort *)

Section SortedFacts.
Context {A K : Type} (ltb : K -> K -> bool) (key : A -> K).
Hypothesis ltb_asym : forall a b, ltb a b = true -> ltb b a = false.
Hypothesis leb_trans :
  forall a b c, ltb b a = false -> ltb c b = false -> ltb c a = false.

Lemma insert_perm x l : Permutation (insert ltb key x l) (x :: l).
Proof.
  induction l as [|y l IH]; simpl; [reflexivity|].
  destruct (ltb (key y) (key x)); [|reflexivity].
  rewrite IH. apply perm_swap.
Qed.

Lemma sorted_perm l : Permutation (sorted ltb key l) l.
Proof.
  induction l as [|x l IH]; simpl; [reflexivity|].
  rewrite insert_perm. constructor. assumption.
Qed.

Lemma insert_sorted x l :
  StronglySorted (key_le ltb key) l ->
  StronglySorted (key_le ltb key) (insert ltb key x l).
Proof.
  induction 1 as [|y l Hs IH Hy]; simpl.
  - repeat constructor.
  - destruct (ltb (key y) (key x)) eqn:E.
    + constructor; [assumption|].
      eapply Permutation_Forall; [symmetry; apply insert_perm|].
      constructor; [|assumption]. unfold key_le. auto.
    + constructor; [constructor; assumption|].
      constructor; [exact E|].
      eapply Forall_impl; [|exact Hy]. intros z Hz. unfold key_le in *.
      eapply leb_trans; eassumption.
Qed.

Lemma sorted_sorted l : StronglySorted (key_le ltb key) (sorted ltb key l).
Proof.
  induction l as [|x l IH]; simpl; [constructor|].
  apply insert_sorted. assumption.
Qed.

Lemma same_key_below k x y :
  same_key ltb key k x = true -> ltb (key y) (key x) = true ->
  same_key ltb key k y = false.
Proof.
  unfold same_key. intros Hx Hy.
  apply andb_true_iff in Hx. destruct Hx as [H1 H2].
  apply negb_true_iff in H1, H2.
  destruct (ltb k (key y)) eqn:E1; [reflexivity|].
  destruct (ltb (key y) k) eqn:E2; [reflexivity|]. exfalso.
  assert (ltb (key y) (key x) = false)
    by (eapply leb_trans; eassumption).
  congruence.
Qed.

Lemma insert_stable k x l :
  filter (same_key ltb key k) (insert ltb key x l)
  = filter (same_key ltb key k) (x :: l).
Proof.
  induction l as [|y l IH]; [reflexivity|].
  cbn [insert]. destruct (ltb (key y) (key x)) eqn:E; [|reflexivity].
  cbn [filter] in *. rewrite IH.
  destruct (same_key ltb key k x) eqn:Ex; [|reflexivity].
  rewrite (same_key_below k x y Ex E). reflexivity.
Qed.

Lemma sorted_stable k l :
  filter (same_key ltb key k) (sorted ltb key l)
  = filter (same_key ltb key k) l.
Proof.
  induction l as [|x l IH]; [reflexivity|].
  cbn [sorted fold_right]. fold (sorted ltb key l).
  rewrite insert_stable. cbn [filter]. rewrite IH. reflexivity.
Qed.

End SortedFacts.

Lemma strongly_sorted_split {A} (R : A -> A -> Prop) l1 a l2 b l3 :
  StronglySorted R (l1 ++ a :: l2 ++ b :: l3) -> R a b.
Proof.
  induction l1 as [|x l1 IH]; simpl; intros H.
  - apply StronglySorted_inv in H. destruct H as [_ H].
    rewrite Forall_forall in H. apply H. apply in_or_app. right. left.
    reflexivity.
  - apply StronglySorted_inv in H. destruct H as [H _]. auto.
Qed.

(** ** The display order *)

Lemma same_key_eq k t :
  same_key tuple_ltb sort_key k t = true <-> sort_key t = k.
Proof.
  unfold same_key. split.
  - intros H. apply andb_true_iff in H. destruct H as [H1 H2].
    apply negb_true_iff in H1, H2. apply tuple_ltb_total; assumption.
  - intros <-. rewrite tuple_ltb_irrefl. reflexivity.
Qed.

Lemma rank_none t :
  rank t = 999999 <-> (due t = None \/ due t = Some []).
Proof.
  unfold rank. split.
  - destruct (due t) as [[|c d]|]; auto.
    rewrite parse_due_key_cons. cbn [fst].
    destruct (first_format due_formats (strip (c :: d))) eqn:E;
      [|discriminate].
    apply first_format_range in E. lia.
  - intros [-> | ->]; reflexivity.
Qed.

Lemma key_le_display a b :
  key_le tuple_ltb sort_key a b ->
  (done a = true -> done b = true)
  /\ (done a = done b -> rank a <= rank b)
  /\ (done a = done b -> rank a = rank b ->
      str_ltb (due_text b) (due_text a) = false).
Proof.
  unfold key_le, sort_key, rank, due_text.
  destruct (parse_due_key (due a)) as [ra sa].
  destruct (parse_due_key (due b)) as [rb sb].
  unfold tuple_ltb. cbn [fst snd].
  destruct (done a), (done b); cbn [Bool.eqb negb andb];
    try discriminate; intros H; repeat split; try congruence;
    intros; zcases; try lia; try discriminate; assumption.
Qed.

(** C1, as amended.  [sort_tasks] is a stable sort of the tasks: its
    result is a permutation of the collection, tasks with the same key
    keep their relative order, and when [a] comes before [b] in the result
    then [a] is incomplete or [b] is completed, and, when both have the
    same completion flag, the rank of [a] is at most the rank of [b], and
    for equal ranks the due text of [a], trimmed of surrounding white
    space, is not above that of [b].  The rank is a minute of the day for
    a due time one of the formats reads, 999998 for any other text and
    999999 for an absent or empty due time, so that due times that can be
    read come first, then the other texts, then the tasks with no due
    time. *)
Theorem sort_tasks_display_order (tasks : list task) :
  Permutation (sort_tasks tasks) tasks
  /\ (forall k,
        filter (same_key tuple_ltb sort_key k) (sort_tasks tasks)
        = filter (same_key tuple_ltb sort_key k) tasks)
  /\ (forall k t, same_key tuple_ltb sort_key k t = true <-> sort_key t = k)
  /\ (forall a b,
        before a b (sort_tasks tasks) ->
        (done a = true -> done b = true)
        /\ (done a = done b -> rank a <= rank b)
        /\ (done a = done b -> rank a = rank b ->
            str_ltb (due_text b) (due_text a) = false))
  /\ (forall t : task,
        (0 <= rank t <= 1439 \/ rank t = 999998 \/ rank t = 999999)
        /\ (rank t = 999999 <-> (due t = None \/ due t = Some []))
        /\ (forall d, due t = Some d -> due_text t = strip d)).
Proof.
  repeat apply conj.
  - apply sorted_perm.
  - intros k. apply sorted_stable. intros a b c. apply tuple_leb_trans.
  - apply same_key_eq.
  - intros a b [l1 [l2 [l3 E]]]. apply key_le_display.
    pose proof (sorted_sorted tuple_ltb sort_key tuple_ltb_asym
                  tuple_leb_trans tasks) as S.
    fold (sort_tasks tasks) in S. rewrite E in S.
    eapply strongly_sorted_split. exact S.
  - intros t. repeat apply conj.
    + apply parse_due_key_rank.
    + apply rank_none.
    + apply rank_none.
    + intros d E. unfold due_text. rewrite E. destruct d as [|c d].
      * reflexivity.
      * rewrite parse_due_key_cons. reflexivity.
Qed.

(** C1 as stated fails: two tasks whose due texts differ only by a space
    at the end have the same key, so they stay in their order, although the
    second one has the smaller original due text. *)
Lemma sort_tasks_original_due_counterexample :
  ~ (forall tasks a b da db,
       before a b (sort_tasks tasks) ->
       done a = done b ->
       due a = Some da -> due b = Some db ->
       rank a = rank b -> 0 <= rank a <= 1439 ->
       str_ltb db da = false).
Proof.
  intros H.
  set (a := mkTask 1 (lit "call") (Some (lit "9:00 ")) false (lit "")).
  set (b := mkTask 2 (lit "mail") (Some (lit "9:00")) false (lit "")).
  assert (X : str_ltb (lit "9:00") (lit "9:00 ") = false).
  { apply (H [a; b] a b).
    - exists [], [], []. vm_compute. reflexivity.
    - reflexivity.
    - reflexivity.
    - reflexivity.
    - vm_compute. reflexivity.
    - vm_compute. split; discriminate. }
  vm_compute in X. discriminate.
Qed.

(** ** Marking a task: the loop *)

Lemma mark_none tasks i value :
  mark tasks i value = None <-> ~ In i (map id tasks).
Proof.
  induction tasks as [|t r IH]; simpl.
  - tauto.
  - destruct (Z.eqb_spec (id t) i) as [E|E].
    + split; [discriminate|]. intros H. exfalso. apply H. left. exact E.
    + destruct (mark r i value) as [[r' u]|].
      * split; [discriminate|]. intros H. exfalso.
        assert (X : Some (r', u) = None) by (apply IH; tauto).
        discriminate.
      * split; [|reflexivity]. intros _ [H|H]; [contradiction|].
        apply IH in H; [assumption|reflexivity].
Qed.

(** C4. When the store holds a collection of tasks and none of them has
    the id, [cmd_done] and [cmd_undone] print the not-found line, raise
    nothing and leave the store file as it was. *)
Theorem cmd_mark_not_found (f : file) (tasks : list task) (i : Z) :
  load_store f = Ok tasks ->
  ~ In i (map id tasks) ->
  cmd_done i f = (Printed [not_found i], f)
  /\ cmd_undone i f = (Printed [not_found i], f).
Proof.
  intros L N. unfold cmd_done, cmd_undone, cmd_mark. rewrite L.
  split.
  - destruct (mark tasks i true) eqn:E; [|reflexivity].
    apply (mark_none tasks i true) in N. congruence.
  - destruct (mark tasks i false) eqn:E; [|reflexivity].
    apply (mark_none tasks i false) in N. congruence.
Qed.

Lemma cmd_mark_not_found_witness :
  cmd_done 7 two_tasks = (Printed [not_found 7], two_tasks)
  /\ cmd_undone 7 two_tasks = (Printed [not_found 7], two_tasks).
Proof.
  apply (cmd_mark_not_found two_tasks call_and_mail 7).
  - vm_compute. reflexivity.
  - simpl. intros [H|[H|[]]]; discriminate.
Defined.

(** ** Files that are not UTF-8, bodies that are not objects *)

Lemma load_tasks_absent : load_tasks None = Ok (JArr []).
Proof. reflexivity. Qed.

Lemma load_tasks_invalid_json b s :
  read_text b = Some s -> loads s = None ->
  load_tasks (Some b) = Ok (JArr []).
Proof. intros R L. unfold load_tasks. rewrite R, L. reflexivity. Qed.

(** C3 fails on a store file that is not UTF-8: [load_tasks] catches
    [JSONDecodeError] only, and reading the one byte 0xFF raises
    [UnicodeDecodeError]. *)
Theorem load_tasks_not_utf8 :
  load_tasks (Some [xff]) = Raise UnicodeDecodeError.
Proof. reflexivity. Qed.

Lemma _handle_post_invalid_json raw s f :
  Utf8.decode raw = Some s -> loads s = None ->
  _handle_post raw f = (Sent (ErrorPage 400 (lit "Invalid JSON")), f).
Proof. intros D L. unfold _handle_post. rewrite D, L. reflexivity. Qed.

Lemma _handle_post_invalid_payload raw s d f :
  Utf8.decode raw = Some s -> loads s = Some (JObj d) ->
  is_list (get_or_empty d (lit "tasks")) = false
  \/ is_list (get_or_empty d (lit "edges")) = false ->
  _handle_post raw f = (Sent (ErrorPage 400 (lit "Invalid payload")), f).
Proof.
  intros D L H. unfold _handle_post. rewrite D, L.
  destruct H as [H|H]; rewrite H; simpl; [reflexivity|].
  rewrite orb_true_r. reflexivity.
Qed.

(** C6 fails on a body that is not UTF-8 and on a body that is valid JSON
    but not an object: an exception leaves [_handle_post] and no response
    is sent, where the claim says bad request.  The document stays as it
    was. *)
Theorem _handle_post_crashes (f : file) :
  _handle_post [xff] f = (Crashed UnicodeDecodeError, f)
  /\ _handle_post [x5b; x5d] f = (Crashed AttributeError, f).
Proof. split; reflexivity. Qed.

(** C8 fails on a document file that is not UTF-8: [_handle_get] catches
    [OSError] and [JSONDecodeError] only, so no response is sent where the
    claim says server error. *)
Theorem _handle_get_not_utf8 :
  _handle_get (Some [xff]) = Crashed UnicodeDecodeError.
Proof. reflexivity. Qed.

Lemma _handle_get_missing :
  _handle_get None = Sent (ErrorPage 404 (lit "No workflow.json yet")).
Proof. reflexivity. Qed.

Lemma _handle_get_invalid_json b s :
  read_text b = Some s -> loads s = None ->
  _handle_get (Some b)
  = Sent (ErrorPage 500 (lit "Failed to read workflow.json")).
Proof. intros R L. unfold _handle_get. rewrite R, L. reflexivity. Qed.

(* ================================================================== *)
(** * The JSON scanner *)
(* ================================================================== *)

Ltac break_hyp :=
  match goal with
  | H : context [match ?x with _ => _ end] |- _ => destruct x eqn:?
  end.

Ltac break_goal :=
  match goal with
  | |- context [match ?x with _ => _ end] => destruct x eqn:?
  end.

(** ** More budget does not change a result *)

Lemma scan_value_refines items items' members members' :
  refines items items' -> refines members members' ->
  refines (scan_value items members) (scan_value items' members').
Proof.
  intros Hi Hm s o E N. unfold scan_value in *.
  destruct s as [|c r]; [assumption|].
  destruct (c =? 34); [assumption|].
  destruct (c =? 123).
  { destruct (skip_ws r) as [|q r1]; [assumption|].
    destruct (q =? 125); [assumption|].
    destruct (q =? 34); [|assumption].
    destruct (members r1) as [[ms r2]| |] eqn:M.
    - rewrite (Hm r1 _ M); [assumption|discriminate].
    - rewrite (Hm r1 _ M); [assumption|discriminate].
    - congruence. }
  destruct (c =? 91); [|assumption].
  destruct (skip_ws r) as [|q r1]; [assumption|].
  destruct (q =? 93); [assumption|].
  destruct (items (q :: r1)) as [[vs r2]| |] eqn:M.
  - rewrite (Hi _ _ M); [assumption|discriminate].
  - rewrite (Hi _ _ M); [assumption|discriminate].
  - congruence.
Qed.

Lemma scan_items_refines value value' more more' :
  refines value value' -> refines more more' ->
  refines (scan_items value more) (scan_items value' more').
Proof.
  intros Hv Hm s o E N. unfold scan_items in *.
  destruct (value s) as [[v r]| |] eqn:V.
  - rewrite (Hv _ _ V) by discriminate.
    destruct (skip_ws r) as [|c r1]; [assumption|].
    destruct (c =? 93); [assumption|].
    destruct (c =? 44); [|assumption].
    destruct (more (skip_ws r1)) as [[vs r2]| |] eqn:M.
    + rewrite (Hm _ _ M); [assumption|discriminate].
    + rewrite (Hm _ _ M); [assumption|discriminate].
    + congruence.
  - rewrite (Hv _ _ V) by discriminate. assumption.
  - congruence.
Qed.

Lemma scan_members_refines value value' more more' :
  refines value value' -> refines more more' ->
  refines (scan_members value more) (scan_members value' more').
Proof.
  intros Hv Hm s o E N. unfold scan_members in *.
  destruct (scanstring s) as [[k r]|]; [|assumption].
  destruct (skip_ws r) as [|c r1]; [assumption|].
  destruct (c =? 58); [|assumption].
  destruct (value (skip_ws r1)) as [[v r2]| |] eqn:V.
  - rewrite (Hv _ _ V) by discriminate.
    destruct (skip_ws r2) as [|c2 r3]; [assumption|].
    destruct (c2 =? 125); [assumption|].
    destruct (c2 =? 44); [|assumption].
    destruct (skip_ws r3) as [|q r4]; [assumption|].
    destruct (q =? 34); [|assumption].
    destruct (more r4) as [[ms r5]| |] eqn:M.
    + rewrite (Hm _ _ M); [assumption|discriminate].
    + rewrite (Hm _ _ M); [assumption|discriminate].
    + congruence.
  - rewrite (Hv _ _ V) by discriminate. assumption.
  - congruence.
Qed.

Lemma scan_fuel_step n :
  refines (scan_once n) (scan_once (S n))
  /\ refines (parse_items n) (parse_items (S n))
  /\ refines (parse_members n) (parse_members (S n)).
Proof.
  induction n as [|n [IH1 [IH2 IH3]]].
  - repeat split; intros s o E N; simpl in E; congruence.
  - repeat split.
    + apply (scan_value_refines (parse_items n) (parse_items (S n))
               (parse_members n) (parse_members (S n))); assumption.
    + apply (scan_items_refines (scan_once n) (scan_once (S n))
               (parse_items n) (parse_items (S n))); assumption.
    + apply (scan_members_refines (scan_once n) (scan_once (S n))
               (parse_members n) (parse_members (S n))); assumption.
Qed.

Lemma scan_once_mono n m :
  (n <= m)%nat -> refines (scan_once n) (scan_once m).
Proof.
  induction 1 as [|m L IH].
  - intros s o E _. exact E.
  - intros s o E N. apply scan_fuel_step; [|assumption]. apply IH; assumption.
Qed.

(** ** Every scanner consumes what it reads *)

Lemma skip_ws_length s : (length (skip_ws s) <= length s)%nat.
Proof.
  induction s as [|c s IH]; simpl; [lia|].
  destruct (is_ws c); simpl; lia.
Qed.

Lemma scan_char_length s :
  match scan_char s with
  | Close r => (length r < length s)%nat
  | Char _ r => (length r < length s)%nat
  | Bad => True
  end.
Proof.
  destruct (scan_char s) as [r|c r|] eqn:E; [| |exact I];
    unfold scan_char in E;
    repeat (break_hyp; try discriminate);
    inversion E; subst; simpl; lia.
Qed.

Lemma scan_chars_fuel n : forall m s,
  (length s <= n)%nat -> (length s <= m)%nat ->
  scan_chars n s = scan_chars m s.
Proof.
  induction n as [|n IH]; intros m s Ln Lm.
  - destruct s; [|simpl in Ln; lia]. destruct m; reflexivity.
  - destruct m as [|m].
    + destruct s; [|simpl in Lm; lia]. reflexivity.
    + cbn [scan_chars]. pose proof (scan_char_length s) as L.
      destruct (scan_char s) as [r|c r|]; try reflexivity.
      rewrite (IH m r) by lia. reflexivity.
Qed.

(** [scanstring] one round at a time. *)
Lemma scanstring_step s :
  scanstring s =
    match scan_char s with
    | Close r => Some ([], r)
    | Char c r =>
        match scanstring r with
        | Some (x, rest) => Some (c :: x, rest)
        | None => None
        end
    | Bad => None
    end.
Proof.
  unfold scanstring. destruct s as [|a s]; [reflexivity|].
  cbn [length scan_chars]. pose proof (scan_char_length (a :: s)) as L.
  destruct (scan_char (a :: s)) as [r|c r|]; try reflexivity.
  simpl in L. rewrite (scan_chars_fuel (length s) (length r) r) by lia.
  reflexivity.
Qed.

Lemma scanstring_length_le n : forall s x r,
  (length s <= n)%nat -> scanstring s = Some (x, r) ->
  (length r < length s)%nat.
Proof.
  induction n as [|n IH]; intros s x r L E; rewrite scanstring_step in E;
    pose proof (scan_char_length s) as Ls;
    destruct (scan_char s) as [r'|c r'|]; try discriminate.
  - inversion E; subst. assumption.
  - lia.
  - inversion E; subst. assumption.
  - destruct (scanstring r') as [[x' rest]|] eqn:E'; [|discriminate].
    inversion E; subst. apply IH in E'; lia.
Qed.

Lemma scanstring_length s x r :
  scanstring s = Some (x, r) -> (length r < length s)%nat.
Proof. apply (scanstring_length_le (length s)). lia. Qed.

Lemma starts_with_app p : forall s r, starts_with p s = Some r -> s = p ++ r.
Proof.
  induction p as [|a p IH]; intros s r E; simpl in E.
  - inversion E. reflexivity.
  - destruct s as [|b s]; [discriminate|].
    destruct (Z.eqb_spec a b); [|discriminate]. subst.
    simpl. f_equal. auto.
Qed.

Lemma take_digits_app s : forall d r, take_digits s = (d, r) -> s = d ++ r.
Proof.
  induction s as [|c s IH]; intros d r E; simpl in E.
  - inversion E. reflexivity.
  - destruct (is_digit c).
    + destruct (take_digits s) as [d' r'] eqn:E'. inversion E; subst.
      simpl. f_equal. auto.
    + inversion E. reflexivity.
Qed.

Lemma scan_int_part_app s ip r :
  scan_int_part s = Some (ip, r) -> s = ip ++ r /\ ip <> [].
Proof.
  unfold scan_int_part. destruct s as [|c s]; [discriminate|].
  destruct (c =? 48) eqn:E0.
  - intros E. inversion E. apply Z.eqb_eq in E0. subst.
    split; [reflexivity|discriminate].
  - destruct (in_range 49 57 c); [|discriminate].
    destruct (take_digits s) as [d r'] eqn:E'. intros E. inversion E; subst.
    apply take_digits_app in E'. subst. split; [reflexivity|discriminate].
Qed.

Lemma scan_frac_app s fr r : scan_frac s = (fr, r) -> s = fr ++ r.
Proof.
  unfold scan_frac. destruct s as [|c s]; [intros E; inversion E; reflexivity|].
  destruct (c =? 46) eqn:E0; [|intros E; inversion E; reflexivity].
  destruct (take_digits s) as [[|d0 d] r'] eqn:E'; intros E; inversion E;
    subst; [reflexivity|].
  apply take_digits_app in E'. apply Z.eqb_eq in E0. subst. reflexivity.
Qed.

Lemma scan_exp_app s ex r : scan_exp s = (ex, r) -> s = ex ++ r.
Proof.
  unfold scan_exp. destruct s as [|c s]; [intros E; inversion E; reflexivity|].
  destruct ((c =? 101) || (c =? 69)); [|intros E; inversion E; reflexivity].
  destruct s as [|g s'].
  - simpl. intros E. inversion E. reflexivity.
  - destruct ((g =? 45) || (g =? 43)).
    + destruct (take_digits s') as [[|d0 d] r'] eqn:E'; intros E;
        inversion E; subst; [reflexivity|].
      apply take_digits_app in E'. subst. reflexivity.
    + destruct (take_digits (g :: s')) as [[|d0 d] r'] eqn:E'; intros E;
        inversion E; subst; [reflexivity|].
      apply take_digits_app in E'. rewrite E'. reflexivity.
Qed.

Lemma scan_number_app s v r :
  scan_number s = Some (v, r) -> exists l, l <> [] /\ s = l ++ r.
Proof.
  unfold scan_number.
  set (p := match s with
            | [] => (false, s)
            | c :: r0 => if c =? 45 then (true, r0) else (false, s)
            end).
  assert (Hp : exists sg, s = sg ++ snd p).
  { subst p. destruct s as [|c s]; [exists []; reflexivity|].
    destruct (Z.eqb_spec c 45); [subst; exists [45]|exists []]; reflexivity. }
  destruct p as [neg s1]. destruct Hp as [sg Hs]. cbn [snd] in Hs.
  destruct (scan_int_part s1) as [[ip r1]|] eqn:E1; [|discriminate].
  destruct (scan_frac r1) as [fr r2] eqn:E2.
  destruct (scan_exp r2) as [ex r3] eqn:E3.
  apply scan_int_part_app in E1. destruct E1 as [E1 N].
  apply scan_frac_app in E2. apply scan_exp_app in E3. subst.
  intros E. exists (sg ++ ip ++ fr ++ ex). split.
  - destruct sg; [|discriminate]. destruct ip; [congruence|discriminate].
  - assert (r3 = r) by (destruct fr, ex; inversion E; reflexivity).
    subst. rewrite <- !app_assoc. reflexivity.
Qed.

Lemma scan_atom_app s v r :
  scan_atom s = Some (v, r) -> exists l, l <> [] /\ s = l ++ r.
Proof.
  unfold scan_atom.
  repeat match goal with
  | |- context [starts_with ?p s] =>
      let E := fresh "E" in
      destruct (starts_with p s) eqn:E;
      [apply starts_with_app in E; intros X; inversion X; subst;
       eexists; split; [|reflexivity]; discriminate|]
  | |- context [scan_number s] =>
      let E := fresh "E" in
      destruct (scan_number s) as [[v' r']|] eqn:E;
      [intros X; inversion X; subst; eapply scan_number_app; eassumption|]
  end.
  discriminate.
Qed.

Lemma scan_atom_length s v r :
  scan_atom s = Some (v, r) -> (length r < length s)%nat.
Proof.
  intros E. apply scan_atom_app in E. destruct E as [l [N E]]. subst.
  rewrite length_app. destruct l; [congruence|simpl; lia].
Qed.

Lemma skip_ws_cons_length s c r :
  skip_ws s = c :: r -> (length r < length s)%nat.
Proof.
  intros E. pose proof (skip_ws_length s) as L. rewrite E in L.
  simpl in L. lia.
Qed.

Lemma scan_value_shrinks items members :
  shrinks items -> shrinks members -> shrinks (scan_value items members).
Proof.
  intros Hi Hm s v r E. unfold scan_value in E.
  destruct s as [|c s]; [discriminate|]. simpl.
  destruct (c =? 34).
  { destruct (scanstring s) as [[x r']|] eqn:S; [|discriminate].
    inversion E; subst. apply scanstring_length in S. lia. }
  destruct (c =? 123).
  { destruct (skip_ws s) as [|q r1] eqn:W; [discriminate|].
    apply skip_ws_cons_length in W.
    destruct (q =? 125); [inversion E; subst; lia|].
    destruct (q =? 34); [|discriminate].
    destruct (members r1) as [[ms r2]| |] eqn:M; try discriminate.
    inversion E; subst. apply Hm in M. lia. }
  destruct (c =? 91).
  { destruct (skip_ws s) as [|q r1] eqn:W; [discriminate|].
    apply skip_ws_cons_length in W.
    destruct (q =? 93); [inversion E; subst; lia|].
    destruct (items (q :: r1)) as [[vs r2]| |] eqn:M; try discriminate.
    inversion E; subst. apply Hi in M. simpl in M. lia. }
  destruct (scan_atom (c :: s)) as [[v' r']|] eqn:A; [|discriminate].
  inversion E; subst. apply scan_atom_length in A. simpl in A. lia.
Qed.

Lemma scan_items_shrinks value more :
  shrinks value -> shrinks more -> shrinks (scan_items value more).
Proof.
  intros Hv Hm s v r E. unfold scan_items in E.
  destruct (value s) as [[x r0]| |] eqn:V; try discriminate.
  apply Hv in V.
  destruct (skip_ws r0) as [|c r1] eqn:W; [discriminate|].
  apply skip_ws_cons_length in W.
  destruct (c =? 93); [inversion E; subst; lia|].
  destruct (c =? 44); [|discriminate].
  destruct (more (skip_ws r1)) as [[vs r2]| |] eqn:M; try discriminate.
  inversion E; subst. apply Hm in M.
  pose proof (skip_ws_length r1). lia.
Qed.

Lemma scan_members_shrinks value more :
  shrinks value -> shrinks more -> shrinks (scan_members value more).
Proof.
  intros Hv Hm s v r E. unfold scan_members in E.
  destruct (scanstring s) as [[k r0]|] eqn:S; [|discriminate].
  apply scanstring_length in S.
  destruct (skip_ws r0) as [|c r1] eqn:W; [discriminate|].
  apply skip_ws_cons_length in W.
  destruct (c =? 58); [|discriminate].
  destruct (value (skip_ws r1)) as [[x r2]| |] eqn:V; try discriminate.
  apply Hv in V. pose proof (skip_ws_length r1).
  destruct (skip_ws r2) as [|c2 r3] eqn:W2; [discriminate|].
  apply skip_ws_cons_length in W2.
  destruct (c2 =? 125); [inversion E; subst; lia|].
  destruct (c2 =? 44); [|discriminate].
  destruct (skip_ws r3) as [|q r4] eqn:W3; [discriminate|].
  apply skip_ws_cons_length in W3.
  destruct (q =? 34); [|discriminate].
  destruct (more r4) as [[ms r5]| |] eqn:M; try discriminate.
  inversion E; subst. apply Hm in M. lia.
Qed.

Lemma scan_shrinks n :
  shrinks (scan_once n) /\ shrinks (parse_items n)
  /\ shrinks (parse_members n).
Proof.
  induction n as [|n [IH1 [IH2 IH3]]].
  - repeat split; intros s v r E; discriminate.
  - repeat split.
    + apply (scan_value_shrinks (parse_items n) (parse_members n));
        assumption.
    + apply (scan_items_shrinks (scan_once n) (parse_items n)); assumption.
    + apply (scan_members_shrinks (scan_once n) (parse_members n));
        assumption.
Qed.

(** ** The budget of [decode] is never exhausted *)

Lemma scan_value_total items members s :
  (forall s', (length s' < length s)%nat -> items s' <> Fuel) ->
  (forall s', (length s' + 1 < length s)%nat -> members s' <> Fuel) ->
  scan_value items members s <> Fuel.
Proof.
  intros Hi Hm. unfold scan_value.
  destruct s as [|c s]; [discriminate|].
  destruct (c =? 34); [destruct (scanstring s) as [[? ?]|]; discriminate|].
  destruct (c =? 123).
  { destruct (skip_ws s) as [|q r1] eqn:W; [discriminate|].
    apply skip_ws_cons_length in W.
    destruct (q =? 125); [discriminate|].
    destruct (q =? 34); [|discriminate].
    destruct (members r1) as [[ms r2]| |] eqn:M; try discriminate.
    exfalso. apply (Hm r1); [simpl; lia|assumption]. }
  destruct (c =? 91).
  { destruct (skip_ws s) as [|q r1] eqn:W; [discriminate|].
    apply skip_ws_cons_length in W.
    destruct (q =? 93); [discriminate|].
    destruct (items (q :: r1)) as [[vs r2]| |] eqn:M; try discriminate.
    exfalso. apply (Hi (q :: r1)); [simpl; lia|assumption]. }
  destruct (scan_atom (c :: s)) as [[? ?]|]; discriminate.
Qed.

Lemma scan_items_total value more s :
  shrinks value -> value s <> Fuel ->
  (forall s', (length s' + 1 < length s)%nat -> more s' <> Fuel) ->
  scan_items value more s <> Fuel.
Proof.
  intros Sv Hv Hm. unfold scan_items.
  destruct (value s) as [[x r0]| |] eqn:V; [|discriminate|congruence].
  apply Sv in V.
  destruct (skip_ws r0) as [|c r1] eqn:W; [discriminate|].
  apply skip_ws_cons_length in W.
  destruct (c =? 93); [discriminate|].
  destruct (c =? 44); [|discriminate].
  destruct (more (skip_ws r1)) as [[vs r2]| |] eqn:M; try discriminate.
  exfalso. apply (Hm (skip_ws r1)); [|assumption].
  pose proof (skip_ws_length r1). lia.
Qed.

Lemma scan_members_total value more s :
  shrinks value ->
  (forall s', (length s' + 1 < length s)%nat -> value s' <> Fuel) ->
  (forall s', (length s' + 2 < length s)%nat -> more s' <> Fuel) ->
  scan_members value more s <> Fuel.
Proof.
  intros Sv Hv Hm. unfold scan_members.
  destruct (scanstring s) as [[k r0]|] eqn:S; [|discriminate].
  apply scanstring_length in S.
  destruct (skip_ws r0) as [|c r1] eqn:W; [discriminate|].
  apply skip_ws_cons_length in W.
  destruct (c =? 58); [|discriminate].
  pose proof (skip_ws_length r1).
  destruct (value (skip_ws r1)) as [[x r2]| |] eqn:V; [|discriminate|].
  2:{ exfalso. apply (Hv (skip_ws r1)); [lia|assumption]. }
  apply Sv in V.
  destruct (skip_ws r2) as [|c2 r3] eqn:W2; [discriminate|].
  apply skip_ws_cons_length in W2.
  destruct (c2 =? 125); [discriminate|].
  destruct (c2 =? 44); [|discriminate].
  destruct (skip_ws r3) as [|q r4] eqn:W3; [discriminate|].
  apply skip_ws_cons_length in W3.
  destruct (q =? 34); [|discriminate].
  destruct (more r4) as [[ms r5]| |] eqn:M; try discriminate.
  exfalso. apply (Hm r4); [lia|assumption].
Qed.

Lemma scan_total n :
  (forall s, (2 * length s < n)%nat -> scan_once n s <> Fuel)
  /\ (forall s, (2 * length s + 1 < n)%nat -> parse_items n s <> Fuel)
  /\ (forall s, (2 * length s + 1 < n)%nat -> parse_members n s <> Fuel).
Proof.
  induction n as [|n [IH1 [IH2 IH3]]].
  - repeat split; intros s L; lia.
  - repeat split; intros s L.
    + apply (scan_value_total (parse_items n) (parse_members n)).
      * intros s' L'. apply IH2. lia.
      * intros s' L'. apply IH3. lia.
    + apply (scan_items_total (scan_once n) (parse_items n)).
      * apply scan_shrinks.
      * apply IH1. lia.
      * intros s' L'. apply IH2. lia.
    + apply (scan_members_total (scan_once n) (parse_members n)).
      * apply scan_shrinks.
      * intros s' L'. apply IH1. lia.
      * intros s' L'. apply IH3. lia.
Qed.

(** [decode] never runs out of budget: [None] from [loads] is
    [JSONDecodeError]. *)
Lemma decode_total s : decode s <> Fuel.
Proof.
  unfold decode. pose proof (scan_total (fuel_for (skip_ws s))) as [T _].
  specialize (T (skip_ws s)).
  destruct (scan_once _ _) as [[v r]| |]; [|discriminate|].
  - destruct (skip_ws r); discriminate.
  - exfalso. apply T; [unfold fuel_for; lia|reflexivity].
Qed.

(** A value the scanner finds with some budget is the value [loads]
    returns. *)
Lemma loads_of_scan n s v r :
  scan_once n (skip_ws s) = Done (v, r) -> skip_ws r = [] ->
  loads s = Some v.
Proof.
  intros E W. unfold loads, decode.
  assert (X : scan_once (fuel_for (skip_ws s)) (skip_ws s) = Done (v, r)).
  { destruct (Nat.le_ge_cases n (fuel_for (skip_ws s))) as [L|L].
    - apply (scan_once_mono n _ L); [assumption|discriminate].
    - pose proof (scan_total (fuel_for (skip_ws s))) as [T _].
      specialize (T (skip_ws s)).
      destruct (scan_once (fuel_for (skip_ws s)) (skip_ws s)) as [x| |] eqn:F.
      + pose proof (scan_once_mono _ _ L _ _ F ltac:(discriminate)).
        congruence.
      + pose proof (scan_once_mono _ _ L _ _ F ltac:(discriminate)).
        congruence.
      + exfalso. apply T; [unfold fuel_for; lia|reflexivity]. }
  rewrite X, W. reflexivity.
Qed.

(* ================================================================== *)
(** * What [json.dumps] writes, [json.loads] reads back *)
(* ================================================================== *)

(** ** Integers *)

Lemma int_of_digits_snoc d x :
  int_of_digits (d ++ [x]) = 10 * int_of_digits d + (x - 48).
Proof. unfold int_of_digits. rewrite fold_left_app. reflexivity. Qed.

(** The digits [digits_of] puts in front of [acc]: decimal digits that
    read back as [n], with no leading zero. *)
Lemma digits_of_spec fuel : forall n acc,
  0 <= n < 2 ^ Z.of_nat fuel -> fuel <> O ->
  exists c d,
    digits_of fuel n acc = (c :: d) ++ acc
    /\ forallb is_digit (c :: d) = true
    /\ int_of_digits (c :: d) = n
    /\ (c = 48 -> d = []).
Proof.
  induction fuel as [|fuel IH]; intros n acc R F; [congruence|].
  - cbn [digits_of]. destruct (Z.ltb_spec n 10) as [L|L].
    + exists (48 + n), []. split; [reflexivity|].
      split; [|split; [|reflexivity]].
      * unfold is_digit, in_range. cbn [forallb].
        destruct (Z.leb_spec 48 (48 + n)), (Z.leb_spec (48 + n) 57);
          try lia; reflexivity.
      * unfold int_of_digits. simpl. lia.
    + assert (R' : 0 <= n / 10 < 2 ^ Z.of_nat fuel).
      { rewrite Nat2Z.inj_succ, Z.pow_succ_r in R by lia.
        split; [apply Z.div_pos; lia|].
        apply Z.div_lt_upper_bound; lia. }
      assert (F' : fuel <> O).
      { intros ->. change (2 ^ Z.of_nat 1) with 2 in R. lia. }
      destruct (IH (n / 10) ((48 + n mod 10) :: acc) R' F')
        as [c [d [E [D [V Z0]]]]].
      exists c, (d ++ [48 + n mod 10]). split; [|split; [|split]].
      * rewrite E. simpl. rewrite <- app_assoc. reflexivity.
      * change (c :: d ++ [48 + n mod 10])
          with ((c :: d) ++ [48 + n mod 10]).
        rewrite forallb_app, D. cbn [forallb andb].
        unfold is_digit, in_range.
        pose proof (Z.mod_pos_bound n 10 ltac:(lia)).
        destruct (Z.leb_spec 48 (48 + n mod 10)),
                 (Z.leb_spec (48 + n mod 10) 57); try lia; reflexivity.
      * change (c :: d ++ [48 + n mod 10])
          with ((c :: d) ++ [48 + n mod 10]).
        rewrite int_of_digits_snoc, V.
        pose proof (Z.div_mod n 10 ltac:(lia)). lia.
      * intros C. specialize (Z0 C). subst.
        unfold int_of_digits in V. simpl in V.
        assert (n / 10 = 0) by lia.
        pose proof (Z.div_mod n 10 ltac:(lia)).
        pose proof (Z.mod_pos_bound n 10 ltac:(lia)). lia.
Qed.

Lemma log2_budget n :
  0 <= n -> 0 <= n < 2 ^ Z.of_nat (S (Z.to_nat (Z.log2 n))).
Proof.
  intros P. split; [assumption|].
  rewrite Nat2Z.inj_succ, Z2Nat.id by apply Z.log2_nonneg.
  destruct (Z.eq_dec n 0) as [->|N]; [reflexivity|].
  apply Z.log2_spec. lia.
Qed.

(** [repr_int n] is an optional minus sign and the digits of [|n|]. *)
Lemma repr_int_spec n :
  exists c d,
    repr_int n = (if n <? 0 then [45] else []) ++ c :: d
    /\ forallb is_digit (c :: d) = true
    /\ int_of_digits (c :: d) = Z.abs n
    /\ (c = 48 -> d = []).
Proof.
  unfold repr_int. destruct (Z.ltb_spec n 0) as [L|L].
  - destruct (digits_of_spec _ (- n) [] (log2_budget (- n) ltac:(lia))
                ltac:(discriminate))
      as [c [d [E [D [V Z0]]]]].
    exists c, d. rewrite E, app_nil_r. repeat split; auto. lia.
  - destruct (digits_of_spec _ n [] (log2_budget n L) ltac:(discriminate))
      as [c [d [E [D [V Z0]]]]].
    exists c, d. rewrite E, app_nil_r. repeat split; auto. lia.
Qed.

Lemma take_digits_all d : forall rest,
  forallb is_digit d = true ->
  match rest with [] => true | c :: _ => negb (is_digit c) end = true ->
  take_digits (d ++ rest) = (d, rest).
Proof.
  induction d as [|c d IH]; intros rest D R; simpl.
  - destruct rest as [|c r]; [reflexivity|].
    simpl. apply negb_true_iff in R. rewrite R. reflexivity.
  - simpl in D. apply andb_true_iff in D. destruct D as [D1 D2].
    rewrite D1, (IH rest D2 R). reflexivity.
Qed.

Lemma ends_number_cons c r :
  ends_number (c :: r) = true ->
  is_digit c = false /\ (c =? 46) = false /\ (c =? 101) = false
  /\ (c =? 69) = false.
Proof.
  unfold ends_number. intros H. apply negb_true_iff in H.
  repeat (apply orb_false_iff in H; destruct H as [H ?]). auto.
Qed.

Lemma ends_number_digit rest :
  ends_number rest = true ->
  match rest with [] => true | c :: _ => negb (is_digit c) end = true.
Proof.
  destruct rest as [|c r]; [reflexivity|]. intros H.
  apply ends_number_cons in H. destruct H as [H _]. rewrite H. reflexivity.
Qed.

Lemma scan_frac_none rest :
  ends_number rest = true -> scan_frac rest = ([], rest).
Proof.
  destruct rest as [|c r]; [reflexivity|]. intros H.
  apply ends_number_cons in H. destruct H as [_ [H _]].
  unfold scan_frac. rewrite H. reflexivity.
Qed.

Lemma scan_exp_none rest :
  ends_number rest = true -> scan_exp rest = ([], rest).
Proof.
  destruct rest as [|c r]; [reflexivity|]. intros H.
  apply ends_number_cons in H. destruct H as [_ [_ [H1 H2]]].
  unfold scan_exp. rewrite H1, H2. reflexivity.
Qed.

Lemma scan_int_part_digits c d rest :
  forallb is_digit (c :: d) = true -> (c = 48 -> d = []) ->
  ends_number rest = true ->
  scan_int_part ((c :: d) ++ rest) = Some (c :: d, rest).
Proof.
  intros D Z0 R. cbn [app scan_int_part].
  destruct (Z.eqb_spec c 48) as [E|E].
  - rewrite (Z0 E). subst c. reflexivity.
  - cbn [forallb] in D. apply andb_true_iff in D. destruct D as [D1 D2].
    assert (X : in_range 49 57 c = true).
    { unfold is_digit, in_range in *. bools.
      destruct (Z.leb_spec 49 c), (Z.leb_spec c 57); try lia; reflexivity. }
    rewrite X, (take_digits_all d rest D2 (ends_number_digit rest R)).
    reflexivity.
Qed.

Lemma scan_number_repr_int n rest :
  ends_number rest = true ->
  scan_number (repr_int n ++ rest) = Some (JInt n, rest).
Proof.
  intros R. destruct (repr_int_spec n) as [c [d [E [D [V Z0]]]]].
  rewrite E. unfold scan_number.
  destruct (Z.ltb_spec n 0) as [L|L].
  - cbn [app]. rewrite Z.eqb_refl.
    change (c :: d ++ rest) with ((c :: d) ++ rest).
    rewrite (scan_int_part_digits c d rest D Z0 R).
    rewrite (scan_frac_none rest R), (scan_exp_none rest R).
    rewrite V. f_equal. f_equal. f_equal. lia.
  - cbn [app].
    assert (X : (c =? 45) = false).
    { cbn [forallb] in D. unfold is_digit, in_range in D. bools.
      apply Z.eqb_neq. lia. }
    rewrite X. change (c :: d ++ rest) with ((c :: d) ++ rest).
    rewrite (scan_int_part_digits c d rest D Z0 R).
    rewrite (scan_frac_none rest R), (scan_exp_none rest R).
    rewrite V. f_equal. f_equal. f_equal. lia.
Qed.

(** ** Texts *)

Lemma hex_val_hex_digit k :
  0 <= k <= 15 -> hex_val (hex_digit k) = Some k.
Proof.
  intros R. unfold hex_val, hex_digit, in_range.
  destruct (Z.ltb_spec k 10);
    repeat match goal with
    | |- context [?a <=? ?b] => destruct (Z.leb_spec a b); try lia
    end; cbn [andb]; f_equal; lia.
Qed.

Lemma decode_hex4_hex4 n :
  0 <= n < 65536 ->
  decode_hex4 (hex_digit (n / 4096)) (hex_digit ((n / 256) mod 16))
              (hex_digit ((n / 16) mod 16)) (hex_digit (n mod 16))
  = Some n.
Proof.
  intros R. unfold decode_hex4.
  assert (0 <= n / 4096 <= 15) by (Z.div_mod_to_equations; lia).
  assert (0 <= (n / 256) mod 16 <= 15) by (Z.div_mod_to_equations; lia).
  assert (0 <= (n / 16) mod 16 <= 15) by (Z.div_mod_to_equations; lia).
  assert (0 <= n mod 16 <= 15) by (Z.div_mod_to_equations; lia).
  rewrite !hex_val_hex_digit by assumption.
  f_equal. Z.div_mod_to_equations. lia.
Qed.

Lemma scan_char_u uni t :
  0 <= uni < 65536 ->
  (is_high uni = true -> not_low_escape t) ->
  scan_char (92 :: 117 :: hex4 uni ++ t) = Char uni t.
Proof.
  intros R N. unfold hex4. cbn [app scan_char].
  change (92 =? 34) with false. change (92 =? 92) with true.
  change (117 =? 117) with true. cbv iota.
  rewrite (decode_hex4_hex4 uni R).
  destruct (is_high uni) eqn:H; [|reflexivity].
  specialize (N eq_refl). unfold not_low_escape in N.
  destruct t as [|b [|u r3]]; try reflexivity.
  destruct ((b =? 92) && (u =? 117)); [|reflexivity].
  destruct (N eq_refl) as [l1 [l2 [l3 [l4 [r4 [uni2 [E [D L]]]]]]]].
  subst r3. rewrite D, L. reflexivity.
Qed.

Lemma scan_char_pair c t :
  65536 <= c <= 1114111 ->
  scan_char (92 :: 117 :: hex4 (55296 + (c - 65536) / 1024)
             ++ 92 :: 117 :: hex4 (56320 + (c - 65536) mod 1024) ++ t)
  = Char c t.
Proof.
  intros R.
  set (hi := 55296 + (c - 65536) / 1024).
  set (lo := 56320 + (c - 65536) mod 1024).
  assert (Hhi : 55296 <= hi <= 56319)
    by (subst hi; Z.div_mod_to_equations; lia).
  assert (Hlo : 56320 <= lo <= 57343)
    by (subst lo; Z.div_mod_to_equations; lia).
  unfold hex4. cbn [app scan_char].
  change (92 =? 34) with false. change (92 =? 92) with true.
  change (117 =? 117) with true. cbv iota. cbn [andb].
  rewrite (decode_hex4_hex4 hi) by lia.
  rewrite (decode_hex4_hex4 lo) by lia.
  assert (X : is_high hi = true).
  { unfold is_high, in_range.
    destruct (Z.leb_spec 55296 hi), (Z.leb_spec hi 56319); try lia;
      reflexivity. }
  assert (Y : is_low lo = true).
  { unfold is_low, in_range.
    destruct (Z.leb_spec 56320 lo), (Z.leb_spec lo 57343); try lia;
      reflexivity. }
  rewrite X, Y. f_equal. subst hi lo. Z.div_mod_to_equations. lia.
Qed.

Lemma scan_char_escape c t :
  in_range 0 1114111 c = true ->
  (is_high c = true -> not_low_escape t) ->
  scan_char (escape_char c ++ t) = Char c t.
Proof.
  intros R N. unfold in_range in R. bools. unfold escape_char.
  destruct (Z.eqb_spec c 34); [subst; reflexivity|].
  destruct (Z.eqb_spec c 92); [subst; reflexivity|].
  destruct (Z.eqb_spec c 10); [subst; reflexivity|].
  destruct (Z.eqb_spec c 13); [subst; reflexivity|].
  destruct (Z.eqb_spec c 9); [subst; reflexivity|].
  destruct (Z.eqb_spec c 8); [subst; reflexivity|].
  destruct (Z.eqb_spec c 12); [subst; reflexivity|].
  destruct (in_range 32 126 c) eqn:P.
  { unfold in_range in P. bools. cbn [app scan_char].
    destruct (Z.eqb_spec c 34); [lia|]. destruct (Z.eqb_spec c 92); [lia|].
    destruct (Z.ltb_spec c 32); [lia|]. reflexivity. }
  destruct (Z.ltb_spec c 65536).
  - apply scan_char_u; [lia|assumption].
  - cbn [app]. rewrite <- app_assoc. apply scan_char_pair. lia.
Qed.

Lemma escape_not_low d t :
  in_range 0 1114111 d = true -> is_low d = false ->
  not_low_escape (escape_char d ++ t).
Proof.
  intros R L. unfold in_range in R. bools. unfold escape_char.
  destruct (Z.eqb_spec d 34); [intros X; discriminate|].
  destruct (Z.eqb_spec d 92); [intros X; discriminate|].
  destruct (Z.eqb_spec d 10); [intros X; discriminate|].
  destruct (Z.eqb_spec d 13); [intros X; discriminate|].
  destruct (Z.eqb_spec d 9); [intros X; discriminate|].
  destruct (Z.eqb_spec d 8); [intros X; discriminate|].
  destruct (Z.eqb_spec d 12); [intros X; discriminate|].
  destruct (in_range 32 126 d) eqn:P.
  { cbn [app]. destruct t as [|u r3]; [exact I|]. cbn [not_low_escape].
    destruct (Z.eqb_spec d 92); [lia|]. intros X. discriminate. }
  destruct (Z.ltb_spec d 65536).
  - unfold hex4. cbn [app not_low_escape]. intros _.
    do 6 eexists. split; [reflexivity|].
    split; [apply decode_hex4_hex4; lia|assumption].
  - unfold hex4. cbn [app not_low_escape]. intros _.
    do 6 eexists. split; [reflexivity|].
    split; [apply decode_hex4_hex4; Z.div_mod_to_equations; lia|].
    unfold is_low, in_range.
    destruct (Z.leb_spec 56320 (55296 + (d - 65536) / 1024)); [|reflexivity].
    exfalso. Z.div_mod_to_equations. lia.
Qed.

Lemma scanstring_encode s : forall rest,
  str_ok s = true ->
  scanstring (flat_map escape_char s ++ 34 :: rest) = Some (s, rest).
Proof.
  induction s as [|c s IH]; intros rest K.
  - rewrite scanstring_step. reflexivity.
  - cbn [str_ok] in K. apply andb_true_iff in K. destruct K as [K K3].
    apply andb_true_iff in K. destruct K as [K1 K2].
    cbn [flat_map]. rewrite <- app_assoc. rewrite scanstring_step.
    rewrite scan_char_escape; [rewrite (IH rest K3); reflexivity|assumption|].
    intros H. rewrite H in K2. cbn [andb] in K2. apply negb_true_iff in K2.
    destruct s as [|d s'].
    + cbn [flat_map app not_low_escape]. destruct rest; [exact I|].
      intros X. discriminate.
    + cbn [flat_map]. rewrite <- app_assoc. apply escape_not_low.
      * cbn [str_ok] in K3. apply andb_true_iff in K3. destruct K3 as [K3 _].
        apply andb_true_iff in K3. tauto.
      * assumption.
Qed.

(** ** The two layouts *)

Lemma dumps_print level v :
  dumps v = print (fun _ => []) (fun _ => [32]) (fun _ => []) level v.
Proof.
  revert level.
  induction v as [| b | n | l | s | items H | members H]
    using json_induction; intros level; try reflexivity.
  - destruct items as [|x items]; [reflexivity|].
    cbn [dumps print app]. change (lit ", ") with [44; 32].
    f_equal. f_equal. f_equal. apply map_ext_Forall.
    eapply Forall_impl; [|exact H]. intros a Ha. apply Ha.
  - destruct members as [|kx members]; [reflexivity|].
    cbn [dumps print app]. change (lit ", ") with [44; 32].
    f_equal. f_equal. f_equal. apply map_ext_Forall.
    eapply Forall_impl; [|exact H]. intros [k a] Ha. cbn [snd] in Ha.
    unfold member_text. rewrite (Ha (S level)). reflexivity.
Qed.

Lemma dumps_indent_print level v :
  dumps_indent level v
  = print (fun l => newline_indent (S l)) (fun l => newline_indent (S l))
          newline_indent level v.
Proof.
  revert level.
  induction v as [| b | n | l | s | items H | members H]
    using json_induction; intros level; reflexivity.
Qed.

(** ** Reading back what the printer writes *)

Lemma scan_once_S n s :
  scan_once (S n) s = scan_value (parse_items n) (parse_members n) s.
Proof. reflexivity. Qed.

Lemma parse_items_S n s :
  parse_items (S n) s = scan_items (scan_once n) (parse_items n) s.
Proof. reflexivity. Qed.

Lemma parse_members_S n s :
  parse_members (S n) s = scan_members (scan_once n) (parse_members n) s.
Proof. reflexivity. Qed.

Lemma skip_ws_app w s :
  forallb is_ws w = true -> skip_ws (w ++ s) = skip_ws s.
Proof.
  induction w as [|c w IH]; intros H; [reflexivity|].
  cbn [forallb] in H. apply andb_true_iff in H. destruct H as [H1 H2].
  cbn [app skip_ws]. rewrite H1. auto.
Qed.

Lemma skip_ws_space s : skip_ws (32 :: s) = skip_ws s.
Proof. reflexivity. Qed.

Lemma skip_ws_stop c r : is_ws c = false -> skip_ws (c :: r) = c :: r.
Proof. intros H. cbn [skip_ws]. rewrite H. reflexivity. Qed.

Lemma scan_atom_head c s x :
  scan_atom (c :: s) = Some x ->
  is_ws c = false /\ (c =? 34) = false /\ (c =? 123) = false
  /\ (c =? 91) = false /\ (c =? 93) = false.
Proof.
  intros H. unfold is_ws.
  repeat match goal with
  | |- context [c =? ?k] =>
      destruct (Z.eqb_spec c k);
      [subst c; cbv in H; discriminate H|]
  end.
  repeat split.
Qed.

Lemma scan_value_atom items members c r :
  (c =? 34) = false -> (c =? 123) = false -> (c =? 91) = false ->
  scan_value items members (c :: r) =
    match scan_atom (c :: r) with
    | Some x => Done x
    | None => Invalid
    end.
Proof. intros A B C. unfold scan_value. rewrite A, B, C. reflexivity. Qed.

Lemma is_ws_cases a :
  is_ws a = true -> a = 32 \/ a = 9 \/ a = 10 \/ a = 13.
Proof.
  unfold is_ws. intros H.
  destruct (Z.eqb_spec a 32); [auto|].
  destruct (Z.eqb_spec a 9); [auto|].
  destruct (Z.eqb_spec a 10); [auto|].
  destruct (Z.eqb_spec a 13); [auto|]. discriminate.
Qed.

Lemma ends_number_after w c r :
  forallb is_ws w = true -> c = 44 \/ c = 93 \/ c = 125 ->
  ends_number (w ++ c :: r) = true.
Proof.
  intros W C. destruct w as [|a w].
  - destruct C as [->|[->| ->]]; reflexivity.
  - cbn [forallb] in W. apply andb_true_iff in W. destruct W as [W _].
    apply is_ws_cases in W.
    destruct W as [->|[->|[->| ->]]]; reflexivity.
Qed.

Lemma str_eqb_eq a : forall b, str_eqb a b = true <-> a = b.
Proof.
  induction a as [|x a IH]; intros [|y b]; simpl; split; try congruence.
  - intros H. apply andb_true_iff in H. destruct H as [H1 H2].
    apply Z.eqb_eq in H1. apply IH in H2. congruence.
  - intros E. inversion E; subst. rewrite Z.eqb_refl. apply IH. reflexivity.
Qed.

Lemma dict_set_fresh {V} (d : list (str * V)) k v :
  ~ In k (map fst d) -> dict_set d k v = d ++ [(k, v)].
Proof.
  induction d as [|[k' v'] d IH]; intros N; [reflexivity|].
  cbn [dict_set]. destruct (str_eqb k' k) eqn:E.
  - apply str_eqb_eq in E. exfalso. apply N. left. exact E.
  - cbn [app]. f_equal. apply IH. intros X. apply N. right. exact X.
Qed.

Lemma dict_of_pairs_nodup {V} (ms : list (str * V)) :
  NoDup (map fst ms) -> dict_of_pairs ms = ms.
Proof.
  unfold dict_of_pairs.
  assert (G : forall acc,
             NoDup (map fst (acc ++ ms)) ->
             fold_left (fun d kv => dict_set d (fst kv) (snd kv)) ms acc
             = acc ++ ms).
  { induction ms as [|[k v] ms IH]; intros acc N.
    - rewrite app_nil_r. reflexivity.
    - cbn [fold_left fst snd]. rewrite dict_set_fresh.
      + rewrite IH; rewrite <- app_assoc; [reflexivity|exact N].
      + rewrite map_app in N. apply NoDup_remove_2 in N.
        intros X. apply N. apply in_or_app. left. exact X. }
  intros N. apply (G []). exact N.
Qed.

Section ReadBack.
Variables opening separator closing : nat -> str.
Hypothesis opening_ws : forall l, forallb is_ws (opening l) = true.
Hypothesis separator_ws : forall l, forallb is_ws (separator l) = true.
Hypothesis closing_ws : forall l, forallb is_ws (closing l) = true.

Notation pr := (print opening separator closing).

Lemma print_head level v :
  json_ok v ->
  exists c r, pr level v = c :: r /\ is_ws c = false /\ (c =? 93) = false.
Proof.
  intros K. destruct v as [| [|] | n | l | s | [|x items] | [|kx ms]];
    try (eexists; eexists; split; [reflexivity|split; reflexivity]).
  - cbn [print]. destruct (repr_int_spec n) as [c [d [E [D _]]]].
    rewrite E. cbn [forallb] in D. apply andb_true_iff in D.
    destruct D as [D _]. unfold is_digit, in_range in D. bools.
    destruct (n <? 0); cbn [app].
    + eexists; eexists; split; [reflexivity|split; reflexivity].
    + exists c, d. split; [reflexivity|]. unfold is_ws. split.
      * destruct (Z.eqb_spec c 32); [lia|]. destruct (Z.eqb_spec c 9); [lia|].
        destruct (Z.eqb_spec c 10); [lia|].
        destruct (Z.eqb_spec c 13); [lia|]. reflexivity.
      * apply Z.eqb_neq. lia.
  - inversion K as [| | | l' [_ F] | | |]; subst.
    specialize (F [] eq_refl). rewrite app_nil_r in F. cbn [print].
    destruct l as [|c r]; [discriminate F|].
    apply scan_atom_head in F. exists c, r. tauto.
Qed.

Lemma skip_ws_print level v rest :
  json_ok v -> skip_ws (pr level v ++ rest) = pr level v ++ rest.
Proof.
  intros K. destruct (print_head level v K) as [c [r [E [W _]]]].
  rewrite E. cbn [app]. apply skip_ws_stop. exact W.
Qed.

Lemma items_read_back level items :
  items <> [] ->
  Forall json_ok items ->
  Forall (reads_back opening separator closing) items ->
  forall rest, exists n0, forall n, (n0 <= n)%nat ->
    parse_items n
      (join (44 :: separator level) (map (pr (S level)) items)
       ++ closing level ++ 93 :: rest)
    = Done (items, rest).
Proof.
  induction items as [|x items IH]; intros N K R rest; [congruence|].
  inversion K as [|? ? Kx Ks]; subst. inversion R as [|? ? Rx Rs]; subst.
  destruct items as [|y items].
  - cbn [map join].
    destruct (Rx (S level) (closing level ++ 93 :: rest)) as [n0 H].
    { apply ends_number_after; [apply closing_ws|auto]. }
    exists (S n0). intros n L. destruct n as [|n]; [lia|].
    rewrite parse_items_S. unfold scan_items. rewrite H by lia.
    rewrite skip_ws_app by apply closing_ws.
    rewrite skip_ws_stop by reflexivity. reflexivity.
  - change (join (44 :: separator level) (map (pr (S level)) (x :: y :: items)))
      with (pr (S level) x ++ (44 :: separator level)
            ++ join (44 :: separator level) (map (pr (S level)) (y :: items))).
    set (J := join (44 :: separator level) (map (pr (S level)) (y :: items))).
    rewrite <- !app_assoc. cbn [app].
    destruct (Rx (S level)
                (44 :: separator level ++ J ++ closing level ++ 93 :: rest))
      as [n1 H1]; [reflexivity|].
    destruct (IH ltac:(discriminate) Ks Rs rest) as [n2 H2]. fold J in H2.
    exists (S (Nat.max n1 n2)). intros n L. destruct n as [|n]; [lia|].
    rewrite parse_items_S. unfold scan_items. rewrite H1 by lia.
    rewrite skip_ws_stop by reflexivity. cbn [Z.eqb Pos.eqb].
    rewrite skip_ws_app by apply separator_ws.
    assert (W : skip_ws (J ++ closing level ++ 93 :: rest)
                = J ++ closing level ++ 93 :: rest).
    { subst J. cbn [map]. inversion Ks as [|? ? Ky _]; subst.
      destruct items as [|z items].
      - cbn [map join]. apply skip_ws_print. exact Ky.
      - cbn [map join]. rewrite <- !app_assoc. apply skip_ws_print.
        exact Ky. }
    rewrite W, H2 by lia. reflexivity.
Qed.

Lemma members_read_back level ms :
  ms <> [] ->
  NoDup (map fst ms) ->
  Forall (fun kv => str_ok (fst kv) = true /\ json_ok (snd kv)) ms ->
  Forall (fun kv => reads_back opening separator closing (snd kv)) ms ->
  forall rest, exists body n0,
    join (44 :: separator level)
         (map (fun '(k, x) => member_text k (pr (S level) x)) ms)
    ++ closing level ++ 125 :: rest = 34 :: body
    /\ forall n, (n0 <= n)%nat -> parse_members n body = Done (ms, rest).
Proof.
  induction ms as [|[k x] ms IH]; intros N D K R rest; [congruence|].
  inversion K as [|? ? [Kk Kx] Ks]; subst. inversion R as [|? ? Rx Rs]; subst.
  cbn [fst snd] in *.
  destruct ms as [|[k' y] ms].
  - cbn [map join]. unfold member_text, encode_string.
    change (lit ": ") with [58; 32].
    cbn [app]. rewrite <- !app_assoc. cbn [app].
    eexists. destruct (Rx (S level) (closing level ++ 125 :: rest)) as [n0 H].
    { apply ends_number_after; [apply closing_ws|auto]. }
    exists (S n0). split; [reflexivity|].
    intros n L. destruct n as [|n]; [lia|].
    rewrite parse_members_S. unfold scan_members.
    rewrite scanstring_encode by assumption.
    rewrite skip_ws_stop by reflexivity. cbn [Z.eqb Pos.eqb].
    rewrite skip_ws_space.
    rewrite skip_ws_print by assumption. rewrite H by lia.
    rewrite skip_ws_app by apply closing_ws.
    rewrite skip_ws_stop by reflexivity. reflexivity.
  - change (map (fun '(k0, x0) => member_text k0 (pr (S level) x0))
              ((k, x) :: (k', y) :: ms))
      with (member_text k (pr (S level) x)
            :: map (fun '(k0, x0) => member_text k0 (pr (S level) x0))
                 ((k', y) :: ms)).
    set (M := map (fun '(k0, x0) => member_text k0 (pr (S level) x0))
                ((k', y) :: ms)).
    assert (EM : exists m ms', M = m :: ms').
    { subst M. cbn [map]. eexists; eexists; reflexivity. }
    destruct EM as [m [ms' EM]].
    assert (EJ : join (44 :: separator level) (member_text k (pr (S level) x) :: M)
                 = member_text k (pr (S level) x) ++ (44 :: separator level)
                   ++ join (44 :: separator level) M).
    { rewrite EM. reflexivity. }
    rewrite EJ. clear EJ EM m ms'.
    apply NoDup_cons_iff in D. destruct D as [_ D].
    destruct (IH ltac:(discriminate) D Ks Rs rest) as [body' [n2 [B H2]]].
    fold M in B.
    unfold member_text at 1. unfold encode_string.
    change (lit ": ") with [58; 32].
    cbn [app]. rewrite <- !app_assoc. cbn [app]. rewrite <- !app_assoc.
    rewrite B.
    eexists.
    destruct (Rx (S level) (44 :: separator level ++ 34 :: body'))
      as [n1 H1]; [reflexivity|].
    exists (S (Nat.max n1 n2)). split; [reflexivity|].
    intros n L. destruct n as [|n]; [lia|].
    rewrite parse_members_S. unfold scan_members.
    rewrite scanstring_encode by assumption.
    rewrite skip_ws_stop by reflexivity. cbn [Z.eqb Pos.eqb].
    rewrite skip_ws_space.
    rewrite skip_ws_print by assumption. rewrite H1 by lia.
    rewrite skip_ws_stop by reflexivity. cbn [Z.eqb Pos.eqb].
    rewrite skip_ws_app by apply separator_ws.
    rewrite skip_ws_stop by reflexivity. cbn [Z.eqb Pos.eqb].
    rewrite H2 by lia. reflexivity.
Qed.
Lemma scan_atom_number h t x :
  h = 45 \/ is_digit h = true ->
  scan_number (h :: t) = Some x ->
  scan_atom (h :: t) = Some x
  /\ (h =? 34) = false /\ (h =? 123) = false /\ (h =? 91) = false.
Proof.
  intros H N.
  assert (R : h = 45 \/ 48 <= h <= 57).
  { destruct H as [H|H]; [auto|]. unfold is_digit, in_range in H. bools.
    right. lia. }
  unfold scan_atom. rewrite N.
  change (lit "null") with [110; 117; 108; 108].
  change (lit "true") with [116; 114; 117; 101].
  change (lit "false") with [102; 97; 108; 115; 101].
  cbn [starts_with].
  destruct (Z.eqb_spec 110 h); [lia|]. destruct (Z.eqb_spec 116 h); [lia|].
  destruct (Z.eqb_spec 102 h); [lia|].
  repeat split; apply Z.eqb_neq; lia.
Qed.

Lemma print_reads_back v :
  json_ok v -> reads_back opening separator closing v.
Proof.
  induction v as [| b | i | l | s | items H | ms H] using json_induction;
    intros K level rest R.
  - exists 1%nat. intros n L. destruct n as [|n]; [lia|]. reflexivity.
  - exists 1%nat. intros n L. destruct n as [|n]; [lia|].
    destruct b; reflexivity.
  - exists 1%nat. intros n L. destruct n as [|n]; [lia|].
    rewrite scan_once_S. cbn [print].
    pose proof (scan_number_repr_int i rest R) as N.
    destruct (repr_int_spec i) as [c [d [E [D _]]]].
    cbn [forallb] in D. apply andb_true_iff in D. destruct D as [D _].
    assert (X : exists h t, repr_int i ++ rest = h :: t
                            /\ (h = 45 \/ is_digit h = true)).
    { rewrite E. destruct (i <? 0); cbn [app]; eexists; eexists;
        (split; [reflexivity|]); auto. }
    destruct X as [h [t [X Hh]]]. rewrite X in *.
    destruct (scan_atom_number h t _ Hh N) as [A [B1 [B2 B3]]].
    rewrite scan_value_atom by assumption. rewrite A. reflexivity.
  - exists 1%nat. intros n L. destruct n as [|n]; [lia|].
    rewrite scan_once_S. cbn [print].
    inversion K as [| | | l' [_ F] | | |]; subst.
    pose proof (F [] eq_refl) as F0. rewrite app_nil_r in F0.
    destruct l as [|c r]; [discriminate F0|].
    apply scan_atom_head in F0. destruct F0 as [_ [B1 [B2 [B3 _]]]].
    cbn [app]. rewrite scan_value_atom by assumption.
    change (c :: r ++ rest) with ((c :: r) ++ rest).
    rewrite (F rest R). reflexivity.
  - exists 1%nat. intros n L. destruct n as [|n]; [lia|].
    rewrite scan_once_S. cbn [print]. unfold encode_string.
    cbn [app]. rewrite <- app_assoc. cbn [app]. unfold scan_value.
    change (34 =? 34) with true. cbv iota.
    inversion K; subst. rewrite scanstring_encode by assumption.
    reflexivity.
  - destruct items as [|x items].
    { exists 1%nat. intros n L. destruct n as [|n]; [lia|]. reflexivity. }
    inversion K as [| | | | | items' Ks |]; subst.
    assert (Rs : Forall (reads_back opening separator closing) (x :: items)).
    { rewrite Forall_forall in *. intros y Hy. apply H; auto. }
    destruct (items_read_back level (x :: items) ltac:(discriminate) Ks Rs
                rest) as [n0 H0].
    exists (S n0). intros n L. destruct n as [|n]; [lia|].
    rewrite scan_once_S. cbn [print app]. rewrite <- !app_assoc.
    cbn [app].
    set (X := join (44 :: separator level) (map (pr (S level)) (x :: items))
              ++ closing level ++ 93 :: rest) in *.
    assert (E : exists c r, X = c :: r /\ is_ws c = false
                            /\ (c =? 93) = false).
    { inversion Ks as [|? ? Kx _]; subst.
      destruct (print_head (S level) x Kx) as [c [r [E [W N93]]]].
      subst X. cbn [map]. destruct items as [|y items].
      - cbn [join]. rewrite E. eexists; eexists; split; [reflexivity|auto].
      - cbn [join]. rewrite E. eexists; eexists; split; [reflexivity|auto]. }
    destruct E as [c [r [E [W N93]]]].
    unfold scan_value. change (91 =? 34) with false.
    change (91 =? 123) with false. change (91 =? 91) with true. cbv iota.
    rewrite skip_ws_app by apply opening_ws. rewrite E.
    rewrite skip_ws_stop by assumption. rewrite N93, <- E.
    rewrite H0 by lia. reflexivity.
  - destruct ms as [|kx ms].
    { exists 1%nat. intros n L. destruct n as [|n]; [lia|]. reflexivity. }
    inversion K as [| | | | | | ms' D Ks]; subst.
    assert (Rs : Forall (fun kv => reads_back opening separator closing
                                     (snd kv)) (kx :: ms)).
    { rewrite Forall_forall in *. intros y Hy. apply H; [assumption|].
      apply Ks. assumption. }
    destruct (members_read_back level (kx :: ms) ltac:(discriminate) D Ks Rs
                rest) as [body [n0 [B H0]]].
    exists (S n0). intros n L. destruct n as [|n]; [lia|].
    rewrite scan_once_S. cbn [print app]. rewrite <- !app_assoc.
    cbn [app]. rewrite B.
    unfold scan_value. change (123 =? 34) with false.
    change (123 =? 123) with true. cbv iota.
    rewrite skip_ws_app by apply opening_ws.
    rewrite skip_ws_stop by reflexivity.
    change (34 =? 125) with false. change (34 =? 34) with true. cbv iota.
    rewrite H0 by lia. rewrite dict_of_pairs_nodup by assumption.
    reflexivity.
Qed.

(** A printed document is what [loads] returns for it. *)
Lemma loads_print v : json_ok v -> loads (pr 0%nat v) = Some v.
Proof.
  intros K. destruct (print_reads_back v K 0%nat [] eq_refl) as [n0 H].
  specialize (H n0 (Nat.le_refl _)). rewrite app_nil_r in H.
  apply (loads_of_scan n0 _ v []); [|reflexivity].
  pose proof (skip_ws_print 0%nat v [] K) as W. rewrite app_nil_r in W.
  rewrite W. exact H.
Qed.
End ReadBack.

Lemma newline_indent_ws level : forallb is_ws (newline_indent level) = true.
Proof.
  unfold newline_indent. cbn [forallb]. change (is_ws 10) with true.
  cbn [andb]. induction (2 * level)%nat as [|k IH]; [reflexivity|].
  cbn [repeat forallb]. rewrite IH. reflexivity.
Qed.

(** [json.loads(json.dumps(v))] is [v]. *)
Lemma loads_dumps v : json_ok v -> loads (dumps v) = Some v.
Proof.
  intros K. rewrite (dumps_print 0).
  apply loads_print; [reflexivity|reflexivity|reflexivity|exact K].
Qed.

(** [json.loads(json.dumps(v, indent=2))] is [v]. *)
Lemma loads_dumps_indent v : json_ok v -> loads (dumps_indent 0 v) = Some v.
Proof.
  intros K. rewrite dumps_indent_print.
  apply loads_print; try exact K; intros l; apply newline_indent_ws.
Qed.

(** ** What the encoder writes is ASCII *)

Lemma hex_digit_printable k :
  0 <= k <= 15 -> printable (hex_digit k) = true.
Proof.
  intros R. unfold printable, hex_digit, in_range.
  destruct (Z.ltb_spec k 10);
    repeat match goal with
    | |- context [?a <=? ?b] => destruct (Z.leb_spec a b); try lia
    | |- context [?a =? ?b] => destruct (Z.eqb_spec a b); try lia
    end; reflexivity.
Qed.

Lemma hex4_printable n :
  0 <= n < 65536 -> forallb printable (hex4 n) = true.
Proof.
  intros R. unfold hex4. cbn [forallb].
  rewrite !hex_digit_printable by (Z.div_mod_to_equations; lia).
  reflexivity.
Qed.

Lemma escape_char_printable c :
  in_range 0 1114111 c = true -> forallb printable (escape_char c) = true.
Proof.
  intros R. unfold in_range in R. bools. unfold escape_char.
  repeat match goal with
  | |- context [if ?a =? ?b then _ else _] =>
      destruct (Z.eqb_spec a b); [reflexivity|]
  end.
  destruct (in_range 32 126 c) eqn:P.
  { cbn [forallb]. unfold printable. rewrite P, orb_true_r. reflexivity. }
  destruct (Z.ltb_spec c 65536).
  - cbn [forallb]. rewrite hex4_printable by lia. reflexivity.
  - cbn [forallb]. rewrite forallb_app. cbn [forallb].
    rewrite !hex4_printable by (Z.div_mod_to_equations; lia). reflexivity.
Qed.

Lemma str_ok_in_range s :
  str_ok s = true -> forallb (in_range 0 1114111) s = true.
Proof.
  induction s as [|c s IH]; [reflexivity|]. cbn [str_ok forallb]. intros K.
  apply andb_true_iff in K. destruct K as [K K3].
  apply andb_true_iff in K. destruct K as [K1 _].
  rewrite K1, IH by assumption. reflexivity.
Qed.

Lemma encode_string_printable s :
  str_ok s = true -> forallb printable (encode_string s) = true.
Proof.
  intros K. apply str_ok_in_range in K. unfold encode_string.
  cbn [forallb]. rewrite forallb_app. cbn [forallb].
  change (printable 34) with true. cbn [andb]. rewrite andb_true_r.
  induction s as [|c s IH]; [reflexivity|].
  cbn [forallb] in K. apply andb_true_iff in K. destruct K as [K1 K2].
  cbn [flat_map]. rewrite forallb_app, escape_char_printable, IH by assumption.
  reflexivity.
Qed.

Lemma repr_int_printable n : forallb printable (repr_int n) = true.
Proof.
  destruct (repr_int_spec n) as [c [d [E [D _]]]]. rewrite E.
  rewrite forallb_app.
  assert (X : forallb printable (c :: d) = true).
  { revert D. generalize (c :: d). intros l. induction l as [|a l IH];
      [reflexivity|]. cbn [forallb]. intros D.
    apply andb_true_iff in D. destruct D as [D1 D2].
    rewrite IH by assumption. rewrite andb_true_r.
    unfold is_digit, printable, in_range in *. bools.
    destruct (Z.eqb_spec a 10); [lia|].
    destruct (Z.leb_spec 32 a), (Z.leb_spec a 126); try lia; reflexivity. }
  rewrite X. destruct (n <? 0); reflexivity.
Qed.

Lemma join_printable sep parts :
  forallb printable sep = true ->
  Forall (fun p => forallb printable p = true) parts ->
  forallb printable (join sep parts) = true.
Proof.
  intros S. induction 1 as [|p parts Hp Hs IH]; [reflexivity|].
  destruct parts as [|q parts]; [exact Hp|].
  change (join sep (p :: q :: parts)) with (p ++ sep ++ join sep (q :: parts)).
  rewrite !forallb_app, Hp, S, IH. reflexivity.
Qed.

Section Printable.
Variables opening separator closing : nat -> str.
Hypothesis opening_pr : forall l, forallb printable (opening l) = true.
Hypothesis separator_pr : forall l, forallb printable (separator l) = true.
Hypothesis closing_pr : forall l, forallb printable (closing l) = true.

Lemma print_printable v :
  json_ok v ->
  forall level,
    forallb printable (print opening separator closing level v) = true.
Proof.
  induction v as [| b | i | l | s | items H | ms H] using json_induction;
    intros K level.
  - reflexivity.
  - destruct b; reflexivity.
  - apply repr_int_printable.
  - inversion K as [| | | l' [P _] | | |]; subst. exact P.
  - inversion K; subst. apply encode_string_printable. assumption.
  - destruct items as [|x items]; [reflexivity|].
    inversion K as [| | | | | items' Ks |]; subst.
    cbn [print forallb]. rewrite !forallb_app.
    rewrite opening_pr, closing_pr. cbn [forallb andb].
    rewrite andb_true_r. change (printable 91) with true. cbn [andb].
    apply join_printable.
    + cbn [forallb]. rewrite separator_pr. reflexivity.
    + apply Forall_map. rewrite Forall_forall in *. intros y Hy.
      apply H; auto.
  - destruct ms as [|kx ms]; [reflexivity|].
    inversion K as [| | | | | | ms' D Ks]; subst.
    cbn [print forallb]. rewrite !forallb_app.
    rewrite opening_pr, closing_pr. cbn [forallb andb].
    rewrite andb_true_r. change (printable 123) with true. cbn [andb].
    apply join_printable.
    + cbn [forallb]. rewrite separator_pr. reflexivity.
    + apply Forall_map. rewrite Forall_forall in *. intros [k y] Hy.
      unfold member_text. rewrite !forallb_app.
      destruct (Ks _ Hy) as [Kk Ky]. cbn [fst snd] in *.
      rewrite encode_string_printable by assumption.
      rewrite (H _ Hy Ky). reflexivity.
Qed.
End Printable.

Lemma newline_indent_printable level :
  forallb printable (newline_indent level) = true.
Proof.
  unfold newline_indent. cbn [forallb]. change (printable 10) with true.
  cbn [andb]. induction (2 * level)%nat as [|k IH]; [reflexivity|].
  cbn [repeat forallb]. rewrite IH. reflexivity.
Qed.

Lemma dumps_printable v :
  json_ok v -> forallb printable (dumps v) = true.
Proof.
  intros K. rewrite (dumps_print 0).
  apply print_printable; try exact K; reflexivity.
Qed.

Lemma dumps_indent_printable v level :
  json_ok v -> forallb printable (dumps_indent level v) = true.
Proof.
  intros K. rewrite dumps_indent_print.
  apply print_printable; try exact K; intros l;
    apply newline_indent_printable.
Qed.

(** ** Writing ASCII text to a file and reading it *)

Lemma b2z_z2b c : 0 <= c < 256 -> b2z (z2b c) = c.
Proof.
  intros R. unfold b2z, z2b.
  destruct (Byte.of_N (Z.to_N c)) as [b|] eqn:E.
  - apply Byte.to_of_N in E. rewrite E. lia.
  - apply Byte.of_N_None_iff in E. lia.
Qed.

Lemma printable_ascii c : printable c = true -> 0 <= c < 128 /\ c <> 13.
Proof.
  unfold printable, in_range. intros H.
  destruct (Z.eqb_spec c 10); [lia|]. cbn [orb] in H. bools. lia.
Qed.

Lemma encode_printable s :
  forallb printable s = true -> encode s = Some (map z2b s).
Proof.
  induction s as [|c s IH]; [reflexivity|]. cbn [forallb]. intros H.
  apply andb_true_iff in H. destruct H as [H1 H2].
  apply printable_ascii in H1. cbn [encode map]. rewrite (IH H2).
  unfold encode_char. destruct (Z.ltb_spec c 0); [lia|].
  destruct (Z.ltb_spec c 128); [|lia]. reflexivity.
Qed.

Lemma decode_printable s :
  forallb printable s = true -> Utf8.decode (map z2b s) = Some s.
Proof.
  induction s as [|c s IH]; [reflexivity|]. cbn [forallb]. intros H.
  apply andb_true_iff in H. destruct H as [H1 H2].
  apply printable_ascii in H1. cbn [map Utf8.decode].
  rewrite b2z_z2b by lia. destruct (Z.ltb_spec c 128); [|lia].
  rewrite (IH H2). reflexivity.
Qed.

Lemma universal_newlines_printable s :
  forallb printable s = true -> universal_newlines s = s.
Proof.
  induction s as [|c s IH]; [reflexivity|]. cbn [forallb]. intros H.
  apply andb_true_iff in H. destruct H as [H1 H2].
  apply printable_ascii in H1. cbn [universal_newlines].
  destruct (Z.eqb_spec c 13); [lia|]. rewrite (IH H2). reflexivity.
Qed.

Lemma write_read_text s :
  forallb printable s = true ->
  write_text s = Some (map z2b s)
  /\ read_text (map z2b s) = Some s
  /\ Utf8.decode (map z2b s) = Some s.
Proof.
  intros H. unfold write_text, read_text.
  rewrite encode_printable, decode_printable by assumption.
  cbn [option_map]. rewrite universal_newlines_printable by assumption.
  auto.
Qed.

(** The write of [save_tasks] never fails. *)
Lemma write_dumps_indent v :
  json_ok v ->
  write_text (dumps_indent 0 v) = Some (map z2b (dumps_indent 0 v)).
Proof.
  intros K. apply write_read_text. apply dumps_indent_printable. exact K.
Qed.

Lemma save_tasks_ok v :
  json_ok v -> save_tasks v = (Ok tt, Some (map z2b (dumps_indent 0 v))).
Proof.
  intros K. unfold save_tasks. rewrite write_dumps_indent by assumption.
  reflexivity.
Qed.

(** [load_tasks()] after [save_tasks(v)] is [v]. *)
Lemma load_tasks_save_tasks v :
  json_ok v -> load_tasks (snd (save_tasks v)) = Ok v.
Proof.
  intros K. rewrite save_tasks_ok by assumption. cbn [snd load_tasks].
  destruct (write_read_text (dumps_indent 0 v)) as [_ [R _]].
  { apply dumps_indent_printable. exact K. }
  rewrite R, loads_dumps_indent by assumption. reflexivity.
Qed.

(* ================================================================== *)
(** * What [json.loads] returns is well formed *)
(* ================================================================== *)

(** ** Decoded text has no surrogate *)

Lemma scalar_intro c :
  0 <= c <= 1114111 -> (c < 55296 \/ 57343 < c) -> scalar c = true.
Proof.
  intros R S. unfold scalar, in_range. lia.
Qed.

Lemma decode_scalar_le n : forall b s,
  (length b <= n)%nat -> Utf8.decode b = Some s -> forallb scalar s = true.
Proof.
  induction n as [|n IH]; intros b s L D.
  - destruct b; [|simpl in L; lia]. inversion D. reflexivity.
  - destruct b as [|b0 r]; [inversion D; reflexivity|].
    cbn [Utf8.decode] in D. cbn [length] in L.
    set (x := b2z b0) in *.
    destruct (Z.ltb_spec x 128).
    { destruct (Utf8.decode r) as [s'|] eqn:E; [|discriminate].
      inversion D; subst. cbn [forallb].
      rewrite (IH r s') by (assumption || lia).
      subst x. unfold b2z in *. rewrite scalar_intro; [reflexivity|lia|lia]. }
    destruct (in_range 194 223 x) eqn:R2.
    { destruct r as [|b1 r1]; [discriminate|].
      destruct (is_cont b1) eqn:C1; [|discriminate].
      destruct (Utf8.decode r1) as [s'|] eqn:E; [|discriminate].
      inversion D; subst. cbn [forallb]. cbn [length] in L.
      rewrite (IH r1 s') by (assumption || lia).
      unfold is_cont, cont, in_range in *. bools.
      rewrite scalar_intro; [reflexivity|lia|lia]. }
    destruct (in_range 224 239 x) eqn:R3.
    { destruct r as [|b1 [|b2 r2]]; try discriminate.
      destruct (in_range _ _ (b2z b1) && is_cont b2) eqn:C; [|discriminate].
      destruct (Utf8.decode r2) as [s'|] eqn:E; [|discriminate].
      inversion D; subst. cbn [forallb]. cbn [length] in L.
      rewrite (IH r2 s') by (assumption || lia).
      unfold is_cont, cont, in_range in *. bools.
      destruct (Z.eqb_spec x 224), (Z.eqb_spec x 237);
        rewrite scalar_intro; try reflexivity; lia. }
    destruct (in_range 240 244 x) eqn:R4; [|discriminate].
    destruct r as [|b1 [|b2 [|b3 r3]]]; try discriminate.
    destruct (in_range _ _ (b2z b1) && is_cont b2 && is_cont b3) eqn:C;
      [|discriminate].
    destruct (Utf8.decode r3) as [s'|] eqn:E; [|discriminate].
    inversion D; subst. cbn [forallb]. cbn [length] in L.
    rewrite (IH r3 s') by (assumption || lia).
    unfold is_cont, cont, in_range in *. bools.
    destruct (Z.eqb_spec x 240), (Z.eqb_spec x 244);
      rewrite scalar_intro; try reflexivity; lia.
Qed.

Lemma decode_scalar b s :
  Utf8.decode b = Some s -> forallb scalar s = true.
Proof. apply (decode_scalar_le (length b)). lia. Qed.

Lemma universal_newlines_scalar_le n : forall s,
  (length s <= n)%nat -> forallb scalar s = true ->
  forallb scalar (universal_newlines s) = true.
Proof.
  induction n as [|n IH]; intros s L H.
  - destruct s; [reflexivity|simpl in L; lia].
  - destruct s as [|c r]; [reflexivity|].
    cbn [forallb] in H. apply andb_true_iff in H. destruct H as [H1 H2].
    cbn [length] in L. cbn [universal_newlines].
    destruct (c =? 13).
    + destruct r as [|d r']; [reflexivity|].
      cbn [forallb] in H2. apply andb_true_iff in H2.
      destruct H2 as [H2 H3]. cbn [length] in L.
      destruct (d =? 10); cbn [forallb]; change (scalar 10) with true;
        cbn [andb].
      * apply IH; [lia|assumption].
      * apply IH; [cbn [length]; lia|].
        cbn [forallb]. rewrite H2, H3. reflexivity.
    + cbn [forallb]. rewrite H1. cbn [andb]. apply IH; [lia|assumption].
Qed.

Lemma read_text_scalar b s :
  read_text b = Some s -> forallb scalar s = true.
Proof.
  unfold read_text. destruct (Utf8.decode b) as [s'|] eqn:D; [|discriminate].
  cbn [option_map]. intros E. inversion E; subst.
  apply (universal_newlines_scalar_le (length s')); [lia|].
  eapply decode_scalar. eassumption.
Qed.

(** ** Texts *)

Lemma hex_val_range c v : hex_val c = Some v -> 0 <= v <= 15.
Proof.
  unfold hex_val, in_range. intros H.
  repeat break_hyp; inversion H; subst; lia.
Qed.

Lemma decode_hex4_range a b c d u :
  decode_hex4 a b c d = Some u -> 0 <= u <= 65535.
Proof.
  unfold decode_hex4.
  destruct (hex_val a) as [x|] eqn:A; [|discriminate].
  destruct (hex_val b) as [y|] eqn:B; [|discriminate].
  destruct (hex_val c) as [z|] eqn:C; [|discriminate].
  destruct (hex_val d) as [w|] eqn:D; [|discriminate].
  apply hex_val_range in A, B, C, D. intros E. inversion E. lia.
Qed.

Lemma unescape_range e ch : unescape e = Some ch -> 0 <= ch <= 127.
Proof.
  unfold unescape. intros H. repeat break_hyp; inversion H; subst; lia.
Qed.

Lemma scalar_cases c :
  scalar c = true -> 0 <= c <= 1114111 /\ (c < 55296 \/ 57343 < c).
Proof. unfold scalar, in_range. lia. Qed.

Ltac sound_done :=
  unfold is_high, is_low in *; unfold in_range in *;
  repeat split; try assumption; try lia; try (intros; exfalso; lia).

Lemma scan_char_sound s c r :
  forallb scalar s = true -> scan_char s = Char c r ->
  in_range 0 1114111 c = true
  /\ forallb scalar r = true
  /\ (is_high c = true -> not_low_escape r).
Proof.
  intros S H. unfold scan_char in H.
  destruct s as [|c0 s0]; [discriminate|].
  cbn [forallb] in S. apply andb_true_iff in S. destruct S as [S0 S].
  apply scalar_cases in S0.
  destruct (c0 =? 34); [discriminate|].
  destruct (c0 =? 92).
  2:{ destruct (c0 <? 32); [discriminate|]. inversion H; subst.
      sound_done. }
  destruct s0 as [|e r1]; [discriminate|].
  cbn [forallb] in S. apply andb_true_iff in S. destruct S as [_ S].
  destruct (e =? 117).
  2:{ destruct (unescape e) as [ch|] eqn:U; [|discriminate].
      inversion H; subst. apply unescape_range in U.
      sound_done. }
  destruct r1 as [|h1 [|h2 [|h3 [|h4 r2]]]]; try discriminate.
  cbn [forallb] in S.
  repeat (apply andb_true_iff in S; destruct S as [_ S]).
  destruct (decode_hex4 h1 h2 h3 h4) as [uni|] eqn:D; [|discriminate].
  apply decode_hex4_range in D.
  destruct (is_high uni) eqn:Hi.
  2:{ inversion H; subst. sound_done. }
  destruct r2 as [|b [|u r3]].
  { inversion H; subst. sound_done. }
  { inversion H; subst. sound_done. }
  destruct ((b =? 92) && (u =? 117)) eqn:BU.
  2:{ inversion H; subst. sound_done. intros _. cbn [not_low_escape].
      rewrite BU. discriminate. }
  destruct r3 as [|l1 [|l2 [|l3 [|l4 r4]]]]; try discriminate.
  destruct (decode_hex4 l1 l2 l3 l4) as [uni2|] eqn:D2; [|discriminate].
  pose proof (decode_hex4_range _ _ _ _ _ D2) as R2.
  destruct (is_low uni2) eqn:Lo.
  - inversion H; subst. cbn [forallb] in S.
    repeat (apply andb_true_iff in S; destruct S as [_ S]).
    sound_done.
  - inversion H; subst. sound_done. intros _. cbn [not_low_escape].
    intros _. do 6 eexists. split; [reflexivity|]. split; eassumption.
Qed.

Lemma scan_char_not_low s d r :
  forallb scalar s = true -> not_low_escape s ->
  scan_char s = Char d r -> is_low d = false.
Proof.
  intros S N H. unfold scan_char in H.
  destruct s as [|c0 s0]; [discriminate|].
  cbn [forallb] in S. apply andb_true_iff in S. destruct S as [S0 S].
  apply scalar_cases in S0.
  destruct (c0 =? 34); [discriminate|].
  destruct (c0 =? 92) eqn:C92.
  2:{ destruct (c0 <? 32); [discriminate|]. inversion H; subst.
      unfold is_low, in_range. lia. }
  destruct s0 as [|e r1]; [discriminate|].
  destruct (e =? 117) eqn:E117.
  2:{ destruct (unescape e) as [ch|] eqn:U; [|discriminate].
      inversion H; subst. apply unescape_range in U.
      unfold is_low, in_range. lia. }
  cbn [not_low_escape] in N. rewrite C92, E117 in N.
  destruct (N eq_refl) as [l1 [l2 [l3 [l4 [r4 [uni2 [E [D L]]]]]]]].
  subst r1. rewrite D in H.
  pose proof (decode_hex4_range _ _ _ _ _ D) as R.
  destruct (is_high uni2) eqn:Hi; [|inversion H; subst; assumption].
  destruct r4 as [|b [|u r3]]; try (inversion H; subst; assumption).
  destruct ((b =? 92) && (u =? 117)); [|inversion H; subst; assumption].
  destruct r3 as [|m1 [|m2 [|m3 [|m4 r5]]]]; try discriminate.
  destruct (decode_hex4 m1 m2 m3 m4) as [uni3|] eqn:D3; [|discriminate].
  apply decode_hex4_range in D3.
  destruct (is_low uni3) eqn:Lo; inversion H; subst; [|assumption].
  unfold is_high, is_low, in_range in *. lia.
Qed.

Lemma scanstring_sound_le n : forall s x r,
  (length s <= n)%nat -> forallb scalar s = true ->
  scanstring s = Some (x, r) ->
  str_ok x = true /\ forallb scalar r = true.
Proof.
  induction n as [|n IH]; intros s x r L S E;
    rewrite scanstring_step in E;
    pose proof (scan_char_length s) as Ls;
    destruct (scan_char s) as [r'|c r'|] eqn:C; try discriminate;
    try (simpl in L; lia).
  - inversion E; subst. split; [reflexivity|].
    unfold scan_char in C. destruct s as [|c0 s0]; [discriminate|].
    cbn [forallb] in S. apply andb_true_iff in S. destruct S as [_ S].
    destruct (c0 =? 34); [inversion C; subst; assumption|].
    repeat (break_hyp; try discriminate).
  - destruct (scan_char_sound s c r' S C) as [Rc [Sr Hn]].
    destruct (scanstring r') as [[x' rest]|] eqn:E'; [|discriminate].
    inversion E; subst.
    destruct (IH r' x' r ltac:(lia) Sr E') as [K Sr'].
    split; [|assumption]. cbn [str_ok]. rewrite Rc, K. cbn [andb].
    rewrite andb_true_r. apply negb_true_iff.
    destruct (is_high c) eqn:Hi; [|reflexivity]. cbn [andb].
    destruct x' as [|d x']; [reflexivity|].
    rewrite scanstring_step in E'.
    destruct (scan_char r') as [r''|d' r''|] eqn:C'; try discriminate.
    destruct (scanstring r'') as [[x'' rest'']|]; [|discriminate].
    inversion E'; subst.
    apply (scan_char_not_low r' d r'' Sr (Hn eq_refl) C').
Qed.

Lemma scanstring_sound s x r :
  forallb scalar s = true -> scanstring s = Some (x, r) ->
  str_ok x = true /\ forallb scalar r = true.
Proof. apply (scanstring_sound_le (length s)). lia. Qed.

(** ** Numbers *)

Lemma take_digits_digits s : forall d r,
  take_digits s = (d, r) -> forallb is_digit d = true.
Proof.
  induction s as [|c s IH]; intros d r E; simpl in E.
  - inversion E. reflexivity.
  - destruct (is_digit c) eqn:D.
    + destruct (take_digits s) as [d' r'] eqn:E'. inversion E; subst.
      cbn [forallb]. rewrite D. eapply IH. reflexivity.
    + inversion E. reflexivity.
Qed.

Lemma take_digits_again d t :
  forallb is_digit d = true -> not_digit_next t = true ->
  take_digits (d ++ t) = (d, t).
Proof. intros D N. apply take_digits_all; assumption. Qed.

Lemma digits_printable d :
  forallb is_digit d = true -> forallb printable d = true.
Proof.
  induction d as [|a d IH]; [reflexivity|]. cbn [forallb]. intros D.
  apply andb_true_iff in D. destruct D as [D1 D2]. rewrite IH by assumption.
  unfold is_digit, printable, in_range in *. lia.
Qed.

Lemma rescan_int_part s ip r :
  scan_int_part s = Some (ip, r) ->
  (forall t, not_digit_next t = true ->
             scan_int_part (ip ++ t) = Some (ip, t))
  /\ forallb printable ip = true
  /\ exists c d, ip = c :: d /\ is_digit c = true.
Proof.
  unfold scan_int_part. destruct s as [|c s]; [discriminate|].
  destruct (Z.eqb_spec c 48) as [E0|E0].
  - intros E. inversion E; subst. repeat split.
    exists 48, []. split; reflexivity.
  - destruct (in_range 49 57 c) eqn:R; [|discriminate].
    destruct (take_digits s) as [d r'] eqn:T. intros E. inversion E; subst.
    apply take_digits_digits in T.
    assert (Dc : is_digit c = true) by (unfold is_digit, in_range in *; lia).
    split; [|split].
    + intros t N. cbn [app]. destruct (Z.eqb_spec c 48); [contradiction|].
      rewrite R, take_digits_again by assumption. reflexivity.
    + apply digits_printable. cbn [forallb]. rewrite Dc, T. reflexivity.
    + exists c, d. auto.
Qed.

Lemma rescan_frac s fr r :
  scan_frac s = (fr, r) -> fr <> [] ->
  (forall t, not_digit_next t = true -> scan_frac (fr ++ t) = (fr, t))
  /\ forallb printable fr = true
  /\ not_digit_next fr = true.
Proof.
  unfold scan_frac. destruct s as [|c s]; [intros E; inversion E; congruence|].
  destruct (Z.eqb_spec c 46) as [E0|E0]; [|intros E; inversion E; congruence].
  destruct (take_digits s) as [[|d0 d] r'] eqn:T;
    intros E N; inversion E; subst; [congruence|].
  apply take_digits_digits in T. split; [|split].
  - intros t Nt. cbn [app]. rewrite Z.eqb_refl.
    change (d0 :: d ++ t) with ((d0 :: d) ++ t).
    rewrite take_digits_again by assumption. reflexivity.
  - cbn [forallb]. apply digits_printable in T. cbn [forallb] in T.
    rewrite T. reflexivity.
  - reflexivity.
Qed.

Lemma rescan_exp s ex r :
  scan_exp s = (ex, r) -> ex <> [] ->
  (forall t, not_digit_next t = true -> scan_exp (ex ++ t) = (ex, t))
  /\ forallb printable ex = true
  /\ not_digit_next ex = true
  /\ exists e x, ex = e :: x /\ (e =? 46) = false.
Proof.
  unfold scan_exp. destruct s as [|c s]; [intros E; inversion E; congruence|].
  destruct ((c =? 101) || (c =? 69)) eqn:C;
    [|intros E; inversion E; congruence].
  assert (Pc : printable c = true /\ is_digit c = false /\ (c =? 46) = false).
  { unfold printable, is_digit, in_range. lia. }
  destruct Pc as [Pc [Dc Fc]].
  destruct s as [|g s'].
  { simpl. intros E; inversion E; congruence. }
  destruct ((g =? 45) || (g =? 43)) eqn:G.
  - destruct (take_digits s') as [[|d0 d] r'] eqn:T;
      intros E N; inversion E; subst; [congruence|].
    apply take_digits_digits in T. split; [|split; [|split]].
    + intros t Nt. cbn [app]. rewrite C, G.
      change (d0 :: d ++ t) with ((d0 :: d) ++ t).
      rewrite take_digits_again by assumption. reflexivity.
    + cbn [forallb app]. rewrite Pc. apply digits_printable in T.
      cbn [forallb] in T. rewrite T.
      assert (printable g = true) by (unfold printable, in_range; lia).
      rewrite H. reflexivity.
    + cbn [app not_digit_next]. rewrite Dc. reflexivity.
    + eexists; eexists; split; [reflexivity|assumption].
  - destruct (take_digits (g :: s')) as [[|d0 d] r'] eqn:T;
      intros E N; inversion E; subst; [congruence|].
    pose proof (take_digits_digits _ _ _ T) as D.
    assert (G0 : (d0 =? 45) || (d0 =? 43) = false).
    { cbn [forallb] in D. unfold is_digit, in_range in D. lia. }
    split; [|split; [|split]].
    + intros t Nt. cbn [app]. rewrite C, G0.
      change (d0 :: d ++ t) with ((d0 :: d) ++ t).
      rewrite take_digits_again by assumption. reflexivity.
    + cbn [forallb app]. rewrite Pc. apply digits_printable in D.
      cbn [forallb] in D. rewrite D. reflexivity.
    + cbn [app not_digit_next]. rewrite Dc. reflexivity.
    + eexists; eexists; split; [reflexivity|assumption].
Qed.

Lemma not_digit_next_app l t :
  l <> [] -> not_digit_next l = true -> not_digit_next (l ++ t) = true.
Proof. destruct l; [congruence|]. intros _ H. exact H. Qed.

Lemma scan_number_parts (neg : bool) (ip fr ex rest s1 r1 r2 r3 : str) :
  scan_int_part s1 = Some (ip, r1) ->
  scan_frac r1 = (fr, r2) ->
  scan_exp r2 = (ex, r3) ->
  fr <> [] \/ ex <> [] ->
  ends_number rest = true ->
  let l := (if neg then [45] else []) ++ ip ++ fr ++ ex in
  scan_number (l ++ rest) = Some (JFloat l, rest)
  /\ forallb printable l = true
  /\ exists h t, l ++ rest = h :: t /\ (h = 45 \/ is_digit h = true).
Proof.
  intros I F E NE R l.
  destruct (rescan_int_part _ _ _ I) as [Ri [Pi [c [d [Ei Dc]]]]].
  pose proof (ends_number_digit rest R) as Nr.
  fold (not_digit_next rest) in Nr.
  assert (Hex : ex = [] \/ ex <> []) by (destruct ex; [left|right]; congruence).
  assert (Hfr : fr = [] \/ fr <> []) by (destruct fr; [left|right]; congruence).
  (* the exponent, read again in front of [rest] *)
  assert (Xe : scan_exp (ex ++ rest) = (ex, rest)
               /\ forallb printable ex = true
               /\ not_digit_next (ex ++ rest) = true
               /\ (fr = [] -> scan_frac (ex ++ rest) = ([], ex ++ rest))).
  { destruct Hex as [->|Ne].
    - cbn [app]. rewrite scan_exp_none by assumption.
      repeat split; try assumption. intros ->. destruct NE; congruence.
    - destruct (rescan_exp _ _ _ E Ne) as [Re [Pe [Ne' [e [x [Ee E46]]]]]].
      rewrite Re by assumption. repeat split; try assumption.
      + apply not_digit_next_app; assumption.
      + intros _. rewrite Ee. cbn [app scan_frac]. rewrite E46.
        reflexivity. }
  destruct Xe as [Xe [Pe [Ne Fe]]].
  (* the fraction, read again in front of the exponent *)
  assert (Xf : scan_frac (fr ++ ex ++ rest) = (fr, ex ++ rest)
               /\ forallb printable fr = true
               /\ not_digit_next (fr ++ ex ++ rest) = true).
  { destruct Hfr as [->|Nf].
    - cbn [app]. rewrite Fe by reflexivity. repeat split. assumption.
    - destruct (rescan_frac _ _ _ F Nf) as [Rf [Pf Nf']].
      rewrite Rf by assumption. repeat split; try assumption.
      apply not_digit_next_app; assumption. }
  destruct Xf as [Xf [Pf Nf]].
  assert (Sn : scan_number (l ++ rest) = Some (JFloat l, rest)).
  { unfold scan_number. subst l. rewrite <- !app_assoc. destruct neg.
    - cbn [app]. change (45 =? 45) with true. cbv beta iota.
      rewrite Ri, Xf, Xe by assumption.
      destruct fr, ex; try reflexivity. destruct NE; congruence.
    - subst ip. cbn [app].
      assert (H45 : (c =? 45) = false)
        by (unfold is_digit, in_range in Dc; lia).
      rewrite H45. cbv beta iota.
      change (c :: d ++ fr ++ ex ++ rest) with ((c :: d) ++ fr ++ ex ++ rest).
      rewrite Ri, Xf, Xe by assumption.
      destruct fr, ex; try reflexivity. destruct NE; congruence. }
  split; [exact Sn|]. split.
  - subst l. rewrite !forallb_app, Pi, Pf, Pe.
    destruct neg; reflexivity.
  - subst l. subst ip. destruct neg; cbn [app]; eexists; eexists;
      (split; [reflexivity|]); auto.
Qed.

Lemma scan_number_sound s v r : scan_number s = Some (v, r) -> json_ok v.
Proof.
  unfold scan_number.
  destruct (match s with
            | [] => (false, s)
            | c :: r0 => if c =? 45 then (true, r0) else (false, s)
            end) as [neg s1].
  destruct (scan_int_part s1) as [[ip r1]|] eqn:I; [|discriminate].
  destruct (scan_frac r1) as [fr r2] eqn:F.
  destruct (scan_exp r2) as [ex r3] eqn:E.
  assert (G : fr <> [] \/ ex <> [] ->
              json_ok (JFloat ((if neg then [45] else []) ++ ip ++ fr ++ ex))).
  { intros NE. constructor. split.
    - destruct (scan_number_parts neg ip fr ex [] s1 r1 r2 r3 I F E NE eq_refl)
        as [_ [P _]]. exact P.
    - intros rest R.
      destruct (scan_number_parts neg ip fr ex rest s1 r1 r2 r3 I F E NE R)
        as [Sn [_ [h [t [Eh Hh]]]]].
      rewrite Eh in *. apply (scan_atom_number h t _ Hh Sn). }
  destruct fr as [|f0 fr]; [destruct ex as [|e0 ex]|];
    intros X; inversion X; subst.
  - constructor.
  - apply G. right. discriminate.
  - apply G. left. discriminate.
Qed.

Lemma scan_atom_sound s v r :
  forallb scalar s = true -> scan_atom s = Some (v, r) ->
  json_ok v /\ forallb scalar r = true.
Proof.
  intros S A. split.
  - unfold scan_atom in A.
    repeat match type of A with
    | context [starts_with ?p s] =>
        destruct (starts_with p s);
        [injection A as Ev Er; subst v r; constructor;
         try (split; [reflexivity|intros rest _; reflexivity])|]
    | context [scan_number s] =>
        let N := fresh "N" in
        destruct (scan_number s) as [[v' r']|] eqn:N;
        [injection A as Ev Er; subst v r; eapply scan_number_sound;
         eassumption|]
    end; try discriminate.
  - apply scan_atom_app in A. destruct A as [l [_ E]]. subst.
    rewrite forallb_app in S. apply andb_true_iff in S. tauto.
Qed.

(** ** Objects *)

Lemma dict_set_keys_in {V} (d : list (str * V)) k v x :
  In x (map fst (dict_set d k v)) -> In x (map fst d) \/ x = k.
Proof.
  induction d as [|[k' v'] d IH]; cbn [dict_set map fst In].
  - intros [H|[]]. auto.
  - destruct (str_eqb k' k); cbn [map fst In]; [tauto|].
    intros [H|H]; [auto|]. apply IH in H. tauto.
Qed.

Lemma dict_set_nodup {V} (d : list (str * V)) k v :
  NoDup (map fst d) -> NoDup (map fst (dict_set d k v)).
Proof.
  induction d as [|[k' v'] d IH]; cbn [dict_set map fst]; intros N.
  - constructor; [intros []|constructor].
  - destruct (str_eqb k' k) eqn:E; cbn [map fst]; [exact N|].
    inversion N as [|? ? Nk Nd]; subst. constructor; [|auto].
    intros X. apply dict_set_keys_in in X. destruct X as [X|X]; [auto|].
    subst. rewrite (proj2 (str_eqb_eq k k) eq_refl) in E. discriminate.
Qed.

Lemma dict_set_forall (d : list (str * json)) k v :
  Forall member_ok d -> member_ok (k, v) -> Forall member_ok (dict_set d k v).
Proof.
  induction d as [|[k' v'] d IH]; cbn [dict_set]; intros F M.
  - constructor; [exact M|constructor].
  - inversion F as [|? ? Fk Fd]; subst. destruct (str_eqb k' k) eqn:E.
    + apply str_eqb_eq in E. subst. constructor; assumption.
    + constructor; [assumption|auto].
Qed.

Lemma dict_of_pairs_ok (ms : list (str * json)) :
  Forall member_ok ms ->
  NoDup (map fst (dict_of_pairs ms)) /\ Forall member_ok (dict_of_pairs ms).
Proof.
  unfold dict_of_pairs.
  assert (G : forall acc,
             NoDup (map fst acc) -> Forall member_ok acc ->
             Forall member_ok ms ->
             NoDup (map fst (fold_left
                               (fun d kv => dict_set d (fst kv) (snd kv))
                               ms acc))
             /\ Forall member_ok
                  (fold_left (fun d kv => dict_set d (fst kv) (snd kv))
                             ms acc)).
  { induction ms as [|[k v] ms IH]; intros acc N F M; [auto|].
    inversion M as [|? ? Mk Ms]; subst. cbn [fold_left fst snd].
    apply IH; [apply dict_set_nodup|apply dict_set_forall|]; assumption. }
  intros M. apply G; [constructor|constructor|exact M].
Qed.

(** ** The scanner *)

Lemma skip_ws_scalar s :
  forallb scalar s = true -> forallb scalar (skip_ws s) = true.
Proof.
  induction s as [|c s IH]; [reflexivity|]. intros H.
  cbn [skip_ws]. destruct (is_ws c); [|exact H].
  cbn [forallb] in H. apply andb_true_iff in H. tauto.
Qed.

Lemma skip_ws_cons_scalar s c r :
  forallb scalar s = true -> skip_ws s = c :: r -> forallb scalar r = true.
Proof.
  intros H E. apply skip_ws_scalar in H. rewrite E in H.
  cbn [forallb] in H. apply andb_true_iff in H. tauto.
Qed.

Lemma scan_value_sound items members :
  sound (Forall json_ok) items -> sound (Forall member_ok) members ->
  sound json_ok (scan_value items members).
Proof.
  intros Hi Hm s v r S E. unfold scan_value in E.
  destruct s as [|c s0]; [discriminate|].
  assert (S0 : forallb scalar s0 = true).
  { cbn [forallb] in S. apply andb_true_iff in S. tauto. }
  destruct (c =? 34).
  { destruct (scanstring s0) as [[x r']|] eqn:X; [|discriminate].
    inversion E; subst. apply scanstring_sound in X; [|assumption].
    destruct X as [K Sr]. split; [constructor|]; assumption. }
  destruct (c =? 123).
  { destruct (skip_ws s0) as [|q r1] eqn:W; [discriminate|].
    pose proof (skip_ws_cons_scalar _ _ _ S0 W) as S1.
    destruct (q =? 125).
    { inversion E; subst. split; [|assumption].
      constructor; constructor. }
    destruct (q =? 34); [|discriminate].
    destruct (members r1) as [[ms r2]| |] eqn:M; try discriminate.
    inversion E; subst. destruct (Hm _ _ _ S1 M) as [F Sr].
    split; [|assumption].
    destruct (dict_of_pairs_ok ms F) as [N F'].
    constructor; [exact N|exact F']. }
  destruct (c =? 91).
  { destruct (skip_ws s0) as [|q r1] eqn:W; [discriminate|].
    pose proof (skip_ws_scalar _ S0) as S1. rewrite W in S1.
    destruct (q =? 93).
    { inversion E; subst. split; [constructor; constructor|].
      cbn [forallb] in S1. apply andb_true_iff in S1. tauto. }
    destruct (items (q :: r1)) as [[vs r2]| |] eqn:M; try discriminate.
    inversion E; subst. destruct (Hi _ _ _ S1 M) as [F Sr].
    split; [constructor|]; assumption. }
  destruct (scan_atom (c :: s0)) as [[v' r']|] eqn:A; [|discriminate].
  inversion E; subst. apply (scan_atom_sound (c :: s0)); assumption.
Qed.

Lemma scan_items_sound value more :
  sound json_ok value -> sound (Forall json_ok) more ->
  sound (Forall json_ok) (scan_items value more).
Proof.
  intros Hv Hm s vs r S E. unfold scan_items in E.
  destruct (value s) as [[v r0]| |] eqn:V; try discriminate.
  destruct (Hv _ _ _ S V) as [K S0].
  destruct (skip_ws r0) as [|c r1] eqn:W; [discriminate|].
  pose proof (skip_ws_cons_scalar _ _ _ S0 W) as S1.
  destruct (c =? 93).
  { inversion E; subst. split; [|assumption]. constructor; [assumption|].
    constructor. }
  destruct (c =? 44); [|discriminate].
  destruct (more (skip_ws r1)) as [[vs' r2]| |] eqn:M; try discriminate.
  inversion E; subst.
  destruct (Hm _ _ _ (skip_ws_scalar _ S1) M) as [F Sr].
  split; [constructor|]; assumption.
Qed.

Lemma scan_members_sound value more :
  sound json_ok value -> sound (Forall member_ok) more ->
  sound (Forall member_ok) (scan_members value more).
Proof.
  intros Hv Hm s ms r S E. unfold scan_members in E.
  destruct (scanstring s) as [[k r0]|] eqn:X; [|discriminate].
  apply scanstring_sound in X; [|assumption]. destruct X as [Kk S0].
  destruct (skip_ws r0) as [|c r1] eqn:W; [discriminate|].
  pose proof (skip_ws_cons_scalar _ _ _ S0 W) as S1.
  destruct (c =? 58); [|discriminate].
  destruct (value (skip_ws r1)) as [[v r2]| |] eqn:V; try discriminate.
  destruct (Hv _ _ _ (skip_ws_scalar _ S1) V) as [Kv S2].
  destruct (skip_ws r2) as [|c2 r3] eqn:W2; [discriminate|].
  pose proof (skip_ws_cons_scalar _ _ _ S2 W2) as S3.
  assert (Mk : member_ok (k, v)) by (split; assumption).
  destruct (c2 =? 125).
  { inversion E; subst. split; [|assumption]. constructor; [assumption|].
    constructor. }
  destruct (c2 =? 44); [|discriminate].
  destruct (skip_ws r3) as [|q r4] eqn:W3; [discriminate|].
  pose proof (skip_ws_cons_scalar _ _ _ S3 W3) as S4.
  destruct (q =? 34); [|discriminate].
  destruct (more r4) as [[ms' r5]| |] eqn:M; try discriminate.
  inversion E; subst. destruct (Hm _ _ _ S4 M) as [F Sr].
  split; [constructor|]; assumption.
Qed.

Lemma scan_sound n :
  sound json_ok (scan_once n)
  /\ sound (Forall json_ok) (parse_items n)
  /\ sound (Forall member_ok) (parse_members n).
Proof.
  induction n as [|n [IH1 [IH2 IH3]]].
  - split; [|split]; intros s a r S E; discriminate.
  - split; [|split].
    + apply (scan_value_sound (parse_items n) (parse_members n)); assumption.
    + apply (scan_items_sound (scan_once n) (parse_items n)); assumption.
    + apply (scan_members_sound (scan_once n) (parse_members n)); assumption.
Qed.

(** A document [json.loads] returns for decoded text is well formed. *)
Lemma loads_sound s v :
  forallb scalar s = true -> loads s = Some v -> json_ok v.
Proof.
  intros S L. unfold loads, decode in L.
  destruct (scan_once (fuel_for (skip_ws s)) (skip_ws s)) as [[v' r]| |] eqn:E;
    try discriminate.
  destruct (skip_ws r); [|discriminate]. inversion L; subst.
  destruct (scan_sound (fuel_for (skip_ws s))) as [H _].
  apply (H _ _ _ (skip_ws_scalar _ S) E).
Qed.

(* ================================================================== *)
(** * The store file *)
(* ================================================================== *)

Lemma json_of_task_ok t : task_ok t = true -> json_ok (json_of_task t).
Proof.
  unfold task_ok. intros K. apply andb_true_iff in K. destruct K as [K K3].
  apply andb_true_iff in K. destruct K as [K1 K2].
  unfold json_of_task. constructor.
  - cbn [map fst]. repeat constructor; cbv; intuition discriminate.
  - repeat (apply Forall_cons; [split; [reflexivity|cbn [snd]]|]);
      try apply Forall_nil.
    + constructor.
    + constructor. assumption.
    + destruct (due t); constructor. assumption.
    + constructor.
    + constructor. assumption.
Qed.

Lemma json_of_tasks_ok tasks :
  forallb task_ok tasks = true -> json_ok (json_of_tasks tasks).
Proof.
  intros K. constructor. induction tasks as [|t r IH]; [constructor|].
  cbn [forallb] in K. apply andb_true_iff in K. destruct K as [K1 K2].
  cbn [map]. constructor; [apply json_of_task_ok|]; auto.
Qed.

Lemma task_of_json_of_task t : task_of_json (json_of_task t) = Some t.
Proof. destruct t as [i x [d|] b c]; reflexivity. Qed.

Lemma tasks_of_json_of_tasks tasks :
  tasks_of_json (json_of_tasks tasks) = Some tasks.
Proof.
  cbn [tasks_of_json json_of_tasks].
  induction tasks as [|t r IH]; [reflexivity|].
  cbn [map all_tasks]. rewrite task_of_json_of_task, IH. reflexivity.
Qed.

(** What is written for a collection of tasks is read back as it is. *)
Lemma load_store_saved tasks :
  forallb task_ok tasks = true ->
  save_tasks (json_of_tasks tasks)
  = (Ok tt, Some (map z2b (dumps_indent 0 (json_of_tasks tasks))))
  /\ load_store (Some (map z2b (dumps_indent 0 (json_of_tasks tasks))))
     = Ok tasks.
Proof.
  intros K. apply json_of_tasks_ok in K.
  pose proof (save_tasks_ok _ K) as E. split; [exact E|].
  pose proof (load_tasks_save_tasks _ K) as L. rewrite E in L. cbn [snd] in L.
  unfold load_store. rewrite L, tasks_of_json_of_tasks. reflexivity.
Qed.

(** C5. For a store file that [save_tasks] wrote for a collection of tasks
    whose texts are Unicode texts, [load_tasks] returns the collection that
    was saved and [save_tasks] of it writes the same bytes: loading and
    saving leaves the file as it is. *)
Theorem save_load_is_identity (tasks : list task) (f : file) :
  forallb task_ok tasks = true ->
  save_tasks (json_of_tasks tasks) = (Ok tt, f) ->
  exists v, load_tasks f = Ok v /\ save_tasks v = (Ok tt, f).
Proof.
  intros K E. exists (json_of_tasks tasks). split; [|exact E].
  pose proof (load_tasks_save_tasks _ (json_of_tasks_ok _ K)) as L.
  rewrite E in L. exact L.
Qed.

Lemma save_load_is_identity_witness :
  exists v, load_tasks two_tasks = Ok v /\ save_tasks v = (Ok tt, two_tasks).
Proof.
  apply (save_load_is_identity call_and_mail two_tasks).
  - vm_compute. reflexivity.
  - vm_compute. reflexivity.
Defined.

Lemma task_of_json_inv v t : task_of_json v = Some t -> v = json_of_task t.
Proof.
  unfold task_of_json. intros H.
  destruct v as [| | | | | |ms]; try discriminate.
  destruct ms as [|[k1 v1] [|[k2 v2] [|[k3 v3] [|[k4 v4] [|[k5 v5] [|]]]]]];
    try discriminate;
    try (destruct v1; discriminate);
    try (destruct v1; try discriminate; destruct v2; discriminate).
  - destruct v1; try discriminate. destruct v2; try discriminate.
    destruct v4; discriminate.
  - destruct v1; try discriminate. destruct v2; try discriminate.
    destruct v4; try discriminate. destruct v5; try discriminate.
    destruct (_ && _) eqn:K; [|discriminate].
    repeat (apply andb_true_iff in K; destruct K as [K ?]).
    repeat match goal with
    | X : str_eqb _ _ = true |- _ => apply str_eqb_eq in X
    end. subst.
    destruct v3; try discriminate; cbn [due_of_json option_map] in H;
      inversion H; reflexivity.
  - destruct v1; try discriminate. destruct v2; try discriminate.
    destruct v4; try discriminate. destruct v5; discriminate.
Qed.

Lemma tasks_of_json_inv v tasks :
  tasks_of_json v = Some tasks -> v = json_of_tasks tasks.
Proof.
  destruct v as [| | | | |items|]; try discriminate. cbn [tasks_of_json].
  unfold json_of_tasks. intros H. f_equal. revert tasks H.
  induction items as [|x items IH]; intros tasks H; cbn [all_tasks] in H.
  - inversion H. reflexivity.
  - destruct (task_of_json x) as [t|] eqn:T; [|discriminate].
    destruct (all_tasks items) as [ts|]; [|discriminate].
    inversion H; subst. cbn [map]. f_equal; [|auto].
    apply task_of_json_inv. exact T.
Qed.

Lemma json_of_task_ok_inv t : json_ok (json_of_task t) -> task_ok t = true.
Proof.
  unfold json_of_task. intros K.
  inversion K as [| | | | | |ms N F]; subst.
  repeat match goal with
  | X : Forall _ (_ :: _) |- _ => inversion X; subst; clear X
  end.
  repeat match goal with
  | X : _ /\ _ |- _ => destruct X
  end. cbn [snd] in *.
  unfold task_ok.
  repeat match goal with
  | X : json_ok (JStr _) |- _ => inversion X; subst; clear X
  end.
  assert (D : match due t with Some d => str_ok d | None => true end = true).
  { destruct (due t); [|reflexivity].
    match goal with
    | X : json_ok (json_of_due _) |- _ => inversion X; subst
    end. assumption. }
  rewrite D.
  repeat match goal with
  | X : str_ok _ = true |- _ => rewrite X
  end. reflexivity.
Qed.

Lemma json_of_tasks_ok_inv tasks :
  json_ok (json_of_tasks tasks) -> forallb task_ok tasks = true.
Proof.
  intros K. inversion K as [| | | | |items F|]; subst.
  induction tasks as [|t r IH]; [reflexivity|].
  cbn [map] in F. inversion F; subst. cbn [forallb].
  rewrite json_of_task_ok_inv by assumption.
  apply IH; [constructor|]; assumption.
Qed.

(** The tasks [load_store] returns have texts [json.loads] returns. *)
Lemma load_store_ok f tasks :
  load_store f = Ok tasks -> forallb task_ok tasks = true.
Proof.
  unfold load_store. destruct (load_tasks f) as [v|] eqn:L; [|discriminate].
  destruct (tasks_of_json v) as [ts|] eqn:T; [|discriminate].
  intros E. inversion E; subst. apply tasks_of_json_inv in T. subst.
  apply json_of_tasks_ok_inv.
  unfold load_tasks in L. destruct f as [b|].
  - destruct (read_text b) as [s|] eqn:R; [|discriminate].
    destruct (loads s) as [v|] eqn:P.
    + inversion L; subst. eapply loads_sound; [|eassumption].
      eapply read_text_scalar. eassumption.
    + inversion L as [X]. unfold json_of_tasks. rewrite <- X.
      constructor. constructor.
  - inversion L as [X]. unfold json_of_tasks. rewrite <- X.
    constructor. constructor.
Qed.

Lemma save_then_stored tasks lines :
  forallb task_ok tasks = true ->
  save_then tasks lines = (Printed lines, stored tasks)
  /\ load_store (stored tasks) = Ok tasks.
Proof.
  intros K. destruct (load_store_saved tasks K) as [E L].
  unfold save_then. rewrite E. split; [reflexivity|exact L].
Qed.

(* ================================================================== *)
(** * The commands *)
(* ================================================================== *)

Lemma mark_first tasks i :
  In i (map id tasks) ->
  exists before t after,
    tasks = before ++ t :: after
    /\ id t = i
    /\ ~ In i (map id before)
    /\ forall value,
         mark tasks i value
         = Some (before ++ set_done t value :: after, set_done t value).
Proof.
  induction tasks as [|u r IH]; [intros []|]. cbn [map In mark].
  destruct (Z.eqb_spec (id u) i) as [E|E].
  - intros _. exists [], u, r. repeat split; auto.
  - intros [H|H]; [contradiction|].
    destruct (IH H) as [before [t [after [Et [Ei [N M]]]]]].
    exists (u :: before), t, after. subst r.
    repeat split; auto.
    + cbn [map In]. tauto.
    + intros value. rewrite M. reflexivity.
Qed.

Lemma task_ok_set_done t value : task_ok (set_done t value) = task_ok t.
Proof. reflexivity. Qed.

Lemma forallb_task_ok_marked before t after value :
  forallb task_ok (before ++ t :: after) = true ->
  forallb task_ok (before ++ set_done t value :: after) = true.
Proof.
  rewrite !forallb_app. cbn [forallb]. rewrite task_ok_set_done. auto.
Qed.

Lemma nodup_ids_after (before after : list task) t :
  NoDup (map id (before ++ t :: after)) -> ~ In (id t) (map id after).
Proof.
  rewrite map_app. cbn [map]. intros N. apply NoDup_remove_2 in N.
  intros X. apply N. apply in_or_app. right. exact X.
Qed.

(** C10. When the store holds a collection of tasks and one of them has
    the id, [cmd_done] and [cmd_undone] save the collection in which the
    first task with the id (the only one when ids are distinct) has its
    [done] flag set and its id, text, due time and creation time as
    before; the tasks before and after it are the same, in the same order. *)
Theorem cmd_mark_changes_done_only (f : file) (tasks : list task) (i : Z) :
  load_store f = Ok tasks ->
  In i (map id tasks) ->
  exists before t after,
    tasks = before ++ t :: after
    /\ id t = i
    /\ ~ In i (map id before)
    /\ (NoDup (map id tasks) -> ~ In i (map id after))
    /\ (forall value,
          id (set_done t value) = id t
          /\ text (set_done t value) = text t
          /\ due (set_done t value) = due t
          /\ created_at (set_done t value) = created_at t
          /\ done (set_done t value) = value)
    /\ cmd_done i f
       = (Printed [lit "Marked done: #" ++ repr_int i ++ lit " " ++ text t],
          stored (before ++ set_done t true :: after))
    /\ load_store (stored (before ++ set_done t true :: after))
       = Ok (before ++ set_done t true :: after)
    /\ cmd_undone i f
       = (Printed [lit "Marked not done: #" ++ repr_int i ++ lit " "
                   ++ text t],
          stored (before ++ set_done t false :: after))
    /\ load_store (stored (before ++ set_done t false :: after))
       = Ok (before ++ set_done t false :: after).
Proof.
  intros L H. pose proof (load_store_ok f tasks L) as K.
  destruct (mark_first tasks i H) as [before [t [after [Et [Ei [N X]]]]]].
  exists before, t, after.
  subst tasks.
  destruct (save_then_stored (before ++ set_done t true :: after)
              [lit "Marked done: #" ++ repr_int (id (set_done t true))
               ++ lit " " ++ text (set_done t true)]
              (forallb_task_ok_marked _ _ _ true K)) as [S1 L1].
  destruct (save_then_stored (before ++ set_done t false :: after)
              [lit "Marked not done: #" ++ repr_int (id (set_done t false))
               ++ lit " " ++ text (set_done t false)]
              (forallb_task_ok_marked _ _ _ false K)) as [S2 L2].
  cbn [id text set_done] in S1, S2. rewrite Ei in S1, S2.
  split; [reflexivity|]. split; [assumption|]. split; [assumption|].
  split; [intros D; rewrite <- Ei; apply (nodup_ids_after before after t D)|].
  split; [intros value; repeat split|].
  split; [unfold cmd_done, cmd_mark; rewrite L, (X true);
          cbn [id text set_done]; rewrite Ei; exact S1|].
  split; [exact L1|].
  split; [unfold cmd_undone, cmd_mark; rewrite L, (X false);
          cbn [id text set_done]; rewrite Ei; exact S2|].
  exact L2.
Qed.

Lemma cmd_mark_changes_done_only_witness :
  exists before t after,
    call_and_mail = before ++ t :: after
    /\ id t = 2
    /\ ~ In 2 (map id before)
    /\ (NoDup (map id call_and_mail) -> ~ In 2 (map id after))
    /\ (forall value,
          id (set_done t value) = id t
          /\ text (set_done t value) = text t
          /\ due (set_done t value) = due t
          /\ created_at (set_done t value) = created_at t
          /\ done (set_done t value) = value)
    /\ cmd_done 2 two_tasks
       = (Printed [lit "Marked done: #" ++ repr_int 2 ++ lit " " ++ text t],
          stored (before ++ set_done t true :: after))
    /\ load_store (stored (before ++ set_done t true :: after))
       = Ok (before ++ set_done t true :: after)
    /\ cmd_undone 2 two_tasks
       = (Printed [lit "Marked not done: #" ++ repr_int 2 ++ lit " "
                   ++ text t],
          stored (before ++ set_done t false :: after))
    /\ load_store (stored (before ++ set_done t false :: after))
       = Ok (before ++ set_done t false :: after).
Proof.
  apply (cmd_mark_changes_done_only two_tasks call_and_mail 2).
  - vm_compute. reflexivity.
  - simpl. auto.
Defined.

(** ** Ids *)

Lemma fold_left_max_ge l : forall a,
  a <= fold_left Z.max l a /\ forall x, In x l -> x <= fold_left Z.max l a.
Proof.
  induction l as [|y l IH]; intros a; cbn [fold_left].
  - split; [lia|intros x []].
  - destruct (IH (Z.max a y)) as [H1 H2]. split; [lia|].
    intros x [->|H]; [lia|auto].
Qed.

(** [next_id] is above every id of the collection. *)
Lemma next_id_above tasks u : In u tasks -> id u < next_id tasks.
Proof.
  intros H. unfold next_id, max_default.
  apply (in_map id) in H. destruct (map id tasks) as [|x r]; [destruct H|].
  destruct (fold_left_max_ge r x) as [H1 H2].
  destruct H as [<-|H]; [lia|]. specialize (H2 _ H). lia.
Qed.

Lemma nodup_ids_add tasks t :
  NoDup (map id tasks) -> (forall u, In u tasks -> id u < id t) ->
  NoDup (map id (tasks ++ [t])).
Proof.
  intros N A. rewrite map_app. cbn [map].
  apply NoDup_app; [exact N|repeat constructor; intros []|].
  intros x Hx [<-|[]]. apply in_map_iff in Hx.
  destruct Hx as [u [E Hu]]. specialize (A u Hu). lia.
Qed.

Lemma nodup_ids_filter (p : task -> bool) tasks :
  NoDup (map id tasks) -> NoDup (map id (filter p tasks)).
Proof.
  induction tasks as [|t r IH]; [auto|]. cbn [map filter]. intros N.
  inversion N as [|? ? Nt Nr]; subst. destruct (p t); [|auto].
  cbn [map]. constructor; [|auto]. intros X. apply Nt.
  apply in_map_iff in X. destruct X as [u [E Hu]].
  apply filter_In in Hu. apply in_map_iff. exists u. tauto.
Qed.

Lemma forallb_filter {A} (q p : A -> bool) l :
  forallb q l = true -> forallb q (filter p l) = true.
Proof.
  induction l as [|x l IH]; [auto|]. cbn [forallb filter]. intros H.
  apply andb_true_iff in H. destruct H as [H1 H2].
  destruct (p x); [cbn [forallb]; rewrite H1|]; auto.
Qed.

(** ** Texts given on the command line *)

Lemma scalar_str_ok s : forallb scalar s = true -> str_ok s = true.
Proof.
  induction s as [|c s IH]; [reflexivity|]. cbn [forallb str_ok]. intros H.
  apply andb_true_iff in H. destruct H as [H1 H2]. rewrite IH by assumption.
  rewrite andb_true_r. unfold scalar, is_high, in_range in *.
  destruct ((55296 <=? c) && (c <=? 56319)) eqn:E; cbn [andb negb]; lia.
Qed.

Lemma forallb_rev {A} (q : A -> bool) l : forallb q (rev l) = forallb q l.
Proof.
  induction l as [|x l IH]; [reflexivity|]. cbn [rev forallb].
  rewrite forallb_app, IH. cbn [forallb]. rewrite andb_true_r.
  apply andb_comm.
Qed.

Lemma lstrip_scalar s :
  forallb scalar s = true -> forallb scalar (lstrip s) = true.
Proof.
  induction s as [|c s IH]; [reflexivity|]. intros H. cbn [lstrip].
  destruct (is_space c); [|exact H].
  cbn [forallb] in H. apply andb_true_iff in H. tauto.
Qed.

Lemma strip_scalar s :
  forallb scalar s = true -> forallb scalar (strip s) = true.
Proof.
  intros H. unfold strip, rstrip. rewrite forallb_rev.
  apply lstrip_scalar. rewrite forallb_rev. apply lstrip_scalar. exact H.
Qed.

(** ** What each command leaves in the store *)

Lemma cmd_mark_ids value label i f tasks :
  load_store f = Ok tasks ->
  exists tasks',
    load_store (snd (cmd_mark value label i f)) = Ok tasks'
    /\ map id tasks' = map id tasks.
Proof.
  intros L. pose proof (load_store_ok f tasks L) as K.
  unfold cmd_mark. rewrite L.
  destruct (in_dec Z.eq_dec i (map id tasks)) as [H|H].
  - destruct (mark_first tasks i H) as [before [t [after [Et [Ei [N X]]]]]].
    rewrite X. subst tasks.
    destruct (save_then_stored (before ++ set_done t value :: after)
                [label ++ repr_int (id (set_done t value)) ++ lit " "
                 ++ text (set_done t value)]
                (forallb_task_ok_marked _ _ _ value K)) as [S1 L1].
    rewrite S1. cbn [snd]. eexists. split; [exact L1|].
    rewrite !map_app. reflexivity.
  - apply (mark_none tasks i value) in H. rewrite H. cbn [snd].
    exists tasks. auto.
Qed.

Lemma cmd_remove_ids i f tasks :
  load_store f = Ok tasks ->
  NoDup (map id tasks) ->
  exists tasks',
    load_store (snd (cmd_remove i f)) = Ok tasks'
    /\ NoDup (map id tasks')
    /\ (forall x, In x (map id tasks') -> In x (map id tasks)).
Proof.
  intros L N. pose proof (load_store_ok f tasks L) as K.
  unfold cmd_remove. rewrite L.
  destruct (length (filter _ tasks) =? length tasks)%nat.
  - cbn [snd]. exists tasks. auto.
  - destruct (save_then_stored
                (filter (fun t => negb (id t =? i)) tasks)
                [lit "Removed task #" ++ repr_int i ++ lit "."]
                (forallb_filter _ _ _ K)) as [S1 L1].
    rewrite S1. cbn [snd]. eexists. split; [exact L1|]. split.
    + apply nodup_ids_filter. exact N.
    + intros x Hx. apply in_map_iff in Hx. destruct Hx as [u [E Hu]].
      apply filter_In in Hu. apply in_map_iff. exists u. tauto.
Qed.

Lemma cmd_add_ids arg_text arg_due now f tasks :
  load_store f = Ok tasks ->
  forallb scalar arg_text = true ->
  (forall d, arg_due = Some d -> forallb scalar d = true) ->
  forallb scalar now = true ->
  exists t,
    id t = next_id tasks
    /\ load_store (snd (cmd_add arg_text arg_due now f)) = Ok (tasks ++ [t]).
Proof.
  intros L St Sd Sn. pose proof (load_store_ok f tasks L) as K.
  unfold cmd_add. rewrite L.
  set (t := {| id := next_id tasks; text := strip arg_text;
               due := due_arg arg_due; done := false; created_at := now |}).
  assert (Kt : task_ok t = true).
  { unfold task_ok. cbn [text due created_at t].
    rewrite (scalar_str_ok _ (strip_scalar _ St)), (scalar_str_ok _ Sn).
    destruct arg_due as [[|c d]|]; cbn [due_arg]; try reflexivity.
    rewrite (scalar_str_ok _ (strip_scalar _ (Sd _ eq_refl))). reflexivity. }
  assert (K' : forallb task_ok (tasks ++ [t]) = true).
  { rewrite forallb_app, K. cbn [forallb]. rewrite Kt. reflexivity. }
  destruct (save_then_stored (tasks ++ [t])
              [lit "Added #" ++ repr_int (id t) ++ lit ": " ++ text t] K')
    as [S1 L1].
  rewrite S1. cbn [snd]. exists t. split; [reflexivity|exact L1].
Qed.

Lemma filter_length {A} (p : A -> bool) l :
  (length (filter p l) <= length l)%nat.
Proof.
  induction l as [|x l IH]; [auto|]. cbn [filter].
  destruct (p x); cbn [length]; lia.
Qed.

Lemma filter_same_length {A} (p : A -> bool) l :
  length (filter p l) = length l -> forall x, In x l -> p x = true.
Proof.
  induction l as [|y l IH]; [intros _ x []|]. cbn [filter]. intros H x Hx.
  destruct (p y) eqn:E.
  - cbn [length] in H. destruct Hx as [<-|Hx]; [exact E|].
    apply IH; [lia|exact Hx].
  - pose proof (filter_length p l). cbn [length] in H. lia.
Qed.

(** After [cmd_remove], no task of the store has the id given. *)
Lemma cmd_remove_gone i f tasks tasks' :
  load_store f = Ok tasks ->
  load_store (snd (cmd_remove i f)) = Ok tasks' ->
  ~ In i (map id tasks').
Proof.
  intros L. pose proof (load_store_ok f tasks L) as K.
  unfold cmd_remove. rewrite L.
  destruct (length (filter _ tasks) =? length tasks)%nat eqn:E.
  - cbn [snd]. rewrite L. intros X. injection X as <-.
    apply Nat.eqb_eq in E. intros H. apply in_map_iff in H.
    destruct H as [u [Eu Hu]].
    pose proof (filter_same_length _ _ E u Hu) as P. cbn beta in P.
    apply negb_true_iff in P. lia.
  - destruct (save_then_stored
                (filter (fun t => negb (id t =? i)) tasks)
                [lit "Removed task #" ++ repr_int i ++ lit "."]
                (forallb_filter _ _ _ K)) as [S1 L1].
    rewrite S1. cbn [snd]. rewrite L1. intros X. injection X as <-.
    intros H. apply in_map_iff in H. destruct H as [u [Eu Hu]].
    apply filter_In in Hu. destruct Hu as [_ P].
    apply negb_true_iff in P. lia.
Qed.

(** C9 as stated fails: in a store with the tasks 1 and 2, removing the
    task 2 and adding a task gives the new task the id 2 again. *)
Lemma next_id_reuses_removed_counterexample :
  ~ (forall f tasks i arg_text arg_due now tasks'',
       load_store f = Ok tasks ->
       NoDup (map id tasks) ->
       In i (map id tasks) ->
       load_store (snd (cmd_add arg_text arg_due now (snd (cmd_remove i f))))
         = Ok tasks'' ->
       ~ In i (map id tasks'')).
Proof.
  intros H.
  apply (H two_tasks call_and_mail 2 (lit "post") None
           (lit "2026-01-01T10:00:02")
           [ mkTask 1 (lit "call") (Some (lit "9:00")) false
               (lit "2026-01-01T10:00:00");
             mkTask 2 (lit "post") None false (lit "2026-01-01T10:00:02") ]).
  - vm_compute. reflexivity.
  - cbn. repeat constructor; cbn; intuition discriminate.
  - cbn. auto.
  - vm_compute. reflexivity.
  - cbn. auto.
Qed.

(** C9, amended: in a store whose ids are pairwise distinct, add, done,
    undone and remove each leave a store whose ids are pairwise distinct;
    done and undone keep the ids as they are, remove leaves a part of them
    without the id given, and add gives the new task [next_id], which is
    above every id in the store at that time.  So an id that was removed is
    not assigned by an add that follows as long as a task with a larger id
    remains in the store. *)
Theorem commands_keep_ids_distinct (f : file) (tasks : list task) :
  load_store f = Ok tasks ->
  NoDup (map id tasks) ->
  (forall arg_text arg_due now,
     forallb scalar arg_text = true ->
     (forall d, arg_due = Some d -> forallb scalar d = true) ->
     forallb scalar now = true ->
     exists t,
       load_store (snd (cmd_add arg_text arg_due now f)) = Ok (tasks ++ [t])
       /\ NoDup (map id (tasks ++ [t]))
       /\ id t = next_id tasks
       /\ forall x, In x (map id tasks) -> x < id t)
  /\ (forall i, exists tasks',
        load_store (snd (cmd_done i f)) = Ok tasks'
        /\ map id tasks' = map id tasks /\ NoDup (map id tasks'))
  /\ (forall i, exists tasks',
        load_store (snd (cmd_undone i f)) = Ok tasks'
        /\ map id tasks' = map id tasks /\ NoDup (map id tasks'))
  /\ (forall i, exists tasks',
        load_store (snd (cmd_remove i f)) = Ok tasks'
        /\ NoDup (map id tasks')
        /\ ~ In i (map id tasks')
        /\ (forall x, In x (map id tasks') -> In x (map id tasks))
        /\ forall arg_text arg_due now j,
             forallb scalar arg_text = true ->
             (forall d, arg_due = Some d -> forallb scalar d = true) ->
             forallb scalar now = true ->
             In j (map id tasks') -> i <= j ->
             exists t,
               load_store
                 (snd (cmd_add arg_text arg_due now (snd (cmd_remove i f))))
                 = Ok (tasks' ++ [t])
               /\ NoDup (map id (tasks' ++ [t]))
               /\ i < id t).
Proof.
  intros L N.
  assert (A : forall g ts, load_store g = Ok ts -> NoDup (map id ts) ->
            forall arg_text arg_due now,
              forallb scalar arg_text = true ->
              (forall d, arg_due = Some d -> forallb scalar d = true) ->
              forallb scalar now = true ->
              exists t,
                load_store (snd (cmd_add arg_text arg_due now g))
                  = Ok (ts ++ [t])
                /\ NoDup (map id (ts ++ [t]))
                /\ id t = next_id ts
                /\ forall x, In x (map id ts) -> x < id t).
  { intros g ts Lg Ng arg_text arg_due now St Sd Sn.
    destruct (cmd_add_ids arg_text arg_due now g ts Lg St Sd Sn)
      as [t [Et Lt]].
    assert (B : forall u, In u ts -> id u < id t).
    { intros u Hu. rewrite Et. apply next_id_above. exact Hu. }
    exists t. split; [exact Lt|]. split; [apply nodup_ids_add; assumption|].
    split; [exact Et|]. intros x Hx. apply in_map_iff in Hx.
    destruct Hx as [u [<- Hu]]. apply B. exact Hu. }
  assert (M : forall value label i, exists tasks',
            load_store (snd (cmd_mark value label i f)) = Ok tasks'
            /\ map id tasks' = map id tasks /\ NoDup (map id tasks')).
  { intros value label i.
    destruct (cmd_mark_ids value label i f tasks L) as [tasks' [L' E']].
    exists tasks'. split; [exact L'|]. split; [exact E'|].
    rewrite E'. exact N. }
  split; [apply A; assumption|].
  split; [intros i; apply M|].
  split; [intros i; apply M|].
  intros i. destruct (cmd_remove_ids i f tasks L N) as [tasks' [L' [N' S']]].
  exists tasks'. split; [exact L'|]. split; [exact N'|].
  split; [apply (cmd_remove_gone i f tasks tasks' L L')|].
  split; [exact S'|].
  intros arg_text arg_due now j St Sd Sn Hj Lij.
  destruct (A _ _ L' N' arg_text arg_due now St Sd Sn)
    as [t [Lt [Nt [Et Bt]]]].
  exists t. split; [exact Lt|]. split; [exact Nt|].
  specialize (Bt j Hj). lia.
Qed.

Lemma commands_keep_ids_distinct_witness :
  exists t,
    load_store (snd (cmd_add (lit "post") None (lit "2026-01-01T10:00:02")
                       two_tasks)) = Ok (call_and_mail ++ [t])
    /\ NoDup (map id (call_and_mail ++ [t]))
    /\ id t = next_id call_and_mail
    /\ forall x, In x (map id call_and_mail) -> x < id t.
Proof.
  refine (proj1 (commands_keep_ids_distinct two_tasks call_and_mail _ _)
            (lit "post") None (lit "2026-01-01T10:00:02") _ _ _).
  - vm_compute. reflexivity.
  - cbn. repeat constructor; cbn; intuition discriminate.
  - vm_compute. reflexivity.
  - intros d E. discriminate E.
  - vm_compute. reflexivity.
Defined.

(** ** A request that is accepted, and the request for the document *)

Lemma dict_get_ok (d : list (str * json)) k v :
  Forall member_ok d -> dict_get d k = Some v -> json_ok v.
Proof.
  induction d as [|[k' v'] d IH]; [discriminate|]. cbn [dict_get].
  intros F. inversion F as [|? ? [_ Hv] Fd]; subst.
  destruct (str_eqb k' k).
  - intros E. injection E as <-. exact Hv.
  - apply IH. exact Fd.
Qed.

Lemma get_or_empty_ok d k :
  json_ok (JObj d) -> json_ok (get_or_empty d k).
Proof.
  intros H. inversion H as [| | | | | |? N F]; subst. unfold get_or_empty.
  destruct (dict_get d k) as [v|] eqn:E.
  - apply (dict_get_ok d k v F E).
  - constructor. constructor.
Qed.

Lemma workflow_ok tasks edges :
  json_ok (JArr tasks) -> json_ok (JArr edges) ->
  json_ok (workflow tasks edges).
Proof.
  intros Ht He. unfold workflow. constructor.
  - cbn [map fst]. constructor.
    + intros [X|[]]. vm_compute in X. discriminate X.
    + constructor; [intros []|constructor].
  - constructor; [split; [reflexivity|exact Ht]|].
    constructor; [split; [reflexivity|exact He]|constructor].
Qed.

(** The answer to the request for a document that is in the file as
    [_handle_post] writes it. *)
Lemma _handle_get_written v :
  json_ok v ->
  _handle_get (Some (map z2b (dumps_indent 0 v)))
  = Sent (Reply 200
            [ (lit "Content-Type", lit "application/json; charset=utf-8");
              (lit "Content-Length",
               repr_int (Z.of_nat (length (map z2b (dumps v))))) ]
            (map z2b (dumps v))).
Proof.
  intros K. unfold _handle_get.
  destruct (write_read_text _ (dumps_indent_printable v 0%nat K))
    as [_ [R _]].
  rewrite R, (loads_dumps_indent v K). unfold _send_json.
  destruct (write_read_text _ (dumps_printable v K)) as [W _].
  unfold write_text in W. rewrite W. reflexivity.
Qed.

(** C7: a request body that is UTF-8 and a JSON object whose [tasks] and
    [edges], where they are given, are lists is answered with 204 and no
    body, whatever the file held; the file then holds a document that reads
    as the object of the two keys [tasks] and [edges] with the values
    posted, the other keys of the body being dropped; and the request for
    the document that follows is answered with 200 and a body that reads as
    this same object, its length in [Content-Length]. *)
Theorem _handle_post_then_get (raw : bytes) (f : file) (s : str)
  (d : list (str * json)) (tasks edges : list json) :
  Utf8.decode raw = Some s ->
  loads s = Some (JObj d) ->
  get_or_empty d (lit "tasks") = JArr tasks ->
  get_or_empty d (lit "edges") = JArr edges ->
  exists stored written data sent,
    _handle_post raw f = (Sent (Reply 204 [] []), Some stored)
    /\ read_text stored = Some written
    /\ loads written = Some (workflow tasks edges)
    /\ _handle_get (Some stored)
       = Sent (Reply 200
                 [ (lit "Content-Type",
                    lit "application/json; charset=utf-8");
                   (lit "Content-Length",
                    repr_int (Z.of_nat (length data))) ]
                 data)
    /\ Utf8.decode data = Some sent
    /\ loads sent = Some (workflow tasks edges).
Proof.
  intros D L Et Ee.
  pose proof (loads_sound s _ (decode_scalar raw s D) L) as K.
  pose proof (get_or_empty_ok d (lit "tasks") K) as Kt.
  pose proof (get_or_empty_ok d (lit "edges") K) as Ke.
  rewrite Et in Kt. rewrite Ee in Ke.
  pose proof (workflow_ok tasks edges Kt Ke) as Kw.
  exists (map z2b (dumps_indent 0 (workflow tasks edges))),
         (dumps_indent 0 (workflow tasks edges)),
         (map z2b (dumps (workflow tasks edges))),
         (dumps (workflow tasks edges)).
  destruct (write_read_text _ (dumps_indent_printable _ 0%nat Kw))
    as [W [R _]].
  destruct (write_read_text _ (dumps_printable _ Kw)) as [_ [_ Dd]].
  split.
  { unfold _handle_post. rewrite D, L. cbn zeta. rewrite Et, Ee.
    cbn [is_list negb orb]. fold (workflow tasks edges). rewrite W.
    reflexivity. }
  split; [exact R|].
  split; [apply loads_dumps_indent; exact Kw|].
  split; [apply _handle_get_written; exact Kw|].
  split; [exact Dd|].
  apply loads_dumps. exact Kw.
Qed.

Lemma _handle_post_then_get_witness :
  exists stored written data sent,
    _handle_post post_body None = (Sent (Reply 204 [] []), Some stored)
    /\ read_text stored = Some written
    /\ loads written = Some (workflow [JInt 1] [])
    /\ _handle_get (Some stored)
       = Sent (Reply 200
                 [ (lit "Content-Type",
                    lit "application/json; charset=utf-8");
                   (lit "Content-Length",
                    repr_int (Z.of_nat (length data))) ]
                 data)
    /\ Utf8.decode data = Some sent
    /\ loads sent = Some (workflow [JInt 1] []).
Proof.
  refine (_handle_post_then_get post_body None
            (lit "{" ++ quoted (lit "tasks") ++ lit ":[1],"
             ++ quoted (lit "edges") ++ lit ":[]}")
            [(lit "tasks", JArr [JInt 1]); (lit "edges", JArr [])]
            [JInt 1] [] _ _ _ _).
  - vm_compute. reflexivity.
  - vm_compute. reflexivity.
  - vm_compute. reflexivity.
  - vm_compute. reflexivity.
Defined.

(** The two requests on a body with a third key, evaluated: the file and
    the answer hold [tasks] and [edges] only. *)
Lemma _handle_post_drops_other_keys :
  _handle_post post_body_with_view (Some [])
  = (Sent (Reply 204 [] []),
     Some (map z2b (dumps_indent 0 (workflow [JInt 1] []))))
  /\ _handle_get (Some (map z2b (dumps_indent 0 (workflow [JInt 1] []))))
     = Sent (Reply 200
               [ (lit "Content-Type", lit "application/json; charset=utf-8");
                 (lit "Content-Length", lit "27") ]
               (map z2b (lit "{" ++ quoted (lit "tasks") ++ lit ": [1], "
                         ++ quoted (lit "edges") ++ lit ": []}"))).
Proof.
  split; vm_compute; reflexivity.
Qed.

(** A document file that is UTF-8 and JSON is answered with 200: the body
    is the document as [json.dumps] writes it on one line, and
    [Content-Length] is the length of the body. *)
Lemma _handle_get_ok b s v :
  read_text b = Some s -> loads s = Some v ->
  _handle_get (Some b)
  = Sent (Reply 200
            [ (lit "Content-Type", lit "application/json; charset=utf-8");
              (lit "Content-Length",
               repr_int (Z.of_nat (length (map z2b (dumps v))))) ]
            (map z2b (dumps v)))
  /\ Utf8.decode (map z2b (dumps v)) = Some (dumps v)
  /\ loads (dumps v) = Some v.
Proof.
  intros R L.
  pose proof (loads_sound s v (read_text_scalar b s R) L) as K.
  destruct (write_read_text _ (dumps_printable v K)) as [W [_ D]].
  split; [|split; [exact D|apply loads_dumps; exact K]].
  unfold _handle_get. rewrite R, L. unfold _send_json.
  unfold write_text in W. rewrite W. reflexivity.
Qed.

(* ================================================================== *)
(** * The store file: what is saved is what is loaded *)
(* ================================================================== *)

(** What [load_tasks] returns is well formed, whatever the file holds. *)
Lemma load_tasks_sound f v : load_tasks f = Ok v -> json_ok v.
Proof.
  unfold load_tasks. destruct f as [b|].
  - destruct (read_text b) as [s|] eqn:R; [|discriminate].
    destruct (loads s) as [w|] eqn:P; intros E; injection E as <-.
    + apply (loads_sound s w (read_text_scalar b s R) P).
    + constructor. constructor.
  - intros E. injection E as <-. constructor. constructor.
Qed.

(** [save_tasks] followed by [load_tasks] returns the value saved, for
    every JSON value and not only for lists of tasks: the write raises
    nothing and the file reads back as the same value. *)
Theorem save_tasks_then_load_tasks (v : json) :
  json_ok v ->
  fst (save_tasks v) = Ok tt /\ load_tasks (snd (save_tasks v)) = Ok v.
Proof.
  intros K. split; [|apply load_tasks_save_tasks; exact K].
  rewrite (save_tasks_ok v K). reflexivity.
Qed.

Lemma save_tasks_then_load_tasks_witness :
  let v := JArr [ JObj [(lit "tags", JArr [JStr (lit "a"); JNull])];
                  JInt (-3); JBool true ] in
  fst (save_tasks v) = Ok tt /\ load_tasks (snd (save_tasks v)) = Ok v.
Proof.
  apply save_tasks_then_load_tasks.
  constructor. constructor.
  - constructor.
    + cbn [map fst]. constructor; [intros []|constructor].
    + constructor; [|constructor]. split; [reflexivity|]. cbn [snd].
      constructor. constructor; [constructor; reflexivity|].
      constructor; [constructor|constructor].
  - constructor; [constructor|]. constructor; [constructor|constructor].
Defined.

(** Whatever the store file holds, what [load_tasks] returns from it can
    be saved, and the file then written loads as the same value and is the
    file that saving this value writes: one load and save brings any store
    to a form that further loads and saves leave alone. *)
Theorem load_save_load (f : file) (v : json) :
  load_tasks f = Ok v ->
  exists b,
    save_tasks v = (Ok tt, Some b)
    /\ load_tasks (Some b) = Ok v
    /\ (forall w, load_tasks (Some b) = Ok w ->
                  save_tasks w = (Ok tt, Some b)).
Proof.
  intros L. pose proof (load_tasks_sound f v L) as K.
  exists (map z2b (dumps_indent 0 v)).
  pose proof (save_tasks_ok v K) as S.
  pose proof (load_tasks_save_tasks v K) as R.
  rewrite S in R. cbn [snd] in R.
  split; [exact S|]. split; [exact R|].
  intros w E. assert (X : Ok v = Ok w) by (rewrite <- R; exact E).
  injection X as <-. exact S.
Qed.

Lemma load_save_load_witness :
  exists b,
    save_tasks (JArr [JInt 1; JStr (lit "a")]) = (Ok tt, Some b)
    /\ load_tasks (Some b) = Ok (JArr [JInt 1; JStr (lit "a")])
    /\ (forall w, load_tasks (Some b) = Ok w ->
                  save_tasks w = (Ok tt, Some b)).
Proof.
  apply (load_save_load
           (Some (map z2b (lit "[1," ++ quoted (lit "a") ++ lit "]")))).
  vm_compute. reflexivity.
Defined.

(* ================================================================== *)
(** * The commands, one after another *)
(* ================================================================== *)

(** ** [cmd_add] *)

(** What [cmd_add] prints and writes. *)
Lemma cmd_add_stored arg_text arg_due now f tasks :
  load_store f = Ok tasks ->
  forallb scalar arg_text = true ->
  (forall d, arg_due = Some d -> forallb scalar d = true) ->
  forallb scalar now = true ->
  let t := mkTask (next_id tasks) (strip arg_text) (due_arg arg_due) false
             now in
  cmd_add arg_text arg_due now f
  = (Printed [lit "Added #" ++ repr_int (next_id tasks) ++ lit ": "
              ++ strip arg_text], stored (tasks ++ [t]))
  /\ load_store (stored (tasks ++ [t])) = Ok (tasks ++ [t]).
Proof.
  intros L St Sd Sn t. pose proof (load_store_ok f tasks L) as K.
  unfold cmd_add. rewrite L. fold t.
  assert (Kt : task_ok t = true).
  { unfold task_ok. cbn [text due created_at t].
    rewrite (scalar_str_ok _ (strip_scalar _ St)), (scalar_str_ok _ Sn).
    destruct arg_due as [[|c d]|]; cbn [due_arg]; try reflexivity.
    rewrite (scalar_str_ok _ (strip_scalar _ (Sd _ eq_refl))). reflexivity. }
  assert (K' : forallb task_ok (tasks ++ [t]) = true).
  { rewrite forallb_app, K. cbn [forallb]. rewrite Kt. reflexivity. }
  apply (save_then_stored (tasks ++ [t]) _ K').
Qed.

(** [cmd_add] on a store file that is absent, or that is text but not
    JSON, starts a new store: what the file held is dropped, the task
    added gets the id 1 and is the only task of the store written. *)
Theorem cmd_add_starts_new_store (arg_text : str) (arg_due : option str)
  (now : str) (f : file) :
  (f = None
   \/ exists b s, f = Some b /\ read_text b = Some s /\ loads s = None) ->
  forallb scalar arg_text = true ->
  (forall d, arg_due = Some d -> forallb scalar d = true) ->
  forallb scalar now = true ->
  let t := mkTask 1 (strip arg_text) (due_arg arg_due) false now in
  cmd_add arg_text arg_due now f
  = (Printed [lit "Added #1: " ++ strip arg_text], stored [t])
  /\ load_store (stored [t]) = Ok [t].
Proof.
  intros Hf St Sd Sn.
  assert (L : load_store f = Ok []).
  { unfold load_store.
    destruct Hf as [->|[b [s [-> [R P]]]]]; [reflexivity|].
    rewrite (load_tasks_invalid_json b s R P). reflexivity. }
  apply (cmd_add_stored arg_text arg_due now f [] L St Sd Sn).
Qed.

Lemma cmd_add_starts_new_store_witness :
  let t := mkTask 1 (lit "call") (Some (lit "9:00")) false
             (lit "2026-01-01T10:00:00") in
  cmd_add (lit " call ") (Some (lit "9:00")) (lit "2026-01-01T10:00:00")
    (Some (map z2b (lit "[1, 2")))
  = (Printed [lit "Added #1: " ++ strip (lit " call ")], stored [t])
  /\ load_store (stored [t]) = Ok [t].
Proof.
  apply (cmd_add_starts_new_store (lit " call ") (Some (lit "9:00"))
           (lit "2026-01-01T10:00:00") (Some (map z2b (lit "[1, 2")))).
  - right. exists (map z2b (lit "[1, 2")), (lit "[1, 2").
    split; [reflexivity|]. split; vm_compute; reflexivity.
  - vm_compute. reflexivity.
  - intros d E. injection E as <-. vm_compute. reflexivity.
  - vm_compute. reflexivity.
Defined.

(* ================================================================== *)
(** * More on the display order *)
(* ================================================================== *)

Section SortedOrder.
Context {A K : Type} (ltb : K -> K -> bool) (key : A -> K).
Hypothesis ltb_asym : forall a b, ltb a b = true -> ltb b a = false.
Hypothesis leb_trans :
  forall a b c, ltb b a = false -> ltb c b = false -> ltb c a = false.

(** An element not above any element of the list is put at its head. *)
Lemma insert_least x l :
  Forall (key_le ltb key x) l -> insert ltb key x l = x :: l.
Proof.
  intros F. destruct l as [|y l]; [reflexivity|].
  cbn [insert]. inversion F as [|? ? Hy _]; subst.
  unfold key_le in Hy. rewrite Hy. reflexivity.
Qed.

Lemma sorted_fixed l :
  StronglySorted (key_le ltb key) l -> sorted ltb key l = l.
Proof.
  induction 1 as [|x l Hs IH Hx]; [reflexivity|].
  cbn [sorted fold_right]. fold (sorted ltb key l). rewrite IH.
  apply insert_least. exact Hx.
Qed.

Lemma filter_insert (p : A -> bool) x l :
  StronglySorted (key_le ltb key) l ->
  filter p (insert ltb key x l)
  = if p x then insert ltb key x (filter p l) else filter p l.
Proof.
  induction 1 as [|y l Hs IH Hy]; cbn [insert filter].
  - destruct (p x); reflexivity.
  - destruct (ltb (key y) (key x)) eqn:E.
    + cbn [filter]. rewrite IH.
      destruct (p y), (p x); cbn [insert]; try rewrite E; reflexivity.
    + cbn [filter]. destruct (p x); [|reflexivity].
      symmetry. apply insert_least.
      assert (F : Forall (key_le ltb key x) (y :: l)).
      { constructor; [exact E|]. eapply Forall_impl; [|exact Hy].
        intros z Hz. unfold key_le in *. eapply leb_trans; eassumption. }
      change (if p y then y :: filter p l else filter p l)
        with (filter p (y :: l)).
      apply Forall_forall. intros z Hz. apply filter_In in Hz.
      rewrite Forall_forall in F. apply F. tauto.
Qed.

Lemma filter_sorted (p : A -> bool) l :
  filter p (sorted ltb key l) = sorted ltb key (filter p l).
Proof.
  induction l as [|x l IH]; [reflexivity|].
  cbn [sorted fold_right filter]. fold (sorted ltb key l).
  rewrite filter_insert by (apply sorted_sorted; assumption).
  rewrite IH. destruct (p x); reflexivity.
Qed.

End SortedOrder.

(** A list in which no element with the flag comes before one without
    it is its elements without the flag followed by those with it. *)
Lemma flag_split {A} (R : A -> A -> Prop) (flag : A -> bool) l :
  (forall a b, R a b -> flag a = true -> flag b = true) ->
  StronglySorted R l ->
  l = filter (fun x => negb (flag x)) l ++ filter flag l.
Proof.
  intros HR. induction 1 as [|a l Hs IH Ha]; [reflexivity|].
  cbn [filter]. destruct (flag a) eqn:E; cbn [negb app].
  - assert (F : forall x, In x l -> flag x = true).
    { intros x Hx. rewrite Forall_forall in Ha. eapply HR; eauto. }
    assert (N : filter (fun x => negb (flag x)) l = []).
    { clear -F. induction l as [|x l IH]; [reflexivity|]. cbn [filter].
      rewrite (F x (or_introl eq_refl)). cbn [negb].
      apply IH. intros y Hy. apply F. right. exact Hy. }
    assert (Y : filter flag l = l).
    { clear -F. induction l as [|x l IH]; [reflexivity|]. cbn [filter].
      rewrite (F x (or_introl eq_refl)). f_equal.
      apply IH. intros y Hy. apply F. right. exact Hy. }
    rewrite N, Y. reflexivity.
  - f_equal. exact IH.
Qed.

Lemma sort_tasks_sorted tasks :
  StronglySorted (key_le tuple_ltb sort_key) (sort_tasks tasks).
Proof.
  apply (sorted_sorted tuple_ltb sort_key tuple_ltb_asym tuple_leb_trans).
Qed.


(** The display order treats the open and the done tasks apart: taking a
    part of the tasks out, by any test, before or after sorting gives the
    same list, and the sorted list is the open tasks in their display
    order followed by the done tasks in theirs. *)
Theorem sort_tasks_by_parts (tasks : list task) :
  (forall p : task -> bool,
     filter p (sort_tasks tasks) = sort_tasks (filter p tasks))
  /\ sort_tasks tasks
     = sort_tasks (filter (fun t => negb (done t)) tasks)
       ++ sort_tasks (filter done tasks).
Proof.
  assert (F : forall p : task -> bool,
            filter p (sort_tasks tasks) = sort_tasks (filter p tasks)).
  { intros p.
    apply (filter_sorted tuple_ltb sort_key tuple_ltb_asym tuple_leb_trans). }
  split; [exact F|].
  rewrite <- !F.
  apply (flag_split (key_le tuple_ltb sort_key) done).
  - intros a b H. apply (key_le_display a b H).
  - apply sort_tasks_sorted.
Qed.

(** Sorting a list that is in display order leaves it as it is: a second
    [sort_tasks] changes nothing. *)
Theorem sort_tasks_idempotent (tasks : list task) :
  sort_tasks (sort_tasks tasks) = sort_tasks tasks.
Proof.
  apply (sorted_fixed tuple_ltb sort_key). apply sort_tasks_sorted.
Qed.

(** ** [cmd_add] and [cmd_list] *)



(** ** Blank arguments of [cmd_add] *)

Lemma lstrip_blank s : forallb is_space s = true -> lstrip s = [].
Proof.
  induction s as [|c s IH]; [reflexivity|]. cbn [forallb lstrip].
  intros H. apply andb_true_iff in H. destruct H as [H1 H2].
  rewrite H1. apply IH. exact H2.
Qed.

Lemma strip_blank s : forallb is_space s = true -> strip s = [].
Proof.
  intros H. unfold strip, rstrip. rewrite (lstrip_blank s H). reflexivity.
Qed.

Lemma is_space_scalar c : is_space c = true -> scalar c = true.
Proof.
  unfold is_space, scalar, in_range. lia.
Qed.

Lemma blank_scalar s : forallb is_space s = true -> forallb scalar s = true.
Proof.
  induction s as [|c s IH]; [reflexivity|]. cbn [forallb]. intros H.
  apply andb_true_iff in H. destruct H as [H1 H2].
  rewrite (is_space_scalar c H1), (IH H2). reflexivity.
Qed.

(** [cmd_add] does not refuse a blank text or a blank due time: a text of
    white space only (or no text) is stored as the empty text, and a due
    time of white space only is stored as the empty string, which the
    list shows and ranks like no due time. *)
Theorem cmd_add_blank (arg_text : str) (c : Z) (d : str) (now : str)
  (f : file) (tasks : list task) :
  load_store f = Ok tasks ->
  forallb is_space arg_text = true ->
  forallb is_space (c :: d) = true ->
  forallb scalar now = true ->
  let t := mkTask (next_id tasks) [] (Some []) false now in
  cmd_add arg_text (Some (c :: d)) now f
  = (Printed [lit "Added #" ++ repr_int (next_id tasks) ++ lit ": "],
     stored (tasks ++ [t]))
  /\ load_store (stored (tasks ++ [t])) = Ok (tasks ++ [t])
  /\ format_task_line t = lit "[ ] #" ++ repr_int (next_id tasks) ++ lit " "
  /\ parse_due_key (due t) = parse_due_key None.
Proof.
  intros L Bt Bd Sn t.
  destruct (cmd_add_stored arg_text (Some (c :: d)) now f tasks L
              (blank_scalar _ Bt)) as [E R]; [|exact Sn|].
  { intros d' X. injection X as <-. apply blank_scalar. exact Bd. }
  cbn [due_arg] in E, R. rewrite (strip_blank _ Bt) in E, R.
  rewrite (strip_blank _ Bd) in E, R. rewrite app_nil_r in E.
  split; [exact E|]. split; [exact R|]. split; [|reflexivity].
  unfold format_task_line. cbn [done id text due t due_suffix].
  rewrite !app_nil_r. reflexivity.
Qed.

Lemma cmd_add_blank_witness :
  let t := mkTask (next_id call_and_mail) [] (Some []) false
             (lit "2026-01-01T10:00:02") in
  cmd_add (lit "  ") (Some (32 :: lit " ")) (lit "2026-01-01T10:00:02")
    two_tasks
  = (Printed [lit "Added #" ++ repr_int (next_id call_and_mail) ++ lit ": "],
     stored (call_and_mail ++ [t]))
  /\ load_store (stored (call_and_mail ++ [t])) = Ok (call_and_mail ++ [t])
  /\ format_task_line t
     = lit "[ ] #" ++ repr_int (next_id call_and_mail) ++ lit " "
  /\ parse_due_key (due t) = parse_due_key None.
Proof.
  apply (cmd_add_blank (lit "  ") 32 (lit " ") (lit "2026-01-01T10:00:02")
           two_tasks call_and_mail).
  - vm_compute. reflexivity.
  - vm_compute. reflexivity.
  - vm_compute. reflexivity.
  - vm_compute. reflexivity.
Defined.

(** ** Ids of tasks added one after another *)

Lemma fold_left_max_lt l : forall a x,
  a < x -> (forall y, In y l -> y < x) -> fold_left Z.max l a < x.
Proof.
  induction l as [|z l IH]; intros a x Ha Hl; cbn [fold_left]; [exact Ha|].
  apply IH.
  - pose proof (Hl z (or_introl eq_refl)). lia.
  - intros y Hy. apply Hl. right. exact Hy.
Qed.

Lemma next_id_after tasks t :
  (forall u, In u tasks -> id u < id t) ->
  next_id (tasks ++ [t]) = id t + 1.
Proof.
  intros H. unfold next_id. f_equal. rewrite map_app. cbn [map].
  destruct tasks as [|a r]; [reflexivity|].
  cbn [map app max_default]. rewrite fold_left_app. cbn [fold_left].
  assert (X : fold_left Z.max (map id r) (id a) < id t).
  { apply fold_left_max_lt.
    - apply H. left. reflexivity.
    - intros y Hy. apply in_map_iff in Hy. destruct Hy as [u [<- Hu]].
      apply H. right. exact Hu. }
  lia.
Qed.

(** Two tasks added one after the other get ids that follow each other,
    and both are at the end of the store in the order they were added. *)
Theorem cmd_add_twice (text1 text2 : str) (due1 due2 : option str)
  (now1 now2 : str) (f : file) (tasks : list task) :
  load_store f = Ok tasks ->
  forallb scalar text1 = true -> forallb scalar text2 = true ->
  (forall d, due1 = Some d -> forallb scalar d = true) ->
  (forall d, due2 = Some d -> forallb scalar d = true) ->
  forallb scalar now1 = true -> forallb scalar now2 = true ->
  load_store
    (snd (cmd_add text2 due2 now2 (snd (cmd_add text1 due1 now1 f))))
  = Ok (tasks
        ++ [ mkTask (next_id tasks) (strip text1) (due_arg due1) false now1;
             mkTask (next_id tasks + 1) (strip text2) (due_arg due2) false
               now2 ]).
Proof.
  intros L S1 S2 D1 D2 N1 N2.
  destruct (cmd_add_stored text1 due1 now1 f tasks L S1 D1 N1) as [E1 R1].
  rewrite E1. cbn [snd].
  destruct (cmd_add_stored text2 due2 now2 _ _ R1 S2 D2 N2) as [E2 R2].
  rewrite E2. cbn [snd]. rewrite R2.
  rewrite next_id_after.
  - cbn [id]. rewrite <- app_assoc. reflexivity.
  - intros u Hu. cbn [id]. apply next_id_above. exact Hu.
Qed.

Lemma cmd_add_twice_witness :
  load_store
    (snd (cmd_add (lit "mail") None (lit "2026-01-01T10:00:01")
            (snd (cmd_add (lit "call") (Some (lit "9:00"))
                    (lit "2026-01-01T10:00:00") None))))
  = Ok ([]
        ++ [ mkTask (next_id []) (strip (lit "call"))
               (due_arg (Some (lit "9:00"))) false (lit "2026-01-01T10:00:00");
             mkTask (next_id [] + 1) (strip (lit "mail")) (due_arg None)
               false (lit "2026-01-01T10:00:01") ]).
Proof.
  apply (cmd_add_twice (lit "call") (lit "mail") (Some (lit "9:00")) None
           (lit "2026-01-01T10:00:00") (lit "2026-01-01T10:00:01") None []).
  - reflexivity.
  - vm_compute. reflexivity.
  - vm_compute. reflexivity.
  - intros d E. injection E as <-. vm_compute. reflexivity.
  - intros d E. discriminate E.
  - vm_compute. reflexivity.
  - vm_compute. reflexivity.
Defined.

(** ** [cmd_remove] and the commands that follow it *)

Lemma filter_other_ids i tasks :
  ~ In i (map id (filter (fun t => negb (id t =? i)) tasks)).
Proof.
  intros H. apply in_map_iff in H. destruct H as [u [Eu Hu]].
  apply filter_In in Hu. destruct Hu as [_ P].
  apply negb_true_iff in P. lia.
Qed.

Lemma filter_all {A} (p : A -> bool) l :
  (forall x, In x l -> p x = true) -> filter p l = l.
Proof.
  induction l as [|x l IH]; [reflexivity|]. intros H. cbn [filter].
  rewrite (H x (or_introl eq_refl)). f_equal. apply IH.
  intros y Hy. apply H. right. exact Hy.
Qed.

Lemma remove_absent i tasks :
  ~ In i (map id tasks) ->
  filter (fun t => negb (id t =? i)) tasks = tasks.
Proof.
  intros N. apply filter_all. intros x Hx. apply negb_true_iff.
  apply Z.eqb_neq. intros E. apply N. apply in_map_iff. exists x. auto.
Qed.

(** [cmd_remove] of an id of the store takes out every task with this id
    and keeps the other tasks in their order; after it the id is not in
    the store: a second [cmd_remove], [cmd_done] and [cmd_undone] of the
    id report that the task is not found and leave the file. *)
Theorem cmd_remove_then_not_found (f : file) (tasks : list task) (i : Z) :
  load_store f = Ok tasks ->
  In i (map id tasks) ->
  let rest := filter (fun t => negb (id t =? i)) tasks in
  cmd_remove i f
  = (Printed [lit "Removed task #" ++ repr_int i ++ lit "."], stored rest)
  /\ load_store (stored rest) = Ok rest
  /\ cmd_remove i (stored rest) = (Printed [not_found i], stored rest)
  /\ cmd_done i (stored rest) = (Printed [not_found i], stored rest)
  /\ cmd_undone i (stored rest) = (Printed [not_found i], stored rest).
Proof.
  intros L H rest. pose proof (load_store_ok f tasks L) as K.
  assert (Kr : forallb task_ok rest = true) by (apply forallb_filter; exact K).
  destruct (save_then_stored rest
              [lit "Removed task #" ++ repr_int i ++ lit "."] Kr) as [S1 L1].
  assert (N : ~ In i (map id rest)) by apply filter_other_ids.
  split; [|split; [exact L1|split; [|split]]].
  - unfold cmd_remove. rewrite L. fold rest.
    destruct (length rest =? length tasks)%nat eqn:E; [|exact S1].
    exfalso. apply Nat.eqb_eq in E. apply in_map_iff in H.
    destruct H as [u [Eu Hu]].
    pose proof (filter_same_length _ _ E u Hu) as P. cbn beta in P.
    apply negb_true_iff in P. lia.
  - unfold cmd_remove. rewrite L1. rewrite (remove_absent i rest N).
    rewrite Nat.eqb_refl. reflexivity.
  - unfold cmd_done, cmd_mark. rewrite L1.
    apply (mark_none rest i true) in N. rewrite N. reflexivity.
  - unfold cmd_undone, cmd_mark. rewrite L1.
    apply (mark_none rest i false) in N. rewrite N. reflexivity.
Qed.

Lemma cmd_remove_then_not_found_witness :
  let rest := filter (fun t => negb (id t =? 1)) call_and_mail in
  cmd_remove 1 two_tasks
  = (Printed [lit "Removed task #" ++ repr_int 1 ++ lit "."], stored rest)
  /\ load_store (stored rest) = Ok rest
  /\ cmd_remove 1 (stored rest) = (Printed [not_found 1], stored rest)
  /\ cmd_done 1 (stored rest) = (Printed [not_found 1], stored rest)
  /\ cmd_undone 1 (stored rest) = (Printed [not_found 1], stored rest).
Proof.
  apply (cmd_remove_then_not_found two_tasks call_and_mail 1).
  - vm_compute. reflexivity.
  - simpl. auto.
Defined.

(** ** [cmd_done] and [cmd_undone], one after another *)

Lemma mark_at before t after value :
  ~ In (id t) (map id before) ->
  mark (before ++ t :: after) (id t) value
  = Some (before ++ set_done t value :: after, set_done t value).
Proof.
  induction before as [|u before IH]; intros N; cbn [app mark].
  - rewrite Z.eqb_refl. reflexivity.
  - cbn [map] in N. destruct (id u =? id t) eqn:E.
    + exfalso. apply N. left. lia.
    + rewrite IH; [reflexivity|]. intros X. apply N. right. exact X.
Qed.

Lemma set_done_set_done t v w : set_done (set_done t v) w = set_done t w.
Proof. reflexivity. Qed.

Lemma set_done_same t : set_done t (done t) = t.
Proof. destruct t. reflexivity. Qed.

(** The file after a mark of a task of the store. *)
Lemma cmd_mark_stored value label i f before t after :
  load_store f = Ok (before ++ t :: after) ->
  id t = i -> ~ In i (map id before) ->
  snd (cmd_mark value label i f)
  = stored (before ++ set_done t value :: after)
  /\ load_store (stored (before ++ set_done t value :: after))
     = Ok (before ++ set_done t value :: after).
Proof.
  intros L Ei N. pose proof (load_store_ok _ _ L) as K. subst i.
  unfold cmd_mark. rewrite L, (mark_at before t after value N).
  destruct (save_then_stored (before ++ set_done t value :: after)
              [label ++ repr_int (id (set_done t value)) ++ lit " "
               ++ text (set_done t value)]
              (forallb_task_ok_marked _ _ _ value K)) as [S1 L1].
  rewrite S1. split; [reflexivity|exact L1].
Qed.

(** Of two marks of the same task the second decides: [cmd_done] and
    [cmd_undone] of an id, one after the other in any combination, leave
    the file that the second alone would write.  On a store written by
    [save_tasks] in which the tasks with this id are open, [cmd_done]
    followed by [cmd_undone] gives back the file, byte for byte. *)
Theorem cmd_mark_last_wins (f : file) (tasks : list task) (i : Z) :
  load_store f = Ok tasks ->
  In i (map id tasks) ->
  snd (cmd_done i (snd (cmd_done i f))) = snd (cmd_done i f)
  /\ snd (cmd_undone i (snd (cmd_undone i f))) = snd (cmd_undone i f)
  /\ snd (cmd_undone i (snd (cmd_done i f))) = snd (cmd_undone i f)
  /\ snd (cmd_done i (snd (cmd_undone i f))) = snd (cmd_done i f)
  /\ ((forall t, In t tasks -> id t = i -> done t = false) ->
      snd (cmd_undone i (snd (cmd_done i (stored tasks)))) = stored tasks).
Proof.
  intros L H. pose proof (load_store_ok f tasks L) as K.
  destruct (mark_first tasks i H) as [before [t [after [Et [Ei [N _]]]]]].
  subst tasks.
  assert (A : forall v w l1 l2,
            snd (cmd_mark w l2 i (snd (cmd_mark v l1 i f)))
            = snd (cmd_mark w l2 i f)).
  { intros v w l1 l2.
    destruct (cmd_mark_stored v l1 i f before t after L Ei N) as [E1 R1].
    rewrite E1.
    destruct (cmd_mark_stored w l2 i _ before (set_done t v) after R1 Ei N)
      as [E2 _].
    destruct (cmd_mark_stored w l2 i f before t after L Ei N) as [E3 _].
    rewrite E2, E3. reflexivity. }
  split; [apply A|]. split; [apply A|]. split; [apply A|].
  split; [apply A|].
  intros Open.
  destruct (save_then_stored _ [] K) as [_ R0].
  unfold cmd_undone, cmd_done.
  destruct (cmd_mark_stored true (lit "Marked done: #") i _ before t after
              R0 Ei N) as [E1 R1].
  rewrite E1.
  destruct (cmd_mark_stored false (lit "Marked not done: #") i _ before
              (set_done t true) after R1 Ei N) as [E2 _].
  rewrite E2. rewrite set_done_set_done.
  rewrite <- (Open t); [|apply in_or_app; right; left; reflexivity|exact Ei].
  rewrite set_done_same. reflexivity.
Qed.

Lemma cmd_mark_last_wins_witness :
  snd (cmd_done 2 (snd (cmd_done 2 two_tasks))) = snd (cmd_done 2 two_tasks)
  /\ snd (cmd_undone 2 (snd (cmd_undone 2 two_tasks)))
     = snd (cmd_undone 2 two_tasks)
  /\ snd (cmd_undone 2 (snd (cmd_done 2 two_tasks)))
     = snd (cmd_undone 2 two_tasks)
  /\ snd (cmd_done 2 (snd (cmd_undone 2 two_tasks)))
     = snd (cmd_done 2 two_tasks)
  /\ ((forall t, In t call_and_mail -> id t = 2 -> done t = false) ->
      snd (cmd_undone 2 (snd (cmd_done 2 (stored call_and_mail))))
      = stored call_and_mail).
Proof.
  apply (cmd_mark_last_wins two_tasks call_and_mail 2).
  - vm_compute. reflexivity.
  - simpl. auto.
Defined.

(** ** Marks of different tasks *)

Lemma mark_ids tasks i value :
  forall l t, mark tasks i value = Some (l, t) -> map id l = map id tasks.
Proof.
  induction tasks as [|u r IH]; intros l t; cbn [mark]; [discriminate|].
  destruct (id u =? i).
  - intros E. injection E as <- _. reflexivity.
  - destruct (mark r i value) as [[r' u']|]; [|discriminate].
    intros E. injection E as <- _. cbn [map]. f_equal.
    apply (IH r' u'). reflexivity.
Qed.

Lemma mark_commute tasks i j v w :
  i <> j ->
  forall l1 t1 l2 t2,
    mark tasks i v = Some (l1, t1) ->
    mark tasks j w = Some (l2, t2) ->
    exists l, mark l1 j w = Some (l, t2) /\ mark l2 i v = Some (l, t1).
Proof.
  intros D. induction tasks as [|u r IH]; intros l1 t1 l2 t2; cbn [mark];
    [discriminate|].
  destruct (id u =? i) eqn:Ei; destruct (id u =? j) eqn:Ej;
    try (exfalso; lia).
  - intros E1. injection E1 as <- <-.
    destruct (mark r j w) as [[r' u']|] eqn:M; [|discriminate].
    intros E2. injection E2 as <- <-.
    exists (set_done u v :: r'). cbn [mark id set_done]. rewrite Ei, Ej, M.
    split; reflexivity.
  - destruct (mark r i v) as [[r' u']|] eqn:M; [|discriminate].
    intros E1. injection E1 as <- <-.
    intros E2. injection E2 as <- <-.
    exists (set_done u w :: r'). cbn [mark id set_done]. rewrite Ei, Ej, M.
    split; reflexivity.
  - destruct (mark r i v) as [[r1 u1]|] eqn:M1; [|discriminate].
    intros E1. injection E1 as <- <-.
    destruct (mark r j w) as [[r2 u2]|] eqn:M2; [|discriminate].
    intros E2. injection E2 as <- <-.
    destruct (IH r1 u1 r2 u2 eq_refl eq_refl) as [l [A B]].
    exists (u :: l). cbn [mark]. rewrite Ei, Ej, A, B. split; reflexivity.
Qed.

Lemma mark_task_ok tasks i value :
  forall l t, mark tasks i value = Some (l, t) ->
  forallb task_ok tasks = true -> forallb task_ok l = true.
Proof.
  induction tasks as [|u r IH]; intros l t; cbn [mark]; [discriminate|].
  cbn [forallb]. destruct (id u =? i).
  - intros E. injection E as <- _. cbn [forallb].
    rewrite task_ok_set_done. auto.
  - destruct (mark r i value) as [[r' u']|]; [|discriminate].
    intros E K. injection E as <- _. cbn [forallb].
    apply andb_true_iff in K. destruct K as [K1 K2].
    rewrite K1. apply (IH r' u' eq_refl K2).
Qed.

(** The file and the store after a mark, found or not. *)
Lemma cmd_mark_run value label i f tasks :
  load_store f = Ok tasks ->
  match mark tasks i value with
  | Some (l, _) =>
      snd (cmd_mark value label i f) = stored l
      /\ load_store (stored l) = Ok l
  | None => snd (cmd_mark value label i f) = f
  end.
Proof.
  intros L. pose proof (load_store_ok f tasks L) as K.
  unfold cmd_mark. rewrite L.
  destruct (mark tasks i value) as [[l t]|] eqn:M; [|reflexivity].
  destruct (save_then_stored l
              [label ++ repr_int (id t) ++ lit " " ++ text t]
              (mark_task_ok tasks i value l t M K)) as [S1 L1].
  rewrite S1. split; [reflexivity|exact L1].
Qed.

(** Marks of two different ids can be given in either order: the file
    after [cmd_done] or [cmd_undone] of one id and then of another is the
    file after the two commands in the other order, whether the ids are
    in the store or not. *)
Theorem cmd_marks_commute (f : file) (tasks : list task) (i j : Z) :
  load_store f = Ok tasks ->
  i <> j ->
  snd (cmd_done j (snd (cmd_done i f)))
  = snd (cmd_done i (snd (cmd_done j f)))
  /\ snd (cmd_undone j (snd (cmd_done i f)))
     = snd (cmd_done i (snd (cmd_undone j f)))
  /\ snd (cmd_undone j (snd (cmd_undone i f)))
     = snd (cmd_undone i (snd (cmd_undone j f))).
Proof.
  intros L D.
  assert (A : forall v w lv lw,
            snd (cmd_mark w lw j (snd (cmd_mark v lv i f)))
            = snd (cmd_mark v lv i (snd (cmd_mark w lw j f)))).
  { intros v w lv lw.
    pose proof (cmd_mark_run v lv i f tasks L) as R1.
    pose proof (cmd_mark_run w lw j f tasks L) as R2.
    destruct (mark tasks i v) as [[l1 t1]|] eqn:M1;
      destruct (mark tasks j w) as [[l2 t2]|] eqn:M2.
    - destruct R1 as [E1 L1]. destruct R2 as [E2 L2]. rewrite E1, E2.
      destruct (mark_commute tasks i j v w D l1 t1 l2 t2 M1 M2)
        as [l [A B]].
      pose proof (cmd_mark_run w lw j _ l1 L1) as R3. rewrite A in R3.
      pose proof (cmd_mark_run v lv i _ l2 L2) as R4. rewrite B in R4.
      destruct R3 as [E3 _]. destruct R4 as [E4 _]. congruence.
    - destruct R1 as [E1 L1]. rewrite E1, R2.
      pose proof (cmd_mark_run w lw j _ l1 L1) as R3.
      assert (N : mark l1 j w = None).
      { apply mark_none. rewrite (mark_ids tasks i v l1 t1 M1).
        apply mark_none in M2. exact M2. }
      rewrite N in R3. rewrite R3. symmetry. exact E1.
    - destruct R2 as [E2 L2]. rewrite E2, R1.
      pose proof (cmd_mark_run v lv i _ l2 L2) as R4.
      assert (N : mark l2 i v = None).
      { apply mark_none. rewrite (mark_ids tasks j w l2 t2 M2).
        apply mark_none in M1. exact M1. }
      rewrite N in R4. rewrite R4. exact E2.
    - rewrite R1, R2, R1. reflexivity. }
  split; [apply A|]. split; apply A.
Qed.

Lemma cmd_marks_commute_witness :
  snd (cmd_done 2 (snd (cmd_done 1 two_tasks)))
  = snd (cmd_done 1 (snd (cmd_done 2 two_tasks)))
  /\ snd (cmd_undone 2 (snd (cmd_done 1 two_tasks)))
     = snd (cmd_done 1 (snd (cmd_undone 2 two_tasks)))
  /\ snd (cmd_undone 2 (snd (cmd_undone 1 two_tasks)))
     = snd (cmd_undone 1 (snd (cmd_undone 2 two_tasks))).
Proof.
  apply (cmd_marks_commute two_tasks call_and_mail 1 2).
  - vm_compute. reflexivity.
  - discriminate.
Defined.

(* ================================================================== *)
(** * More on due times *)
(* ================================================================== *)

Section ClockTexts.
Import Strptime.

Lemma consumes_two (ok pa pb : Z -> bool) :
  (forall a, pa a = true -> ok a = true) ->
  (forall b, pb b = true -> ok b = true) ->
  consumes ok (two pa pb).
Proof.
  intros Ha Hb s x r. unfold two.
  destruct s as [|a [|b s]]; cbn [In]; try contradiction.
  destruct (pa a) eqn:Ea; cbn [andb In]; [|contradiction].
  destruct (pb b) eqn:Eb; cbn [In]; [|contradiction].
  intros [E|[]]. injection E as _ <-. exists [a; b].
  split; [reflexivity|]. cbn [forallb]. rewrite (Ha a Ea), (Hb b Eb).
  reflexivity.
Qed.

Lemma consumes_one (ok pa : Z -> bool) :
  (forall a, pa a = true -> ok a = true) -> consumes ok (one pa).
Proof.
  intros Ha s x r. unfold one. destruct s as [|a s]; cbn [In];
    try contradiction.
  destruct (pa a) eqn:Ea; cbn [In]; [|contradiction].
  intros [E|[]]. injection E as _ <-. exists [a].
  split; [reflexivity|]. cbn [forallb]. rewrite (Ha a Ea). reflexivity.
Qed.

Lemma consumes_char (ok : Z -> bool) c :
  ok c = true -> consumes ok (char c).
Proof.
  intros Hc s x r. unfold char. destruct s as [|a s]; cbn [In];
    try contradiction.
  destruct (a =? c) eqn:Ea; cbn [In]; [|contradiction].
  intros [E|[]]. injection E as _ <-. exists [a].
  split; [reflexivity|]. cbn [forallb]. apply Z.eqb_eq in Ea. subst a.
  rewrite Hc. reflexivity.
Qed.

Lemma consumes_alt {A} (ok : Z -> bool) (ms : list (matcher A)) :
  Forall (consumes ok) ms -> consumes ok (alt ms).
Proof.
  intros F s x r H. unfold alt in H. apply in_flat_map in H.
  destruct H as [m [Hm H]]. rewrite Forall_forall in F.
  apply (F m Hm s x r H).
Qed.

Lemma consumes_seq {A B} (ok : Z -> bool) (m1 : matcher A) (m2 : matcher B) :
  consumes ok m1 -> consumes ok m2 -> consumes ok (seq m1 m2).
Proof.
  intros C1 C2 s [a b] r H. apply in_seq in H. destruct H as [r1 [H1 H2]].
  destruct (C1 s a r1 H1) as [p1 [E1 O1]].
  destruct (C2 r1 b r H2) as [p2 [E2 O2]].
  exists (p1 ++ p2). split.
  - rewrite <- app_assoc, <- E2. exact E1.
  - rewrite forallb_app, O1, O2. reflexivity.
Qed.

Lemma letter_not_space c :
  (upper_char c =? 77) || (upper_char c =? 65) || (upper_char c =? 80) = true ->
  not_space c = true.
Proof.
  unfold upper_char, not_space, is_space.
  destruct (in_range 97 122 c) eqn:R; unfold in_range in *; lia.
Qed.

Lemma consumes_re_p : consumes not_space re_p.
Proof.
  intros s x r. unfold re_p. destruct s as [|a [|m s]]; cbn [In];
    try contradiction.
  destruct (upper_char m =? 77) eqn:Em; cbn [andb];
    [|contradiction].
  assert (Nm : not_space m = true).
  { apply letter_not_space. rewrite Em. reflexivity. }
  destruct (upper_char a =? 65) eqn:Ea.
  - intros [E|[]]. injection E as _ <-. exists [a; m].
    split; [reflexivity|]. cbn [forallb]. rewrite Nm.
    rewrite letter_not_space; [reflexivity|]. rewrite Ea.
    rewrite orb_true_r. reflexivity.
  - destruct (upper_char a =? 80) eqn:Ep; cbn [In]; [|contradiction].
    intros [E|[]]. injection E as _ <-. exists [a; m].
    split; [reflexivity|]. cbn [forallb]. rewrite Nm.
    rewrite letter_not_space; [reflexivity|]. rewrite Ep.
    rewrite orb_true_r. reflexivity.
Qed.

Lemma decimal_runs_no_space :
  forallb (fun z =>
    forallb (fun k => not_space (z + k)) [0; 1; 2; 3; 4; 5; 6; 7; 8; 9])
    decimal_zeros = true.
Proof. vm_compute. reflexivity. Qed.

(** No decimal digit is white space. *)
Lemma decimal_not_space c : is_decimal c = true -> not_space c = true.
Proof.
  unfold is_decimal. destruct (decimal_zero c) as [z|] eqn:E; [|discriminate].
  intros _. apply decimal_zero_some in E. destruct E as [I R].
  pose proof decimal_runs_no_space as T. rewrite forallb_forall in T.
  specialize (T z I). cbn beta in T. rewrite forallb_forall in T.
  replace c with (z + (c - z)) by lia. apply T.
  assert (X : c - z = 0 \/ c - z = 1 \/ c - z = 2 \/ c - z = 3 \/ c - z = 4
              \/ c - z = 5 \/ c - z = 6 \/ c - z = 7 \/ c - z = 8
              \/ c - z = 9) by lia.
  cbn [In]. intuition auto.
Qed.

Ltac digits_not_space :=
  first [ exact decimal_not_space
        | intros ?; unfold not_space, is_space, in_range; lia ].

Lemma consumes_re_H : consumes not_space re_H.
Proof.
  apply consumes_alt.
  repeat (apply Forall_cons || apply Forall_nil);
    (apply consumes_two || apply consumes_one); digits_not_space.
Qed.

Lemma consumes_re_M : consumes not_space re_M.
Proof.
  apply consumes_alt.
  repeat (apply Forall_cons || apply Forall_nil);
    (apply consumes_two || apply consumes_one); digits_not_space.
Qed.

Lemma consumes_re_I : consumes not_space re_I.
Proof.
  apply consumes_alt.
  repeat (apply Forall_cons || apply Forall_nil);
    (apply consumes_two || apply consumes_one); digits_not_space.
Qed.

Lemma full_match_consumes {A} (m : matcher A) s a :
  consumes not_space m -> full_match m s = Some a ->
  forallb not_space s = true.
Proof.
  intros C E. apply full_match_in in E. destruct (C s a [] E) as [p [-> O]].
  rewrite app_nil_r. exact O.
Qed.

Lemma consumes_colon : consumes not_space (char 58).
Proof. apply consumes_char. reflexivity. Qed.

Lemma first_format_no_space d rank :
  first_format due_formats d = Some rank ->
  forallb not_space (upper d) = true.
Proof.
  unfold due_formats. cbn [first_format].
  unfold strptime_HM, strptime_IMp, strptime_Ip.
  destruct (full_match (seq (seq re_H (char 58)) re_M) (upper d))
    as [[[h u] m]|] eqn:E1.
  { intros _. apply (full_match_consumes _ _ _ (consumes_seq _ _ _
      (consumes_seq _ _ _ consumes_re_H consumes_colon) consumes_re_M) E1). }
  destruct (full_match (seq (seq (seq re_I (char 58)) re_M) re_p) (upper d))
    as [[[[i u] m] pm]|] eqn:E2.
  { intros _. apply (full_match_consumes _ _ _ (consumes_seq _ _ _
      (consumes_seq _ _ _ (consumes_seq _ _ _ consumes_re_I consumes_colon)
         consumes_re_M) consumes_re_p) E2). }
  destruct (full_match (seq re_I re_p) (upper d)) as [[i pm]|] eqn:E3.
  { intros _. apply (full_match_consumes _ _ _
      (consumes_seq _ _ _ consumes_re_I consumes_re_p) E3). }
  discriminate.
Qed.

End ClockTexts.

Lemma is_space_upper c : is_space (upper_char c) = is_space c.
Proof.
  unfold upper_char, is_space, in_range.
  destruct ((97 <=? c) && (c <=? 122)) eqn:E; [|reflexivity]. lia.
Qed.

(** A due text with white space that trimming does not remove, as in
    [2:30 PM], and a due text of white space only are not read as a time
    and are not taken as no due time either: the rank is 999998 and the
    text of the key is the trimmed text. *)
Theorem parse_due_key_white_space (c : Z) (d : str) :
  (forallb is_space (c :: d) = true
   \/ exists x, In x (strip (c :: d)) /\ is_space x = true) ->
  parse_due_key (Some (c :: d)) = (999998, strip (c :: d)).
Proof.
  intros H. rewrite parse_due_key_cons.
  destruct (first_format due_formats (strip (c :: d))) as [rank|] eqn:E;
    [|reflexivity].
  exfalso. destruct H as [B|[x [Hx Sx]]].
  - rewrite (strip_blank _ B) in E. vm_compute in E. discriminate E.
  - apply first_format_no_space in E. unfold upper in E.
    rewrite forallb_forall in E.
    specialize (E (upper_char x) (in_map upper_char _ x Hx)).
    unfold not_space in E. rewrite is_space_upper, Sx in E. discriminate E.
Qed.

Lemma parse_due_key_white_space_witness :
  parse_due_key (Some (lit "2:30 PM")) = (999998, strip (lit "2:30 PM")).
Proof.
  apply (parse_due_key_white_space 50 (lit ":30 PM")).
  right. exists 32. split; [vm_compute; auto 10|reflexivity].
Defined.

(** ** Every minute of the day *)

Lemma in_range_list (n : nat) (h : Z) :
  0 <= h < Z.of_nat n -> In h (map Z.of_nat (List.seq 0 n)).
Proof.
  intros H. apply in_map_iff. exists (Z.to_nat h).
  split; [lia|]. apply List.in_seq. lia.
Qed.

Lemma clock_table :
  forallb (fun h =>
    forallb (fun m =>
      (fst (parse_due_key (Some (clock24 h m))) =? h * 60 + m)
      && (fst (parse_due_key (Some (clock24_padded h m))) =? h * 60 + m)
      && (fst (parse_due_key (Some (clock12 h m))) =? h * 60 + m)
      && (fst (parse_due_key (Some (upper (clock12 h m)))) =? h * 60 + m)
      && (fst (parse_due_key (Some (clock12_hour h))) =? h * 60))
      (map Z.of_nat (List.seq 0 60)))
    (map Z.of_nat (List.seq 0 24)) = true.
Proof. vm_compute. reflexivity. Qed.

(** Every minute of the day is read in each way of writing it: for the
    hour [h] from 0 to 23 and the minute [m] from 0 to 59, the texts
    [h:mm], [hh:mm], and the 12-hour text with [am] or [pm] in lower or
    upper case all rank as [60 h + m], and the 12-hour text of the full
    hour, as in [2pm], ranks as [60 h]; 12am is the hour 0 and 12pm the
    hour 12. *)
Theorem parse_due_key_every_minute (h m : Z) :
  0 <= h <= 23 -> 0 <= m <= 59 ->
  fst (parse_due_key (Some (clock24 h m))) = h * 60 + m
  /\ fst (parse_due_key (Some (clock24_padded h m))) = h * 60 + m
  /\ fst (parse_due_key (Some (clock12 h m))) = h * 60 + m
  /\ fst (parse_due_key (Some (upper (clock12 h m)))) = h * 60 + m
  /\ fst (parse_due_key (Some (clock12_hour h))) = h * 60.
Proof.
  intros Hh Hm. pose proof clock_table as T.
  rewrite forallb_forall in T.
  specialize (T h (in_range_list 24 h ltac:(lia))). cbn beta in T.
  rewrite forallb_forall in T.
  specialize (T m (in_range_list 60 m ltac:(lia))). cbn beta in T.
  repeat (apply andb_true_iff in T; destruct T as [T ?]).
  repeat split; apply Z.eqb_eq; assumption.
Qed.

Lemma parse_due_key_every_minute_witness :
  fst (parse_due_key (Some (clock24 0 5))) = 0 * 60 + 5
  /\ fst (parse_due_key (Some (clock24_padded 0 5))) = 0 * 60 + 5
  /\ fst (parse_due_key (Some (clock12 0 5))) = 0 * 60 + 5
  /\ fst (parse_due_key (Some (upper (clock12 0 5)))) = 0 * 60 + 5
  /\ fst (parse_due_key (Some (clock12_hour 0))) = 0 * 60.
Proof.
  apply (parse_due_key_every_minute 0 5); lia.
Defined.

(* ================================================================== *)
(** * The terminal UI *)
(* ================================================================== *)

(** ** Trimmed texts *)

Lemma lstrip_head s :
  lstrip s = [] \/ exists c r, lstrip s = c :: r /\ is_space c = false.
Proof.
  induction s as [|c s IH]; [left; reflexivity|]. cbn [lstrip].
  destruct (is_space c) eqn:E; [exact IH|].
  right. exists c, s. auto.
Qed.

Lemma lstrip_app c l m :
  is_space c = false -> lstrip (l ++ c :: m) = lstrip l ++ c :: m.
Proof.
  intros N. induction l as [|a l IH]; cbn [app lstrip].
  - rewrite N. reflexivity.
  - destruct (is_space a); [exact IH|reflexivity].
Qed.

Lemma lstrip_lstrip s : lstrip (lstrip s) = lstrip s.
Proof.
  destruct (lstrip_head s) as [E|[c [r [E N]]]]; rewrite E; [reflexivity|].
  cbn [lstrip]. rewrite N. reflexivity.
Qed.

Lemma rstrip_cons c s :
  is_space c = false -> rstrip (c :: s) = c :: rstrip s.
Proof.
  intros N. unfold rstrip. cbn [rev].
  rewrite (lstrip_app c (rev s) [] N), rev_app_distr. reflexivity.
Qed.

Lemma rstrip_rstrip s : rstrip (rstrip s) = rstrip s.
Proof.
  unfold rstrip. rewrite rev_involutive, lstrip_lstrip. reflexivity.
Qed.

(** Trimming a trimmed text changes nothing. *)
Lemma strip_strip s : strip (strip s) = strip s.
Proof.
  unfold strip at 2 3.
  destruct (lstrip_head s) as [E|[c [r [E N]]]]; rewrite E; [reflexivity|].
  rewrite (rstrip_cons c r N). unfold strip. cbn [lstrip]. rewrite N.
  rewrite <- (rstrip_cons c r N). apply rstrip_rstrip.
Qed.

(** [on_button_pressed]: the screen stays open only on Save with a blank
    text; Cancel dismisses it with no result; Save dismisses it with the
    trimmed text, which is not empty and which trimming leaves as it is,
    and with the trimmed due time, or with no due time when this is
    empty. *)
Theorem on_button_pressed_result (b : button) (text_value due_value : str) :
  match on_button_pressed b text_value due_value with
  | Stay => b = SaveButton /\ strip text_value = []
  | Dismiss None => b = CancelButton
  | Dismiss (Some (text, due)) =>
      b = SaveButton
      /\ text = strip text_value /\ text <> [] /\ strip text = text
      /\ match due with
         | None => strip due_value = []
         | Some d => d = strip due_value /\ d <> [] /\ strip d = d
         end
  end.
Proof.
  destruct b; cbn [on_button_pressed]; [|reflexivity].
  destruct (strip text_value) as [|c r] eqn:Et; [auto|].
  split; [reflexivity|]. split; [reflexivity|]. split; [discriminate|].
  split; [rewrite <- Et; apply strip_strip|].
  destruct (strip due_value) as [|e q] eqn:Ed; [reflexivity|].
  split; [reflexivity|]. split; [discriminate|].
  rewrite <- Ed. apply strip_strip.
Qed.

(** ** The selected task *)

Lemma find_id_first tasks i :
  In i (map id tasks) ->
  exists before t after,
    tasks = before ++ t :: after /\ id t = i /\ ~ In i (map id before)
    /\ find (fun u => id u =? i) tasks = Some t.
Proof.
  induction tasks as [|u r IH]; [intros []|]. cbn [map find]. intros H.
  destruct (id u =? i) eqn:E.
  - exists [], u, r. repeat split; [lia|intros []].
  - destruct H as [H|H]; [lia|].
    destruct (IH H) as [before [t [after [Et [Ei [N F]]]]]].
    exists (u :: before), t, after. subst r.
    repeat split; [exact Ei| |exact F].
    intros [X|X]; [lia|exact (N X)].
Qed.

Lemma find_id_none tasks i :
  ~ In i (map id tasks) -> find (fun u => id u =? i) tasks = None.
Proof.
  induction tasks as [|u r IH]; [reflexivity|]. cbn [map find]. intros N.
  destruct (id u =? i) eqn:E.
  - exfalso. apply N. left. lia.
  - apply IH. intros X. apply N. right. exact X.
Qed.

Lemma update_first_at g before t after :
  ~ In (id t) (map id before) ->
  update_first (id t) g (before ++ t :: after) = before ++ g t :: after.
Proof.
  induction before as [|u before IH]; intros N; cbn [app update_first].
  - rewrite Z.eqb_refl. reflexivity.
  - cbn [map] in N. destruct (id u =? id t) eqn:E.
    + exfalso. apply N. left. lia.
    + rewrite IH; [reflexivity|]. intros X. apply N. right. exact X.
Qed.

Lemma forallb_task_ok_updated g before t after :
  task_ok (g t) = true ->
  forallb task_ok (before ++ t :: after) = true ->
  forallb task_ok (before ++ g t :: after) = true.
Proof.
  intros G. rewrite !forallb_app. cbn [forallb]. intros H.
  apply andb_true_iff in H. destruct H as [H1 H2].
  apply andb_true_iff in H2. destruct H2 as [_ H3].
  rewrite H1, G, H3. reflexivity.
Qed.

Lemma save_and_refresh_ok lingering tasks selected_id st :
  forallb task_ok tasks = true ->
  save_and_refresh lingering tasks selected_id st
  = (Ok tt,
     mkUi tasks (stored tasks)
       (fst (refresh_list (lingering (ui_items st)) tasks selected_id))
       (snd (refresh_list (lingering (ui_items st)) tasks selected_id)))
  /\ load_store (stored tasks) = Ok tasks.
Proof.
  intros K. destruct (load_store_saved tasks K) as [S L].
  unfold save_and_refresh. rewrite S. split; [reflexivity|exact L].
Qed.

(** ** The index [refresh_list] sets *)

Lemma first_index_found i its :
  In i (map task_id its) ->
  exists k it,
    first_index i its = Some k /\ nth_error its k = Some it
    /\ task_id it = i
    /\ forall j it', (j < k)%nat -> nth_error its j = Some it' ->
                     task_id it' <> i.
Proof.
  induction its as [|a r IH]; [intros []|]. cbn [map first_index]. intros H.
  destruct (task_id a =? i) eqn:E.
  - exists O, a. repeat split; [lia|]. intros j it' Hj. lia.
  - destruct H as [H|H]; [lia|].
    destruct (IH H) as [k [it [F [Nk [Ei Hl]]]]].
    exists (S k), it. rewrite F. repeat split; [exact Nk|exact Ei|].
    intros [|j] it' Hj; cbn [nth_error].
    + intros X. injection X as <-. lia.
    + apply Hl. lia.
Qed.

Lemma refresh_list_ids pending tasks selected_id :
  map task_id (fst (refresh_list pending tasks selected_id))
  = map id (sort_tasks tasks).
Proof.
  unfold refresh_list. cbn [fst]. rewrite map_map. reflexivity.
Qed.

Lemma first_index_app i pending its :
  ~ In i (map task_id pending) ->
  first_index i (pending ++ its)
  = option_map (fun k => (length pending + k)%nat) (first_index i its).
Proof.
  induction pending as [|a r IH]; intros N.
  - cbn [app length]. destruct (first_index i its); reflexivity.
  - cbn [app first_index length map] in *.
    destruct (task_id a =? i) eqn:E.
    + exfalso. apply N. left. lia.
    + rewrite IH by (intros X; apply N; right; exact X).
      destruct (first_index i its); reflexivity.
Qed.

(** [refresh_list] appends one item for each task, in display order, with
    the line and the id of the task.  When the id given is the id of a
    task, the index it sets is the place, among the children of the list
    view at that time, of the first item with this id: an old item that is
    still a child, if one has this id, and else the first new item with
    the id, whose place is counted after the old items that remain and
    whose line is the line of a task with this id. *)
Theorem refresh_list_selects (pending : list item) (tasks : list task)
  (i : Z) :
  In i (map id tasks) ->
  fst (refresh_list pending tasks (Some i))
  = map (fun t => mkItem (format_task_line t) (id t)) (sort_tasks tasks)
  /\ length (fst (refresh_list pending tasks (Some i))) = length tasks
  /\ (exists k it,
        snd (refresh_list pending tasks (Some i)) = Some k
        /\ nth_error (pending ++ fst (refresh_list pending tasks (Some i))) k
           = Some it
        /\ task_id it = i
        /\ forall j it',
             (j < k)%nat ->
             nth_error (pending ++ fst (refresh_list pending tasks (Some i)))
               j = Some it' ->
             task_id it' <> i)
  /\ (~ In i (map task_id pending) ->
      exists k t,
        snd (refresh_list pending tasks (Some i))
        = Some (length pending + k)%nat
        /\ nth_error (sort_tasks tasks) k = Some t
        /\ In t tasks /\ id t = i
        /\ nth_error (fst (refresh_list pending tasks (Some i))) k
           = Some (mkItem (format_task_line t) i)
        /\ forall j u, (j < k)%nat ->
                       nth_error (sort_tasks tasks) j = Some u -> id u <> i).
Proof.
  intros H.
  pose proof (sorted_perm tuple_ltb sort_key tasks) as P.
  fold (sort_tasks tasks) in P.
  assert (Hs : In i (map task_id
                       (fst (refresh_list pending tasks (Some i))))).
  { rewrite refresh_list_ids.
    apply (Permutation_in _ (Permutation_map id (Permutation_sym P)) H). }
  split; [reflexivity|]. split.
  { unfold refresh_list. cbn [fst].
    rewrite length_map. apply (Permutation_length P). }
  split.
  - assert (Hp : In i (map task_id
                         (pending
                          ++ fst (refresh_list pending tasks (Some i))))).
    { rewrite map_app. apply in_or_app. right. exact Hs. }
    destruct (first_index_found i _ Hp) as [k [it [F [Nk [Ei Hl]]]]].
    exists k, it. split; [exact F|]. split; [exact Nk|].
    split; [exact Ei|exact Hl].
  - intros Np.
    destruct (first_index_found i _ Hs) as [k [it [F [Nk [Ei Hl]]]]].
    unfold refresh_list in *. cbn [fst snd] in *.
    rewrite nth_error_map in Nk.
    destruct (nth_error (sort_tasks tasks) k) as [t|] eqn:Nt; [|discriminate].
    cbn [option_map] in Nk. injection Nk as <-. cbn [task_id] in Ei.
    exists k, t. split.
    { rewrite (first_index_app i pending _ Np), F. reflexivity. }
    split; [exact Nt|].
    split; [apply (Permutation_in _ P); eapply nth_error_In; exact Nt|].
    split; [exact Ei|]. split.
    + rewrite nth_error_map, Nt. cbn [option_map]. rewrite Ei. reflexivity.
    + intros j u Hj Nu.
      apply (Hl j (mkItem (format_task_line u) (id u)) Hj).
      rewrite nth_error_map, Nu. reflexivity.
Qed.

Lemma refresh_list_selects_witness :
  fst (refresh_list [mkItem (lit "[ ] #1 call") 1] call_and_mail (Some 2))
  = map (fun t => mkItem (format_task_line t) (id t))
      (sort_tasks call_and_mail)
  /\ length (fst (refresh_list [mkItem (lit "[ ] #1 call") 1] call_and_mail
                    (Some 2)))
     = length call_and_mail
  /\ (exists k it,
        snd (refresh_list [mkItem (lit "[ ] #1 call") 1] call_and_mail
               (Some 2)) = Some k
        /\ nth_error
             ([mkItem (lit "[ ] #1 call") 1]
              ++ fst (refresh_list [mkItem (lit "[ ] #1 call") 1]
                        call_and_mail (Some 2))) k
           = Some it
        /\ task_id it = 2
        /\ forall j it',
             (j < k)%nat ->
             nth_error
               ([mkItem (lit "[ ] #1 call") 1]
                ++ fst (refresh_list [mkItem (lit "[ ] #1 call") 1]
                          call_and_mail (Some 2))) j = Some it' ->
             task_id it' <> 2)
  /\ (~ In 2 (map task_id [mkItem (lit "[ ] #1 call") 1]) ->
      exists k t,
        snd (refresh_list [mkItem (lit "[ ] #1 call") 1] call_and_mail
               (Some 2))
        = Some (length [mkItem (lit "[ ] #1 call") 1] + k)%nat
        /\ nth_error (sort_tasks call_and_mail) k = Some t
        /\ In t call_and_mail /\ id t = 2
        /\ nth_error (fst (refresh_list [mkItem (lit "[ ] #1 call") 1]
                             call_and_mail (Some 2))) k
           = Some (mkItem (format_task_line t) 2)
        /\ forall j u, (j < k)%nat ->
                       nth_error (sort_tasks call_and_mail) j = Some u ->
                       id u <> 2).
Proof.
  apply (refresh_list_selects [mkItem (lit "[ ] #1 call") 1]
           call_and_mail 2).
  simpl. auto.
Defined.

(** ** The actions *)

Lemma find_at before t after :
  ~ In (id t) (map id before) ->
  find (fun u => id u =? id t) (before ++ t :: after) = Some t.
Proof.
  induction before as [|u before IH]; intros N; cbn [app find].
  - rewrite Z.eqb_refl. reflexivity.
  - cbn [map] in N. destruct (id u =? id t) eqn:E.
    + exfalso. apply N. left. lia.
    + apply IH. intros X. apply N. right. exact X.
Qed.

Lemma in_ids_middle (before : list task) t after :
  In (id t) (map id (before ++ t :: after)).
Proof.
  rewrite map_app. apply in_or_app. right. left. reflexivity.
Qed.

Lemma refresh_list_index pending tasks i :
  In i (map id tasks) ->
  exists k it,
    snd (refresh_list pending tasks (Some i)) = Some k
    /\ nth_error (pending ++ fst (refresh_list pending tasks (Some i))) k
       = Some it
    /\ task_id it = i.
Proof.
  intros H.
  pose proof (sorted_perm tuple_ltb sort_key tasks) as P.
  fold (sort_tasks tasks) in P.
  assert (Hs : In i (map task_id
                       (pending
                        ++ fst (refresh_list pending tasks (Some i))))).
  { rewrite map_app. apply in_or_app. right. rewrite refresh_list_ids.
    apply (Permutation_in _ (Permutation_map id (Permutation_sym P)) H). }
  destruct (first_index_found i _ Hs) as [k [it [F [Nk [Ei _]]]]].
  exists k, it. split; [exact F|]. split; [exact Nk|exact Ei].
Qed.

(** [action_toggle_task] on the highlighted item of a task flips the flag
    of the first task with this id and changes nothing else in the list,
    writes the store, which loads as the new list, appends the items of
    the new list and sets the index on a child of the list view that has
    the same id; a second toggle on this id gives back the tasks as they
    were, and the store file then holds them. *)
Theorem action_toggle_task_twice (lingering : list item -> list item)
  (st : ui) (i : Z) :
  forallb task_ok (ui_tasks st) = true ->
  In i (map id (ui_tasks st)) ->
  exists before t after st1 st2 k it,
    ui_tasks st = before ++ t :: after
    /\ id t = i /\ ~ In i (map id before)
    /\ action_toggle_task lingering (Some i) st = (Ok tt, st1)
    /\ ui_tasks st1 = before ++ set_done t (negb (done t)) :: after
    /\ ui_file st1 = stored (ui_tasks st1)
    /\ load_store (ui_file st1) = Ok (ui_tasks st1)
    /\ ui_items st1
       = map (fun u => mkItem (format_task_line u) (id u))
           (sort_tasks (ui_tasks st1))
    /\ ui_index st1 = Some k
    /\ nth_error (lingering (ui_items st) ++ ui_items st1) k = Some it
    /\ task_id it = i
    /\ action_toggle_task lingering (Some i) st1 = (Ok tt, st2)
    /\ ui_tasks st2 = ui_tasks st
    /\ ui_file st2 = stored (ui_tasks st)
    /\ load_store (ui_file st2) = Ok (ui_tasks st).
Proof.
  intros K H.
  destruct (find_id_first _ i H) as [before [t [after [Et [Ei [N F]]]]]].
  subst i. set (t1 := set_done t (negb (done t))).
  set (tasks1 := before ++ t1 :: after).
  assert (K1 : forallb task_ok tasks1 = true).
  { rewrite Et in K. apply (forallb_task_ok_marked _ _ _ _ K). }
  destruct (save_and_refresh_ok lingering tasks1 (Some (id t)) st K1)
    as [S1 L1].
  set (st1 := mkUi tasks1 (stored tasks1)
                (fst (refresh_list (lingering (ui_items st)) tasks1
                        (Some (id t))))
                (snd (refresh_list (lingering (ui_items st)) tasks1
                        (Some (id t))))) in *.
  assert (A1 : action_toggle_task lingering (Some (id t)) st = (Ok tt, st1)).
  { unfold action_toggle_task, get_selected_task. rewrite F, Et.
    rewrite (update_first_at _ before t after N). exact S1. }
  destruct (refresh_list_index (lingering (ui_items st)) tasks1 (id t)
              (in_ids_middle before t1 after)) as [k [it [Ik [Nk Ek]]]].
  destruct (save_and_refresh_ok lingering (ui_tasks st) (Some (id t)) st1 K)
    as [S2 L2].
  exists before, t, after, st1.
  eexists. exists k, it.
  split; [exact Et|]. split; [reflexivity|]. split; [exact N|].
  split; [exact A1|]. split; [reflexivity|]. split; [reflexivity|].
  split; [exact L1|]. split; [reflexivity|]. split; [exact Ik|].
  split; [exact Nk|]. split; [exact Ek|]. split.
  { unfold action_toggle_task, get_selected_task.
    change (ui_tasks st1) with (before ++ t1 :: after).
    change (id t) with (id t1).
    rewrite (find_at before t1 after N).
    rewrite (update_first_at _ before t1 after N).
    assert (X : set_done t1 (negb (done t1)) = t).
    { unfold t1. destruct t. cbn [set_done done id text due created_at].
      rewrite negb_involutive. reflexivity. }
    rewrite X. change (id t1) with (id t). rewrite <- Et. exact S2. }
  cbn [ui_tasks ui_file]. split; [reflexivity|]. split; [reflexivity|].
  exact L2.
Qed.

Lemma action_toggle_task_twice_witness :
  exists before t after st1 st2 k it,
    call_and_mail = before ++ t :: after
    /\ id t = 2 /\ ~ In 2 (map id before)
    /\ action_toggle_task (fun old => old) (Some 2)
         (mkUi call_and_mail two_tasks
            [mkItem (lit "[ ] #2 mail") 2] None) = (Ok tt, st1)
    /\ ui_tasks st1 = before ++ set_done t (negb (done t)) :: after
    /\ ui_file st1 = stored (ui_tasks st1)
    /\ load_store (ui_file st1) = Ok (ui_tasks st1)
    /\ ui_items st1
       = map (fun u => mkItem (format_task_line u) (id u))
           (sort_tasks (ui_tasks st1))
    /\ ui_index st1 = Some k
    /\ nth_error ([mkItem (lit "[ ] #2 mail") 2] ++ ui_items st1) k
       = Some it
    /\ task_id it = 2
    /\ action_toggle_task (fun old => old) (Some 2) st1 = (Ok tt, st2)
    /\ ui_tasks st2 = call_and_mail
    /\ ui_file st2 = stored call_and_mail
    /\ load_store (ui_file st2) = Ok call_and_mail.
Proof.
  apply (action_toggle_task_twice (fun old => old)
           (mkUi call_and_mail two_tasks
              [mkItem (lit "[ ] #2 mail") 2] None) 2).
  - vm_compute. reflexivity.
  - simpl. auto.
Defined.

Lemma cmd_remove_stored f tasks i :
  load_store f = Ok tasks ->
  In i (map id tasks) ->
  snd (cmd_remove i f) = stored (filter (fun t => negb (id t =? i)) tasks).
Proof.
  intros L H. pose proof (load_store_ok f tasks L) as K.
  destruct (save_then_stored (filter (fun t => negb (id t =? i)) tasks)
              [lit "Removed task #" ++ repr_int i ++ lit "."]
              (forallb_filter _ _ _ K)) as [S1 _].
  unfold cmd_remove. rewrite L.
  destruct (Nat.eqb (length (filter (fun t => negb (id t =? i)) tasks))
              (length tasks)) eqn:E; [|rewrite S1; reflexivity].
  exfalso. apply Nat.eqb_eq in E. apply in_map_iff in H.
  destruct H as [u [Eu Hu]].
  pose proof (filter_same_length _ _ E u Hu) as P. cbn beta in P.
  apply negb_true_iff in P. lia.
Qed.

(** The actions of the UI write the store that the commands write: a
    toggle of a task writes what [cmd_done] writes when the task is open
    and what [cmd_undone] writes when it is done, a delete writes what
    [cmd_remove] writes. *)
Theorem ui_actions_write_as_commands (lingering : list item -> list item)
  (st : ui) (i : Z) :
  load_store (ui_file st) = Ok (ui_tasks st) ->
  In i (map id (ui_tasks st)) ->
  exists t,
    get_selected_task (Some i) (ui_tasks st) = Some t
    /\ ui_file (snd (action_toggle_task lingering (Some i) st))
       = snd ((if done t then cmd_undone i else cmd_done i) (ui_file st))
    /\ ui_file (snd (action_delete_task lingering (Some i) st))
       = snd (cmd_remove i (ui_file st))
    /\ ui_tasks (snd (action_delete_task lingering (Some i) st))
       = filter (fun u => negb (id u =? i)) (ui_tasks st).
Proof.
  intros L H. pose proof (load_store_ok _ _ L) as K.
  destruct (find_id_first _ i H) as [before [t [after [Et [Ei [N F]]]]]].
  exists t. split; [exact F|]. split; [|split].
  - unfold action_toggle_task, get_selected_task. rewrite F.
    rewrite Et in L, K |- *. rewrite Ei.
    rewrite <- Ei in N |- * at 1.
    rewrite (update_first_at _ before t after N). rewrite Ei in N.
    destruct (save_and_refresh_ok lingering
                (before ++ set_done t (negb (done t)) :: after) (Some i) st
                (forallb_task_ok_marked _ _ _ _ K)) as [S1 _].
    rewrite S1. cbn [snd ui_file].
    destruct (done t); cbn [negb]; symmetry.
    + apply (cmd_mark_stored false _ i _ before t after L Ei N).
    + apply (cmd_mark_stored true _ i _ before t after L Ei N).
  - unfold action_delete_task, get_selected_task. rewrite F, Ei.
    destruct (save_and_refresh_ok lingering
                (filter (fun u => negb (id u =? i)) (ui_tasks st)) None st
                (forallb_filter _ _ _ K)) as [S1 _].
    rewrite S1. cbn [snd ui_file].
    rewrite (cmd_remove_stored _ _ i L H). reflexivity.
  - unfold action_delete_task, get_selected_task. rewrite F, Ei.
    destruct (save_and_refresh_ok lingering
                (filter (fun u => negb (id u =? i)) (ui_tasks st)) None st
                (forallb_filter _ _ _ K)) as [S1 _].
    rewrite S1. reflexivity.
Qed.

Lemma ui_actions_write_as_commands_witness :
  exists t,
    get_selected_task (Some 1) call_and_mail = Some t
    /\ ui_file (snd (action_toggle_task (fun old => old) (Some 1)
                       (mkUi call_and_mail two_tasks [] None)))
       = snd ((if done t then cmd_undone 1 else cmd_done 1) two_tasks)
    /\ ui_file (snd (action_delete_task (fun old => old) (Some 1)
                       (mkUi call_and_mail two_tasks [] None)))
       = snd (cmd_remove 1 two_tasks)
    /\ ui_tasks (snd (action_delete_task (fun old => old) (Some 1)
                        (mkUi call_and_mail two_tasks [] None)))
       = filter (fun u => negb (id u =? 1)) call_and_mail.
Proof.
  apply (ui_actions_write_as_commands (fun old => old)
           (mkUi call_and_mail two_tasks [] None) 1).
  - vm_compute. reflexivity.
  - simpl. auto.
Defined.

(** A task added in the UI is stored as [cmd_add] stores it for the same
    text and due time, when the text is not blank and the due time is
    empty or not blank: the screen is dismissed with the trimmed values
    and the store written is the one the command writes. *)
Theorem action_add_task_as_cmd_add (lingering : list item -> list item)
  (st : ui) (text_value due_value now : str) :
  load_store (ui_file st) = Ok (ui_tasks st) ->
  forallb scalar text_value = true ->
  forallb scalar due_value = true ->
  forallb scalar now = true ->
  strip text_value <> [] ->
  (due_value = [] \/ strip due_value <> []) ->
  exists dismissed st',
    on_button_pressed SaveButton text_value due_value = Dismiss dismissed
    /\ action_add_task lingering dismissed now st = (Ok tt, st')
    /\ ui_file st' = snd (cmd_add text_value (Some due_value) now (ui_file st))
    /\ load_store (ui_file st') = Ok (ui_tasks st')
    /\ ui_tasks st'
       = ui_tasks st
         ++ [mkTask (next_id (ui_tasks st)) (strip text_value)
               (due_arg (Some due_value)) false now].
Proof.
  intros L St Sd Sn Nt Nd.
  destruct (cmd_add_stored text_value (Some due_value) now _ _ L St)
    as [E R]; [|exact Sn|].
  { intros d X. injection X as <-. exact Sd. }
  assert (D : due_arg (Some due_value)
              = match strip due_value with
                | [] => None
                | _ => Some (strip due_value)
                end).
  { destruct Nd as [->|Nd]; [reflexivity|].
    destruct due_value as [|c d]; [reflexivity|]. cbn [due_arg].
    destruct (strip (c :: d)); [contradiction|reflexivity]. }
  set (t := mkTask (next_id (ui_tasks st)) (strip text_value)
              (due_arg (Some due_value)) false now) in *.
  assert (K : forallb task_ok (ui_tasks st ++ [t]) = true).
  { apply (load_store_ok _ _ R). }
  destruct (save_and_refresh_ok lingering (ui_tasks st ++ [t]) (Some (id t))
              st K)
    as [S1 L1].
  assert (B : on_button_pressed SaveButton text_value due_value
              = Dismiss (Some (strip text_value, due_arg (Some due_value)))).
  { cbn [on_button_pressed]. rewrite D.
    destruct (strip text_value) as [|c r]; [contradiction|reflexivity]. }
  exists (Some (strip text_value, due_arg (Some due_value))).
  eexists. split; [exact B|]. split; [exact S1|].
  cbn [ui_file ui_tasks]. rewrite E. cbn [snd].
  split; [reflexivity|]. split; [exact L1|reflexivity].
Qed.

Lemma action_add_task_as_cmd_add_witness :
  exists dismissed st',
    on_button_pressed SaveButton (lit " post ") (lit "2pm")
    = Dismiss dismissed
    /\ action_add_task (fun old => old) dismissed (lit "2026-01-01T10:00:02")
         (mkUi call_and_mail two_tasks [] None) = (Ok tt, st')
    /\ ui_file st'
       = snd (cmd_add (lit " post ") (Some (lit "2pm"))
                (lit "2026-01-01T10:00:02") two_tasks)
    /\ load_store (ui_file st') = Ok (ui_tasks st')
    /\ ui_tasks st'
       = call_and_mail
         ++ [mkTask (next_id call_and_mail) (strip (lit " post "))
               (due_arg (Some (lit "2pm"))) false
               (lit "2026-01-01T10:00:02")].
Proof.
  apply (action_add_task_as_cmd_add (fun old => old)
           (mkUi call_and_mail two_tasks [] None)
           (lit " post ") (lit "2pm") (lit "2026-01-01T10:00:02")).
  - vm_compute. reflexivity.
  - vm_compute. reflexivity.
  - vm_compute. reflexivity.
  - vm_compute. reflexivity.
  - vm_compute. discriminate.
  - right. vm_compute. discriminate.
Defined.

(** [action_edit_task] changes the text and the due time of the first
    task with the id of the highlighted item and nothing else: its id, its
    flag and its time of creation, the other tasks and the order stay, the
    store written holds the new list, and the index is set for this id.
    When the screen is cancelled the state stays as it is.  For a task
    whose text and due time are trimmed and not empty, as the UI stores
    them, Save on the screen as it opens gives back the text and the due
    time of the task, and the edit then leaves the tasks as they are. *)
Theorem action_edit_task_changes_text_and_due
  (lingering : list item -> list item) (st : ui) (i : Z)
  (new_text : str) (new_due : option str) :
  forallb task_ok (ui_tasks st) = true ->
  forallb scalar new_text = true ->
  (forall d, new_due = Some d -> forallb scalar d = true) ->
  In i (map id (ui_tasks st)) ->
  exists before t after,
    ui_tasks st = before ++ t :: after
    /\ id t = i /\ ~ In i (map id before)
    /\ (let tasks' :=
          before ++ mkTask (id t) new_text new_due (done t) (created_at t)
                    :: after in
        action_edit_task lingering (Some i) (Some (new_text, new_due)) st
        = (Ok tt, mkUi tasks' (stored tasks')
                    (fst (refresh_list (lingering (ui_items st)) tasks'
                            (Some i)))
                    (snd (refresh_list (lingering (ui_items st)) tasks'
                            (Some i))))
        /\ load_store (stored tasks') = Ok tasks')
    /\ action_edit_task lingering (Some i) None st = (Ok tt, st)
    /\ (strip (text t) = text t -> text t <> [] ->
        (forall d, due t = Some d -> strip d = d /\ d <> []) ->
        on_button_pressed SaveButton (fst (edit_values t))
          (snd (edit_values t)) = Dismiss (Some (text t, due t))
        /\ ui_tasks (snd (action_edit_task lingering (Some i)
                            (Some (text t, due t)) st))
           = ui_tasks st).
Proof.
  intros K St Sd H.
  destruct (find_id_first _ i H) as [before [t [after [Et [Ei [N F]]]]]].
  exists before, t, after. split; [exact Et|]. split; [exact Ei|].
  split; [exact N|]. subst i.
  assert (U : forall x y,
            update_first (id t) (set_text_due x y) (ui_tasks st)
            = before ++ mkTask (id t) x y (done t) (created_at t) :: after).
  { intros x y. rewrite Et.
    apply (update_first_at (set_text_due x y) before t after N). }
  split; [|split].
  - intros tasks'.
    assert (K' : forallb task_ok tasks' = true).
    { rewrite Et in K.
      apply (forallb_task_ok_updated (set_text_due new_text new_due)
               before t after); [|exact K].
      unfold task_ok. cbn [text due created_at set_text_due].
      rewrite (scalar_str_ok _ St).
      assert (Kt : task_ok t = true).
      { rewrite forallb_app in K. apply andb_true_iff in K.
        destruct K as [_ K]. cbn [forallb] in K.
        apply andb_true_iff in K. tauto. }
      unfold task_ok in Kt. apply andb_true_iff in Kt.
      destruct Kt as [_ Kc]. rewrite Kc.
      destruct new_due as [d|]; [|reflexivity].
      rewrite (scalar_str_ok _ (Sd d eq_refl)). reflexivity. }
    destruct (save_and_refresh_ok lingering tasks' (Some (id t)) st K')
      as [S1 L1].
    split; [|exact L1].
    unfold action_edit_task, get_selected_task. rewrite F, U. exact S1.
  - unfold action_edit_task, get_selected_task. rewrite F. reflexivity.
  - intros Tt Nt Dt.
    assert (B : on_button_pressed SaveButton (fst (edit_values t))
                  (snd (edit_values t)) = Dismiss (Some (text t, due t))).
    { unfold edit_values. cbn [fst snd on_button_pressed]. rewrite Tt.
      destruct (text t) as [|c r]; [contradiction|].
      destruct (due t) as [d|]; [|reflexivity].
      destruct (Dt d eq_refl) as [Sd' Nd]. rewrite Sd'.
      destruct d; [contradiction|reflexivity]. }
    split; [exact B|].
    unfold action_edit_task, get_selected_task. rewrite F, U.
    assert (X : mkTask (id t) (text t) (due t) (done t) (created_at t) = t)
      by (destruct t; reflexivity).
    rewrite X, <- Et.
    destruct (save_and_refresh_ok lingering (ui_tasks st) (Some (id t)) st K)
      as [S1 _].
    rewrite S1. reflexivity.
Qed.

Lemma action_edit_task_changes_text_and_due_witness :
  exists before t after,
    call_and_mail = before ++ t :: after
    /\ id t = 2 /\ ~ In 2 (map id before)
    /\ (let tasks' :=
          before ++ mkTask (id t) (lit "post") (Some (lit "2pm")) (done t)
                      (created_at t) :: after in
        action_edit_task (fun old => old) (Some 2)
          (Some (lit "post", Some (lit "2pm")))
          (mkUi call_and_mail two_tasks [] None)
        = (Ok tt, mkUi tasks' (stored tasks')
                    (fst (refresh_list ([]) tasks' (Some 2)))
                    (snd (refresh_list ([]) tasks' (Some 2))))
        /\ load_store (stored tasks') = Ok tasks')
    /\ action_edit_task (fun old => old) (Some 2) None
         (mkUi call_and_mail two_tasks [] None)
       = (Ok tt, mkUi call_and_mail two_tasks [] None)
    /\ (strip (text t) = text t -> text t <> [] ->
        (forall d, due t = Some d -> strip d = d /\ d <> []) ->
        on_button_pressed SaveButton (fst (edit_values t))
          (snd (edit_values t)) = Dismiss (Some (text t, due t))
        /\ ui_tasks (snd (action_edit_task (fun old => old) (Some 2)
                            (Some (text t, due t))
                            (mkUi call_and_mail two_tasks [] None)))
           = call_and_mail).
Proof.
  apply (action_edit_task_changes_text_and_due (fun old => old)
           (mkUi call_and_mail two_tasks [] None) 2 (lit "post")
           (Some (lit "2pm"))).
  - vm_compute. reflexivity.
  - vm_compute. reflexivity.
  - intros d E. injection E as <-. vm_compute. reflexivity.
  - simpl. auto.
Defined.

(** ** A session *)

(** What holds of the state between two actions: the store file loads as
    the tasks in memory, the ids are pairwise distinct, and the list view
    shows the tasks in display order. *)
Lemma update_first_ids i g tasks :
  (forall u, id (g u) = id u) ->
  map id (update_first i g tasks) = map id tasks.
Proof.
  intros G. induction tasks as [|t r IH]; [reflexivity|].
  cbn [update_first]. destruct (id t =? i); cbn [map].
  - rewrite G. reflexivity.
  - rewrite IH. reflexivity.
Qed.

Lemma update_first_task_ok i g tasks :
  (forall u, task_ok u = true -> task_ok (g u) = true) ->
  forallb task_ok tasks = true ->
  forallb task_ok (update_first i g tasks) = true.
Proof.
  intros G. induction tasks as [|t r IH]; [reflexivity|].
  cbn [update_first forallb]. intros K. apply andb_true_iff in K.
  destruct K as [K1 K2]. destruct (id t =? i); cbn [forallb].
  - rewrite (G t K1), K2. reflexivity.
  - rewrite K1, (IH K2). reflexivity.
Qed.

Lemma ui_step_keeps lingering (e : ui_event) (st : ui) :
  ui_event_ok e ->
  load_store (ui_file st) = Ok (ui_tasks st) ->
  NoDup (map id (ui_tasks st)) ->
  exists st',
    ui_step lingering e st = (Ok tt, st')
    /\ load_store (ui_file st') = Ok (ui_tasks st')
    /\ NoDup (map id (ui_tasks st'))
    /\ (st' = st
        \/ map label (ui_items st')
           = map format_task_line (sort_tasks (ui_tasks st'))).
Proof.
  intros Oe L N. pose proof (load_store_ok _ _ L) as K.
  assert (R : forall tasks sel,
            forallb task_ok tasks = true -> NoDup (map id tasks) ->
            exists st',
              save_and_refresh lingering tasks sel st = (Ok tt, st')
              /\ load_store (ui_file st') = Ok (ui_tasks st')
              /\ NoDup (map id (ui_tasks st'))
              /\ (st' = st
                  \/ map label (ui_items st')
                     = map format_task_line (sort_tasks (ui_tasks st')))).
  { intros tasks sel Kt Nt.
    destruct (save_and_refresh_ok lingering tasks sel st Kt) as [S1 L1].
    eexists. split; [exact S1|]. cbn [ui_file ui_tasks ui_items].
    split; [exact L1|]. split; [exact Nt|]. right.
    unfold refresh_list. cbn [fst]. rewrite map_map. reflexivity. }
  assert (Same : exists st',
            (Ok tt, st) = (Ok tt, st')
            /\ load_store (ui_file st') = Ok (ui_tasks st')
            /\ NoDup (map id (ui_tasks st'))
            /\ (st' = st
                \/ map label (ui_items st')
                   = map format_task_line (sort_tasks (ui_tasks st')))).
  { exists st. auto. }
  destruct e as [h|h|d now|h d]; cbn [ui_step].
  - unfold action_toggle_task.
    destruct (get_selected_task h (ui_tasks st)) as [t|]; [|exact Same].
    apply R.
    + apply update_first_task_ok; [|exact K].
      intros u Ku. rewrite task_ok_set_done. exact Ku.
    + rewrite update_first_ids; [exact N|reflexivity].
  - unfold action_delete_task.
    destruct (get_selected_task h (ui_tasks st)) as [t|]; [|exact Same].
    apply R.
    + apply forallb_filter. exact K.
    + apply nodup_ids_filter. exact N.
  - unfold action_add_task. destruct d as [[x y]|]; [|exact Same].
    destruct Oe as [[Sx Sy] Sn]. apply R.
    + rewrite forallb_app, K. cbn [forallb]. unfold task_ok.
      cbn [text due created_at].
      rewrite (scalar_str_ok _ Sx), (scalar_str_ok _ Sn).
      destruct y as [s|]; [rewrite (scalar_str_ok _ Sy)|]; reflexivity.
    + apply nodup_ids_add; [exact N|].
      intros u Hu. cbn [id]. apply next_id_above. exact Hu.
  - unfold action_edit_task.
    destruct (get_selected_task h (ui_tasks st)) as [t|]; [|exact Same].
    destruct d as [[x y]|]; [|exact Same].
    destruct Oe as [Sx Sy]. apply R.
    + apply update_first_task_ok; [|exact K].
      intros u Ku. unfold task_ok in *. cbn [text due created_at set_text_due].
      apply andb_true_iff in Ku. destruct Ku as [_ Kc]. rewrite Kc.
      rewrite (scalar_str_ok _ Sx).
      destruct y as [s|]; [rewrite (scalar_str_ok _ Sy)|]; reflexivity.
    + rewrite update_first_ids; [exact N|reflexivity].
Qed.

(** Through a whole session of the UI, whatever is highlighted at each
    action, no exception leaves an action, the store file loads as the
    tasks in memory and the ids stay pairwise distinct; after an action
    that changed something the list view shows the lines of the tasks in
    display order. *)
Theorem ui_run_keeps_store_and_ids (lingering : list item -> list item)
  (es : list ui_event) (f : file)
  (tasks : list task) :
  load_store f = Ok tasks ->
  NoDup (map id tasks) ->
  Forall ui_event_ok es ->
  exists st0 st,
    on_mount lingering f = Ok st0
    /\ ui_tasks st0 = tasks
    /\ map label (ui_items st0) = map format_task_line (sort_tasks tasks)
    /\ ui_run lingering es st0 = (Ok tt, st)
    /\ load_store (ui_file st) = Ok (ui_tasks st)
    /\ NoDup (map id (ui_tasks st))
    /\ map label (ui_items st)
       = map format_task_line (sort_tasks (ui_tasks st)).
Proof.
  intros L N F.
  exists (mkUi tasks f (fst (refresh_list (lingering []) tasks None))
            (snd (refresh_list (lingering []) tasks None))).
  assert (G : forall st0,
            load_store (ui_file st0) = Ok (ui_tasks st0) ->
            NoDup (map id (ui_tasks st0)) ->
            map label (ui_items st0)
            = map format_task_line (sort_tasks (ui_tasks st0)) ->
            exists st,
              ui_run lingering es st0 = (Ok tt, st)
              /\ load_store (ui_file st) = Ok (ui_tasks st)
              /\ NoDup (map id (ui_tasks st))
              /\ map label (ui_items st)
                 = map format_task_line (sort_tasks (ui_tasks st))).
  { induction F as [|e r Oe Fr IH]; intros st0 L0 N0 V0.
    - exists st0. auto.
    - destruct (ui_step_keeps lingering e st0 Oe L0 N0)
        as [st1 [S1 [L1 [N1 V1]]]].
      cbn [ui_run]. rewrite S1. apply IH; [exact L1|exact N1|].
      destruct V1 as [->|V1]; assumption. }
  assert (V : map label (fst (refresh_list (lingering []) tasks None))
              = map format_task_line (sort_tasks tasks)).
  { unfold refresh_list. cbn [fst]. rewrite map_map. reflexivity. }
  destruct (G (mkUi tasks f (fst (refresh_list (lingering []) tasks None))
                 (snd (refresh_list (lingering []) tasks None))) L N V)
    as [st [A [B [C D]]]].
  exists st. split; [unfold on_mount; rewrite L; reflexivity|].
  split; [reflexivity|]. split; [exact V|]. auto.
Qed.

Lemma ui_run_keeps_store_and_ids_witness :
  exists st0 st,
    on_mount (fun old => old) two_tasks = Ok st0
    /\ ui_tasks st0 = call_and_mail
    /\ map label (ui_items st0)
       = map format_task_line (sort_tasks call_and_mail)
    /\ ui_run (fun old => old) [ Toggle (Some 1);
                Add (Some (lit "post", None)) (lit "2026-01-01T10:00:02");
                Delete (Some 2); Edit (Some 3) (Some (lit "mail", None)) ]
         st0 = (Ok tt, st)
    /\ load_store (ui_file st) = Ok (ui_tasks st)
    /\ NoDup (map id (ui_tasks st))
    /\ map label (ui_items st)
       = map format_task_line (sort_tasks (ui_tasks st)).
Proof.
  apply (ui_run_keeps_store_and_ids (fun old => old)
           [ Toggle (Some 1);
             Add (Some (lit "post", None)) (lit "2026-01-01T10:00:02");
             Delete (Some 2); Edit (Some 3) (Some (lit "mail", None)) ]
           two_tasks call_and_mail).
  - vm_compute. reflexivity.
  - cbn. repeat constructor; cbn; intuition discriminate.
  - repeat constructor; vm_compute; reflexivity.
Defined.

(* ================================================================== *)
(** * The interactive prompt *)
(* ================================================================== *)

(** ** Words and quoted texts *)

Section ShlexFacts.
Import Shlex.

Lemma plain_char_cases c :
  plain_char c = true ->
  is_ws c = false /\ is_quote c = false /\ is_escape c = false.
Proof.
  unfold plain_char. intros H. apply negb_true_iff in H.
  apply orb_false_iff in H. destruct H as [H H3].
  apply orb_false_iff in H. tauto.
Qed.

Lemma lex_word quoted token w r :
  forallb plain_char w = true ->
  lex InWord quoted token (w ++ r) = lex InWord quoted (token ++ w) r.
Proof.
  revert token. induction w as [|c w IH]; intros token H.
  - rewrite app_nil_r. reflexivity.
  - cbn [forallb] in H. apply andb_true_iff in H. destruct H as [Hc Hw].
    destruct (plain_char_cases c Hc) as [W [Q E]].
    cbn [app lex]. rewrite W, Q, E. rewrite (IH (token ++ [c]) Hw).
    rewrite <- app_assoc. reflexivity.
Qed.

(** A plain word at the start of a token. *)
Lemma lex_plain_word w r :
  plain_word w = true ->
  lex InSpace false [] (w ++ r) = lex InWord false w r.
Proof.
  unfold plain_word. destruct w as [|c w]; [discriminate|].
  cbn [nonempty andb forallb]. intros H. apply andb_true_iff in H.
  destruct H as [Hc Hw]. destruct (plain_char_cases c Hc) as [W [Q E]].
  cbn [app lex]. rewrite W, Q, E. apply (lex_word false [c] w r Hw).
Qed.

Lemma nonempty_plain w : plain_word w = true -> nonempty w = true.
Proof. unfold plain_word. intros H. apply andb_true_iff in H. tauto. Qed.

(** The words of a line of plain words with one space between them. *)
Lemma lex_plain_words words :
  forallb plain_word words = true ->
  lex InSpace false [] (join [32] words) = Tokens words.
Proof.
  induction words as [|w ws IH]; [reflexivity|].
  cbn [forallb]. intros H. apply andb_true_iff in H. destruct H as [Hw Hs].
  destruct ws as [|w' ws'].
  - cbn [join]. rewrite <- (app_nil_r w) at 1. rewrite (lex_plain_word w [] Hw).
    cbn [lex]. rewrite (nonempty_plain w Hw). reflexivity.
  - change (join [32] (w :: w' :: ws'))
      with (w ++ [32] ++ join [32] (w' :: ws')).
    rewrite (lex_plain_word w _ Hw). cbn [app lex is_ws].
    cbn [Z.eqb Pos.eqb orb]. rewrite (nonempty_plain w Hw). cbn [orb].
    rewrite (IH Hs). reflexivity.
Qed.

(** A text between two quotes [q], when it holds neither [q] nor, for the
    double quote, a backslash. *)
Lemma lex_quoted q quoted token t r :
  forallb (fun c => negb (c =? q)
                    && negb (is_escape c && is_escapedquote q)) t = true ->
  lex (InQuote q) quoted token (t ++ q :: r) = lex InWord true (token ++ t) r.
Proof.
  revert quoted token. induction t as [|c t IH]; intros quoted token H.
  - cbn [app lex]. rewrite Z.eqb_refl, app_nil_r. reflexivity.
  - cbn [forallb] in H. apply andb_true_iff in H. destruct H as [Hc Ht].
    apply andb_true_iff in Hc. destruct Hc as [C1 C2].
    apply negb_true_iff in C1, C2.
    cbn [app lex]. rewrite C1, C2. rewrite (IH true (token ++ [c]) Ht).
    rewrite <- app_assoc. reflexivity.
Qed.

Lemma lex_unclosed q quoted token t :
  forallb (fun c => negb (c =? q)
                    && negb (is_escape c && is_escapedquote q)) t = true ->
  lex (InQuote q) quoted token t = ValueError (lit "No closing quotation").
Proof.
  revert quoted token. induction t as [|c t IH]; intros quoted token H.
  - reflexivity.
  - cbn [forallb] in H. apply andb_true_iff in H. destruct H as [Hc Ht].
    apply andb_true_iff in Hc. destruct Hc as [C1 C2].
    apply negb_true_iff in C1, C2.
    cbn [lex]. rewrite C1, C2. apply (IH true (token ++ [c]) Ht).
Qed.

End ShlexFacts.

(** [shlex.split] gives back the words of a line of plain words (not
    empty, without white space, quotes or backslashes) joined by single
    spaces. *)
Theorem shlex_split_plain_words (words : list str) :
  forallb plain_word words = true ->
  Shlex.split (join [32] words) = Shlex.Tokens words.
Proof. apply lex_plain_words. Qed.

Lemma shlex_split_plain_words_witness :
  Shlex.split (join [32] [lit "done"; lit "12"])
  = Shlex.Tokens [lit "done"; lit "12"].
Proof.
  apply (shlex_split_plain_words [lit "done"; lit "12"]).
  vm_compute. reflexivity.
Defined.

(** A text in double quotes after a word is one argument, with its spaces
    and single quotes, when it holds no double quote and no backslash; in
    single quotes, when it holds no single quote (backslashes stay as they
    are); the text may be empty.  When the closing quote is missing
    [shlex.split] raises [ValueError] with [No closing quotation]. *)
Theorem shlex_split_quoted (w t : str) :
  plain_word w = true ->
  (forallb (fun c => negb (c =? 34) && negb (c =? 92)) t = true ->
   Shlex.split (w ++ [32] ++ quoted t) = Shlex.Tokens [w; t]
   /\ Shlex.split (w ++ [32; 34] ++ t)
      = Shlex.ValueError (lit "No closing quotation"))
  /\ (forallb (fun c => negb (c =? 39)) t = true ->
      Shlex.split (w ++ [32; 39] ++ t ++ [39]) = Shlex.Tokens [w; t]
      /\ Shlex.split (w ++ [32; 39] ++ t)
         = Shlex.ValueError (lit "No closing quotation")).
Proof.
  intros Hw.
  assert (A : forall q r, Shlex.is_quote q = true ->
            Shlex.split (w ++ [32; q] ++ r)
            = Shlex.emit w (Shlex.lex (Shlex.InQuote q) false [] r)).
  { intros q r Hq. unfold Shlex.split. rewrite (lex_plain_word w _ Hw).
    cbn [app Shlex.lex Shlex.is_ws]. cbn [Z.eqb Pos.eqb orb].
    rewrite (nonempty_plain w Hw). cbn [orb]. f_equal.
    assert (W : Shlex.is_ws q = false).
    { unfold Shlex.is_quote, Shlex.is_ws in *. lia. }
    assert (E : Shlex.is_escape q = false).
    { unfold Shlex.is_quote, Shlex.is_escape in *. lia. }
    rewrite W, E, Hq. reflexivity. }
  split; intros Ht.
  - assert (T : forallb (fun c => negb (c =? 34)
                  && negb (Shlex.is_escape c && Shlex.is_escapedquote 34)) t
                = true).
    { rewrite forallb_forall in *. intros c Hc. specialize (Ht c Hc).
      unfold Shlex.is_escape, Shlex.is_escapedquote.
      rewrite andb_true_r. exact Ht. }
    split.
    + unfold quoted. change ([32] ++ [34] ++ t ++ [34])
        with ([32; 34] ++ t ++ [34]).
      rewrite (A 34 _ eq_refl), (lex_quoted 34 false [] t [] T).
      reflexivity.
    + rewrite (A 34 _ eq_refl), (lex_unclosed 34 false [] t T). reflexivity.
  - assert (T : forallb (fun c => negb (c =? 39)
                  && negb (Shlex.is_escape c && Shlex.is_escapedquote 39)) t
                = true).
    { rewrite forallb_forall in *. intros c Hc. specialize (Ht c Hc).
      unfold Shlex.is_escapedquote. cbn [Z.eqb Pos.eqb].
      rewrite andb_false_r, andb_true_r. exact Ht. }
    split.
    + rewrite (A 39 _ eq_refl), (lex_quoted 39 false [] t [] T).
      reflexivity.
    + rewrite (A 39 _ eq_refl), (lex_unclosed 39 false [] t T). reflexivity.
Qed.

Lemma shlex_split_quoted_witness :
  (forallb (fun c => negb (c =? 34) && negb (c =? 92)) (lit "buy milk")
   = true ->
   Shlex.split (lit "add" ++ [32] ++ quoted (lit "buy milk"))
   = Shlex.Tokens [lit "add"; lit "buy milk"]
   /\ Shlex.split (lit "add" ++ [32; 34] ++ lit "buy milk")
      = Shlex.ValueError (lit "No closing quotation"))
  /\ (forallb (fun c => negb (c =? 39)) (lit "buy milk") = true ->
      Shlex.split (lit "add" ++ [32; 39] ++ lit "buy milk" ++ [39])
      = Shlex.Tokens [lit "add"; lit "buy milk"]
      /\ Shlex.split (lit "add" ++ [32; 39] ++ lit "buy milk")
         = Shlex.ValueError (lit "No closing quotation")).
Proof.
  apply (shlex_split_quoted (lit "add") (lit "buy milk")).
  vm_compute. reflexivity.
Defined.

(** ** The loop *)

Section ShellFacts.
Variable parse_args : list str -> parsed.

Notation loop := (shell_loop parse_args).

Lemma outcome_and_then o r : outcome_of (and_then o r) = outcome_of r.
Proof. destruct r as [[o' e] f]. reflexivity. Qed.

(** One line of the session: it ends the session, by [quit] or by an
    exception, or the session goes on with a store file. *)
Lemma loop_step l f :
  (exists o e f',
     (forall rest', loop (l :: rest') f = (o, e, f'))
     /\ (is_quit (strip l) = true \/ exists x, e = Left x))
  \/ (exists o f', forall rest',
        loop (l :: rest') f = and_then o (loop rest' f')).
Proof.
  cbn [shell_loop].
  destruct (negb (Shlex.nonempty (strip l))).
  { right. exists [prompt], f. reflexivity. }
  destruct (is_quit (strip l)).
  { left. exists [prompt], Returned, f. auto. }
  destruct (str_eqb (strip l) (lit "help")).
  { right. exists (prompt :: map Line help_lines), f. reflexivity. }
  destruct (Shlex.split (strip l)) as [argv|m].
  - destruct (parse_args argv) as [printed|func].
    + right. exists (prompt :: map Line printed), f. reflexivity.
    + destruct (func f) as [[ls|e] f'].
      * right. exists (prompt :: map Line ls), f'. reflexivity.
      * left. exists [prompt], (Left e), f'. split; [reflexivity|].
        right. exists e. reflexivity.
  - right. exists [prompt; Line (lit "Parse error: " ++ m)], f. reflexivity.
Qed.

Lemma loop_quit l rest f :
  is_quit (strip l) = true -> loop (l :: rest) f = ([prompt], Returned, f).
Proof.
  intros Q. cbn [shell_loop]. rewrite Q.
  assert (N : Shlex.nonempty (strip l) = true).
  { destruct (strip l); [discriminate Q|reflexivity]. }
  rewrite N. reflexivity.
Qed.

Lemma loop_inert l rest f :
  inert parse_args l = true ->
  exists o, loop (l :: rest) f = and_then o (loop rest f).
Proof.
  unfold inert. cbn [shell_loop]. intros H.
  destruct (negb (Shlex.nonempty (strip l))).
  { exists [prompt]. reflexivity. }
  cbn [orb] in H.
  destruct (str_eqb (strip l) (lit "help")) eqn:Eh.
  { assert (Q : is_quit (strip l) = false).
    { apply str_eqb_eq in Eh. rewrite Eh. reflexivity. }
    rewrite Q. exists (prompt :: map Line help_lines). reflexivity. }
  cbn [orb] in H. apply andb_true_iff in H. destruct H as [Q H].
  apply negb_true_iff in Q. rewrite Q.
  destruct (Shlex.split (strip l)) as [argv|m].
  - destruct (parse_args argv) as [printed|func]; [|discriminate H].
    exists (prompt :: map Line printed). reflexivity.
  - exists [prompt; Line (lit "Parse error: " ++ m)]. reflexivity.
Qed.

End ShellFacts.

(** After [quit] or [exit] nothing is read: the lines that follow change
    neither the output nor the store, nor how the session ends. *)
Theorem cmd_shell_stops_at_quit (parse_args : list str -> parsed)
  (before : list str) (l : str) (rest : list str) (f : file) :
  is_quit (strip l) = true ->
  cmd_shell parse_args (before ++ l :: rest) f
  = cmd_shell parse_args (before ++ [l]) f.
Proof.
  intros Q. unfold cmd_shell. f_equal. revert f.
  induction before as [|x before IH]; intros f; cbn [app].
  - rewrite !(loop_quit parse_args l _ f Q). reflexivity.
  - destruct (loop_step parse_args x f) as [[o [e [f' [E _]]]]|[o [f' E]]].
    + rewrite !E. reflexivity.
    + rewrite !E, IH. reflexivity.
Qed.

Lemma cmd_shell_stops_at_quit_witness :
  cmd_shell parse_list_only
    ([lit "list"; lit "  "] ++ lit " quit " :: [lit "list"]) two_tasks
  = cmd_shell parse_list_only
      ([lit "list"; lit "  "] ++ [lit " quit "]) two_tasks.
Proof.
  apply (cmd_shell_stops_at_quit parse_list_only [lit "list"; lit "  "]
           (lit " quit ") [lit "list"] two_tasks).
  vm_compute. reflexivity.
Defined.

(** A line that is blank, that is [help], that [shlex] cannot split or
    that the parser refuses runs no command and does not end the session:
    with or without it, the session ends the same way and leaves the same
    store file. *)
Theorem cmd_shell_skips_inert_line (parse_args : list str -> parsed)
  (before : list str) (l : str) (rest : list str) (f : file) :
  inert parse_args l = true ->
  outcome_of (cmd_shell parse_args (before ++ l :: rest) f)
  = outcome_of (cmd_shell parse_args (before ++ rest) f).
Proof.
  intros I. unfold cmd_shell. rewrite !outcome_and_then. revert f.
  induction before as [|x before IH]; intros f; cbn [app].
  - destruct (loop_inert parse_args l rest f I) as [o E].
    rewrite E. apply outcome_and_then.
  - destruct (loop_step parse_args x f) as [[o [e [f' [E _]]]]|[o [f' E]]].
    + rewrite !E. reflexivity.
    + rewrite !E, !outcome_and_then. apply IH.
Qed.

Lemma cmd_shell_skips_inert_line_witness :
  outcome_of (cmd_shell parse_list_only
                ([lit "list"] ++ (lit "add " ++ quoted (lit "x")) :: [lit "list"])
                two_tasks)
  = outcome_of (cmd_shell parse_list_only ([lit "list"] ++ [lit "list"])
                  two_tasks).
Proof.
  apply (cmd_shell_skips_inert_line parse_list_only [lit "list"]
           (lit "add " ++ quoted (lit "x")) [lit "list"] two_tasks).
  vm_compute. reflexivity.
Defined.

(** The prompt keeps nothing between two lines but the store file: when
    the lines [a], none of them [quit] or [exit], are all read and the
    session returns at the end of the input with the store [f1], then the
    session on [a] followed by [b] ends as the session on [b] started on
    [f1], with the same store. *)
Theorem cmd_shell_composes (parse_args : list str -> parsed)
  (a b : list str) (f f1 : file) :
  forallb (fun l => negb (is_quit (strip l))) a = true ->
  outcome_of (cmd_shell parse_args a f) = (Returned, f1) ->
  outcome_of (cmd_shell parse_args (a ++ b) f)
  = outcome_of (cmd_shell parse_args b f1).
Proof.
  unfold cmd_shell. rewrite !outcome_and_then. revert f.
  induction a as [|x a IH]; intros f Q R; cbn [app].
  - cbn in R. injection R as <-. reflexivity.
  - cbn [forallb] in Q. apply andb_true_iff in Q. destruct Q as [Qx Qa].
    apply negb_true_iff in Qx.
    destruct (loop_step parse_args x f)
      as [[o [e [f' [E [X|[y X]]]]]]|[o [f' E]]].
    + congruence.
    + rewrite E in R. cbn in R. subst e. discriminate R.
    + rewrite E in R |- *. rewrite outcome_and_then in R |- *.
      apply IH; assumption.
Qed.

Lemma cmd_shell_composes_witness :
  outcome_of (cmd_shell parse_list_only ([lit "list"] ++ [lit "help"])
                two_tasks)
  = outcome_of (cmd_shell parse_list_only [lit "help"] two_tasks).
Proof.
  apply (cmd_shell_composes parse_list_only [lit "list"] [lit "help"]
           two_tasks two_tasks).
  - vm_compute. reflexivity.
  - vm_compute. reflexivity.
Defined.

(* ================================================================== *)
(** * More on the store file and on the workflow document *)
(* ================================================================== *)

(** Whatever the texts of the tasks, the store file that [save_tasks]
    writes holds printable ASCII characters and line feeds only:
    [json.dump] escapes every other character. *)
Theorem save_tasks_writes_ascii (tasks : list task) :
  forallb task_ok tasks = true ->
  exists bs,
    save_tasks (json_of_tasks tasks) = (Ok tt, Some bs)
    /\ Forall (fun x => b2z x = 10 \/ 32 <= b2z x <= 126) bs.
Proof.
  intros K. pose proof (json_of_tasks_ok tasks K) as J.
  exists (map z2b (dumps_indent 0 (json_of_tasks tasks))).
  split; [apply save_tasks_ok; exact J|].
  pose proof (dumps_indent_printable _ 0%nat J) as P.
  rewrite forallb_forall in P. apply Forall_forall. intros x Hx.
  apply in_map_iff in Hx. destruct Hx as [c [<- Hc]].
  specialize (P c Hc). rewrite b2z_z2b.
  - unfold printable, in_range in P. lia.
  - unfold printable, in_range in P. lia.
Qed.

Lemma save_tasks_writes_ascii_witness :
  exists bs,
    save_tasks (json_of_tasks [mkTask 1 [233; 128512] None false []])
    = (Ok tt, Some bs)
    /\ Forall (fun x => b2z x = 10 \/ 32 <= b2z x <= 126) bs.
Proof.
  apply (save_tasks_writes_ascii [mkTask 1 [233; 128512] None false []]).
  vm_compute. reflexivity.
Defined.

Lemma _handle_get_ok_witness :
  _handle_get (Some (map z2b (lit "[1,  2]")))
  = Sent (Reply 200
            [ (lit "Content-Type", lit "application/json; charset=utf-8");
              (lit "Content-Length",
               repr_int (Z.of_nat (length (map z2b
                                             (dumps (JArr [JInt 1; JInt 2])))))) ]
            (map z2b (dumps (JArr [JInt 1; JInt 2]))))
  /\ Utf8.decode (map z2b (dumps (JArr [JInt 1; JInt 2])))
     = Some (dumps (JArr [JInt 1; JInt 2]))
  /\ loads (dumps (JArr [JInt 1; JInt 2])) = Some (JArr [JInt 1; JInt 2]).
Proof.
  apply (_handle_get_ok (map z2b (lit "[1,  2]")) (lit "[1,  2]")).
  - vm_compute. reflexivity.
  - vm_compute. reflexivity.
Defined.

(** What [_handle_post] does with a body it accepts, whatever the file
    held. *)
Lemma _handle_post_accepts raw s d tasks edges f :
  Utf8.decode raw = Some s ->
  loads s = Some (JObj d) ->
  get_or_empty d (lit "tasks") = JArr tasks ->
  get_or_empty d (lit "edges") = JArr edges ->
  json_ok (workflow tasks edges)
  /\ _handle_post raw f
     = (Sent (Reply 204 [] []),
        Some (map z2b (dumps_indent 0 (workflow tasks edges)))).
Proof.
  intros D L Et Ee.
  pose proof (loads_sound s _ (decode_scalar raw s D) L) as K.
  pose proof (get_or_empty_ok d (lit "tasks") K) as Kt.
  pose proof (get_or_empty_ok d (lit "edges") K) as Ke.
  rewrite Et in Kt. rewrite Ee in Ke.
  pose proof (workflow_ok tasks edges Kt Ke) as Kw.
  split; [exact Kw|].
  destruct (write_read_text _ (dumps_indent_printable _ 0%nat Kw))
    as [W _].
  unfold _handle_post. rewrite D, L. cbn zeta. rewrite Et, Ee.
  cbn [is_list negb orb]. fold (workflow tasks edges). rewrite W.
  reflexivity.
Qed.

(** An accepted POST does not depend on the document it replaces, so the
    same body posted again leaves the file as it is; and the body that
    GET then returns, posted back, is accepted and writes the very same
    file: the document is stable under reading it and posting it back. *)
Theorem _handle_post_of_get_body (raw : bytes) (f : file) (s : str)
  (d : list (str * json)) (tasks edges : list json) :
  Utf8.decode raw = Some s ->
  loads s = Some (JObj d) ->
  get_or_empty d (lit "tasks") = JArr tasks ->
  get_or_empty d (lit "edges") = JArr edges ->
  exists stored data headers,
    _handle_post raw f = (Sent (Reply 204 [] []), Some stored)
    /\ _handle_post raw (Some stored) = (Sent (Reply 204 [] []), Some stored)
    /\ _handle_get (Some stored) = Sent (Reply 200 headers data)
    /\ _handle_post data (Some stored)
       = (Sent (Reply 204 [] []), Some stored).
Proof.
  intros D L Et Ee.
  destruct (_handle_post_accepts raw s d tasks edges f D L Et Ee)
    as [Kw P1].
  destruct (_handle_post_accepts raw s d tasks edges
              (Some (map z2b (dumps_indent 0 (workflow tasks edges))))
              D L Et Ee) as [_ P2].
  destruct (write_read_text _ (dumps_printable _ Kw)) as [_ [_ Dd]].
  destruct (_handle_post_accepts (map z2b (dumps (workflow tasks edges)))
              (dumps (workflow tasks edges))
              [(lit "tasks", JArr tasks); (lit "edges", JArr edges)]
              tasks edges
              (Some (map z2b (dumps_indent 0 (workflow tasks edges))))
              Dd (loads_dumps _ Kw) eq_refl eq_refl) as [_ P3].
  eexists _, _, _. split; [exact P1|]. split; [exact P2|].
  split; [apply (_handle_get_written _ Kw)|exact P3].
Qed.

Lemma _handle_post_of_get_body_witness :
  exists stored data headers,
    _handle_post post_body_with_view None
    = (Sent (Reply 204 [] []), Some stored)
    /\ _handle_post post_body_with_view (Some stored)
       = (Sent (Reply 204 [] []), Some stored)
    /\ _handle_get (Some stored) = Sent (Reply 200 headers data)
    /\ _handle_post data (Some stored)
       = (Sent (Reply 204 [] []), Some stored).
Proof.
  refine (_handle_post_of_get_body post_body_with_view None
            (lit "{" ++ quoted (lit "view") ++ lit ":" ++ quoted (lit "grid")
             ++ lit "," ++ quoted (lit "tasks") ++ lit ":[1],"
             ++ quoted (lit "edges") ++ lit ":[]}")
            [(lit "view", JStr (lit "grid")); (lit "tasks", JArr [JInt 1]);
             (lit "edges", JArr [])]
            [JInt 1] [] _ _ _ _).
  - vm_compute. reflexivity.
  - vm_compute. reflexivity.
  - vm_compute. reflexivity.
  - vm_compute. reflexivity.
Defined.

(* ================================================================== *)
(** * Adding and removing, marking and listing *)
(* ================================================================== *)

(** [cmd_remove] of the id that [cmd_add] just gave takes the new task
    out again and nothing else: the store then holds the tasks it held
    before the two commands, in the form [save_tasks] writes them. *)
Theorem cmd_add_then_cmd_remove (arg_text : str) (arg_due : option str)
  (now : str) (f : file) (tasks : list task) :
  load_store f = Ok tasks ->
  forallb scalar arg_text = true ->
  (forall d, arg_due = Some d -> forallb scalar d = true) ->
  forallb scalar now = true ->
  cmd_remove (next_id tasks) (snd (cmd_add arg_text arg_due now f))
  = (Printed [lit "Removed task #" ++ repr_int (next_id tasks) ++ lit "."],
     stored tasks)
  /\ load_store (stored tasks) = Ok tasks.
Proof.
  intros L St Sd Sn. pose proof (load_store_ok f tasks L) as K.
  destruct (cmd_add_stored arg_text arg_due now f tasks L St Sd Sn)
    as [E R].
  rewrite E. cbn [snd].
  set (t := mkTask (next_id tasks) (strip arg_text) (due_arg arg_due) false
              now) in *.
  assert (X : filter (fun u => negb (id u =? next_id tasks)) (tasks ++ [t])
              = tasks).
  { rewrite filter_app. cbn [filter id t]. rewrite Z.eqb_refl. cbn [negb].
    rewrite app_nil_r. apply filter_all. intros u Hu.
    pose proof (next_id_above tasks u Hu). apply negb_true_iff. lia. }
  destruct (save_then_stored tasks
              [lit "Removed task #" ++ repr_int (next_id tasks) ++ lit "."] K)
    as [S1 L1].
  split; [|exact L1].
  unfold cmd_remove. rewrite R, X.
  destruct (Nat.eqb (length tasks) (length (tasks ++ [t]))) eqn:Len.
  - apply Nat.eqb_eq in Len. rewrite length_app in Len. cbn [length] in Len.
    lia.
  - exact S1.
Qed.

Lemma cmd_add_then_cmd_remove_witness :
  cmd_remove (next_id call_and_mail)
    (snd (cmd_add (lit "post") None (lit "2026-01-01T10:00:02") two_tasks))
  = (Printed [lit "Removed task #" ++ repr_int (next_id call_and_mail)
              ++ lit "."], stored call_and_mail)
  /\ load_store (stored call_and_mail) = Ok call_and_mail.
Proof.
  apply (cmd_add_then_cmd_remove (lit "post") None
           (lit "2026-01-01T10:00:02") two_tasks call_and_mail).
  - vm_compute. reflexivity.
  - vm_compute. reflexivity.
  - intros d E. discriminate E.
  - vm_compute. reflexivity.
Defined.



(* ================================================================== *)
(** * Due times in other digits *)
(* ================================================================== *)

(** [\d] and [int] take the decimal digits of every script: a due time
    written with Arabic-Indic or fullwidth digits is read like the same
    time in ASCII digits, while the hour of the 12-hour formats, whose
    pattern names the ASCII digits, is not. *)
Lemma parse_due_key_other_digits :
  fst (parse_due_key (Some [49; 1635; 58; 48; 1637])) = 785
  /\ fst (parse_due_key (Some [1641; 58; 1635])) = 543
  /\ fst (parse_due_key (Some [50; 58; 51; 1632; 112; 109])) = 870
  /\ fst (parse_due_key (Some [65297; 65298; 58; 65299; 65296])) = 999998
  /\ fst (parse_due_key (Some [1641; 97; 109])) = 999998.
Proof. vm_compute. repeat split. Qed.
